(** * kubelink: link registry, ingress policy and tunnel framing

    A shallow embedding of the parts of kubelink that its specification
    talks about:

    - [pkg/tunnel/net.go]            byte order helpers, [BroadcastAddress]
    - [pkg/tcp/util.go]              [CIDRNet], [CIDRList], [onceCloseListener]
    - [pkg/kubelink/links.go]        [IPRange], [Link], the [Links] registry
    - [pkg/controllers/endpoints.go] [TunnelConnection]: handshake checks,
                                     frame codec, read loop

    Bytes are integers in [0,256); a Go slice is a list (the nil slice is
    the empty list unless a definition says otherwise); Go maps are
    [gmap]s; I/O is explicit state passing over a byte stream. *)

From stdpp Require Import gmap strings list fin_maps pretty.
From Stdlib Require Import ZArith Lia Ascii.

Local Open Scope Z_scope.

(** ** Go's [net] package: the functions kubelink calls

    [net.IP] and [net.IPMask] are byte slices of length 4 or 16. The
    definitions follow the Go standard library ([net/ip.go]). *)

Module net.

Definition IP := list Z.
Definition IPMask := list Z.

Record IPNet := mkIPNet { IPNet_IP : IP; IPNet_Mask : IPMask }.

Definition IPv4len : nat := 4.
Definition IPv6len : nat := 16.

Definition v4InV6Prefix : list Z := [0; 0; 0; 0; 0; 0; 0; 0; 0; 0; 255; 255].

Definition IPv6zero : IP := replicate 16 0.

(** [net.IPv4(a, b, c, d)]: the 16-byte form of an IPv4 address. *)
Definition IPv4 (a b c d : Z) : IP := v4InV6Prefix ++ [a; b; c; d].

Definition bytes_eqb (a b : list Z) : bool := bool_decide (a = b).

Definition isZeros (p : list Z) : bool := forallb (Z.eqb 0) p.

Definition allFF (p : list Z) : bool := forallb (Z.eqb 255) p.

(** [ip.To4()]; the result [[]] stands for Go's [nil]. *)
Definition To4 (ip : IP) : IP :=
  if (length ip =? IPv4len)%nat then ip
  else if (length ip =? IPv6len)%nat
          && isZeros (take 10 ip)
          && bytes_eqb (take 2 (drop 10 ip)) [255; 255]
       then drop 12 ip
       else [].

(** [ip.Equal(x)]: equal as addresses, an IPv4 address and its 16-byte
    form being the same address. *)
Definition Equal (ip x : IP) : bool :=
  if (length ip =? length x)%nat then bytes_eqb ip x
  else if (length ip =? IPv4len)%nat && (length x =? IPv6len)%nat
       then bytes_eqb (take 12 x) v4InV6Prefix && bytes_eqb ip (drop 12 x)
  else if (length ip =? IPv6len)%nat && (length x =? IPv4len)%nat
       then bytes_eqb (take 12 ip) v4InV6Prefix && bytes_eqb (drop 12 ip) x
  else false.

(** [ip.Mask(mask)]; [[]] is Go's [nil] result on a length mismatch. *)
Definition Mask (ip : IP) (mask : IPMask) : IP :=
  let mask :=
    if (length mask =? IPv6len)%nat && (length ip =? IPv4len)%nat
       && allFF (take 12 mask)
    then drop 12 mask else mask in
  let ip :=
    if (length mask =? IPv4len)%nat && (length ip =? IPv6len)%nat
       && bytes_eqb (take 12 ip) v4InV6Prefix
    then drop 12 ip else ip in
  if (length ip =? length mask)%nat then zip_with Z.land ip mask else [].

(** [networkNumberAndMask(n)]; [([], [])] is Go's [(nil, nil)]. *)
Definition networkNumberAndMask (n : IPNet) : IP * IPMask :=
  let ip4 := To4 (IPNet_IP n) in
  let ip := if (length ip4 =? 0)%nat then IPNet_IP n else ip4 in
  if (length ip4 =? 0)%nat && negb (length ip =? IPv6len)%nat then ([], [])
  else
    let m := IPNet_Mask n in
    if (length m =? IPv4len)%nat then
      if (length ip =? IPv4len)%nat then (ip, m) else ([], [])
    else if (length m =? IPv6len)%nat then
      if (length ip =? IPv4len)%nat then (ip, drop 12 m) else (ip, m)
    else ([], []).

(** The comparison loop of [n.Contains(ip)]:
    [nn[i]&m[i] != ip[i]&m[i]] at no index. *)
Fixpoint same_masked (nn m ip : list Z) : bool :=
  match nn, m, ip with
  | a :: nn', b :: m', c :: ip' =>
      (Z.land a b =? Z.land c b) && same_masked nn' m' ip'
  | _, _, _ => true
  end.

(** [ip.String()] is used by kubelink as a map key only. The text is
    determined by, and determines, the address in canonical form (the
    4-byte form of an IPv4 address in dotted notation, any other slice
    as it is), so the key is modelled by these bytes. *)
Definition IP_String (ip : IP) : list Z :=
  let p4 := To4 ip in
  if (length p4 =? IPv4len)%nat then p4 else ip.

(** [n.Contains(ip)]. *)
Definition Contains (n : IPNet) (ip : IP) : bool :=
  let '(nn, m) := networkNumberAndMask n in
  let x := To4 ip in
  let ip := if (length x =? 0)%nat then ip else x in
  if (length ip =? length nn)%nat then same_masked nn m ip else false.

End net.

(** ** [pkg/tunnel/net.go]

    [endpoints.go] calls the byte order helpers as [tcp.HtoNs] and
    [tcp.NtoHs]; they are the functions of this file. *)

Module tunnel.

(** [HtoNs(val uint16)]: two bytes, most significant first. *)
Definition HtoNs (val : Z) : list Z :=
  [Z.shiftr val 8 mod 256; val mod 256].

(** [NtoHs(buf)]; [None] is the index panic on a buffer shorter than 2. *)
Definition NtoHs (buf : list Z) : option Z :=
  match buf with
  | b0 :: b1 :: _ => Some (Z.lor b1 (Z.shiftl b0 8))
  | _ => None
  end.

(** The loop [for i, b := range ipNet.Mask { ip[i] &= b }]; [None] is the
    index panic when the mask is longer than the address. *)
Fixpoint and_prefix (ip : list Z) (mask : list Z) : option (list Z) :=
  match mask, ip with
  | [], _ => Some ip
  | b :: mask', x :: ip' => cons (Z.land x b) <$> and_prefix ip' mask'
  | _ :: _, [] => None
  end.

Definition BroadcastAddress (ipNet : net.IPNet) : option net.IP :=
  and_prefix (net.IPNet_IP ipNet) (net.IPNet_Mask ipNet).

(** The highest address of a network, what a broadcast address is:
    every host bit set. Stated from the words of the specification, to
    compare [BroadcastAddress] with. *)
Definition HighestAddress (ipNet : net.IPNet) : net.IP :=
  zip_with (fun x b => Z.lor x (Z.lxor b 255))
           (net.IPNet_IP ipNet) (net.IPNet_Mask ipNet).

(** [HtoNl(val uint32)]: four bytes, most significant first. *)
Definition HtoNl (val : Z) : list Z :=
  [Z.shiftr val 24 mod 256; Z.shiftr val 16 mod 256;
   Z.shiftr val 8 mod 256; val mod 256].

(** [NtoHl(buf)]; [None] is the index panic on a buffer shorter than 4. *)
Definition NtoHl (buf : list Z) : option Z :=
  match buf with
  | b0 :: b1 :: b2 :: b3 :: _ =>
      Some (Z.lor (Z.lor (Z.lor b3 (Z.shiftl b2 8)) (Z.shiftl b1 16))
                  (Z.shiftl b0 24))
  | _ => None
  end.

End tunnel.

(** ** Errors

    One constructor per error the modelled code builds with [fmt.Errorf],
    plus the errors of the transport. *)

Inductive error :=
  | EOF                                          (* io.EOF *)
  | ErrClosed                                    (* use of closed network connection *)
  | ErrInvalidRoutingCIDR (s : string)           (* invalid routing cidr %q *)
  | ErrInvalidCIDR (s : string)                  (* invalid cidr %q *)
  | ErrInvalidClusterIngress (e : error)         (* invalid cluster ingress: %s *)
  | ErrInvalidClusterAddress (s : string)        (* invalid cluster address %q *)
  | ErrNoEndpoint                                (* no endpoint *)
  | ErrNoGateway                                 (* no gateway address *)
  | ErrInvalidGateway (s : string)               (* invalid gateway address %q *)
  | ErrInvalidGatewayPort (s : string)           (* invalid gateway port %q *)
  | ErrInvalidPublicKey (s : string)             (* invalid public wireguard key %q *)
  | ErrBufferTooSmall (size length : Z)          (* buffer too small (%d): packet size is %d *)
  | ErrPacketTooLarge (size : Z)                 (* packet too large (%d) *)
  | ErrUnexpectedPacket (ty : Z)                 (* unexpected packet %d instead of hello handshake *)
  | ErrHelloTooShort (got expected : Z)          (* hello packet too short (%d expected %d) *)
  | ErrInvalidHello                              (* an error of ParseConnectionHello *)
  | ErrHandshake (e : error)                     (* cannot finish connection handshake: %s *)
  | ErrMismatchExpected (got expected : net.IP)  (* cluster address mismatch: got %s but expected %s *)
  | ErrMismatchOwn (own : net.IP) (foreign : net.IPNet)
                                                 (* cluster address mismatch: own address %s not in foreign range *)
  | ErrMismatchRemote (remote : net.IP) (loc : net.IPNet)
                                                 (* cluster address mismatch: remote address %s not in local range *)
  | ErrTun (msg : string).                       (* an error of the tun device *)

(** The errors whose text starts with [cluster address mismatch]. *)
Definition is_cluster_address_mismatch (e : error) : bool :=
  match e with
  | ErrMismatchExpected _ _ | ErrMismatchOwn _ _ | ErrMismatchRemote _ _ => true
  | _ => false
  end.

Definition is_buffer_too_small (e : error) : bool :=
  match e with ErrBufferTooSmall _ _ => true | _ => false end.

(** ** [pkg/tcp/util.go] *)

Module tcp.

Definition CIDRNet (cidr : net.IPNet) : net.IPNet :=
  net.mkIPNet (net.Mask (net.IPNet_IP cidr) (net.IPNet_Mask cidr))
              (net.IPNet_Mask cidr).

Definition CIDRIP (cidr : net.IPNet) (ip : net.IP) : net.IPNet :=
  net.mkIPNet ip (net.IPNet_Mask cidr).

(** [type CIDRList []*net.IPNet]. [IsSet] tests the slice against [nil],
    so the nil slice ([None]) is kept apart from an empty one. *)
Definition CIDRList := option (list net.IPNet).

Definition elems (this : CIDRList) : list net.IPNet := default [] this.

(** [Add] appends to the list; appending nothing to nil leaves nil. *)
Definition Add (this : CIDRList) (cidrs : list net.IPNet) : CIDRList :=
  match this, cidrs with
  | None, [] => None
  | _, _ => Some (elems this ++ cidrs)
  end.

Definition IsEmpty (this : CIDRList) : bool :=
  (length (elems this) =? 0)%nat.

Definition IsSet (this : CIDRList) : bool :=
  match this with Some _ => true | None => false end.

Definition Contains (this : CIDRList) (ip : net.IP) : bool :=
  existsb (fun c => net.Contains c ip) (elems this).

(** The loop of [SubIP], from the last byte of the address towards the
    first: [rip] is the address reversed. [None] is the index panic when
    a carry is left after the first byte. *)
Fixpoint SubIP_loop (n : Z) (rip : list Z) : option (list Z) :=
  if n >? 0 then
    match rip with
    | [] => None
    | b :: rip' =>
        let n := n + b in
        cons (n mod 256) <$> SubIP_loop (n / 256) rip'
    end
  else Some rip.

(** [SubIP(cidr, n)]: the address of [cidr] plus [n]. *)
Definition SubIP (cidr : net.IPNet) (n : Z) : option net.IP :=
  reverse <$> SubIP_loop n (reverse (net.IPNet_IP cidr)).

(** [EqualCIDR(a, b)] on [*net.IPNet], [None] for [nil]. The pointer test
    [a == b] answers [true] for one and the same network, as the
    comparison of address and mask does. *)
Definition EqualCIDR (a b : option net.IPNet) : bool :=
  match a, b with
  | None, None => true
  | Some a, Some b =>
      net.Equal (net.IPNet_IP a) (net.IPNet_IP b)
      && net.Equal (net.IPNet_Mask a) (net.IPNet_Mask b)
  | _, _ => false
  end.

(** [onceCloseListener] wraps a [net.Listener], here any state with a
    [Close]. [sync.Once] is its [done] flag. *)
Section OnceCloseListener.

Variable Listener : Type.
Variable Listener_Close : Listener -> Listener * option error.

Record onceCloseListener := mkOnceCloseListener {
  oc_Listener : Listener;
  once_done : bool;
  closeErr : option error
}.

(** [func (oc *onceCloseListener) close()] *)
Definition close (oc : onceCloseListener) : onceCloseListener :=
  let '(l, e) := Listener_Close (oc_Listener oc) in
  mkOnceCloseListener l (once_done oc) e.

(** [oc.once.Do(f)]: runs [f] unless done, then sets done. *)
Definition once_Do (f : onceCloseListener -> onceCloseListener)
    (oc : onceCloseListener) : onceCloseListener :=
  if once_done oc then oc
  else let oc' := f oc in
       mkOnceCloseListener (oc_Listener oc') true (closeErr oc').

Definition Close (oc : onceCloseListener) : onceCloseListener * option error :=
  let oc := once_Do close oc in (oc, closeErr oc).

(** [n] calls of [Close] in a row, with the error each returned. *)
Fixpoint Close_n (n : nat) (oc : onceCloseListener)
    : onceCloseListener * list (option error) :=
  match n with
  | O => (oc, [])
  | S n' => let '(oc, e) := Close oc in
            let '(oc, es) := Close_n n' oc in (oc, e :: es)
  end.

End OnceCloseListener.

End tcp.

(** ** [pkg/kubelink/links.go] *)

Module kubelink.

Record IPRange := mkIPRange { Allowed : tcp.CIDRList; Denied : tcp.CIDRList }.

Record LinkAccessInfo := mkLinkAccessInfo { CACert : string; Token : string }.

Record LinkDNSInfo := mkLinkDNSInfo { ClusterDomain : string; DnsIP : net.IP }.

Record LinkForeignData := mkLinkForeignData {
  UpdatePending : bool;
  AccessInfo : LinkAccessInfo;   (* embedded LinkAccessInfo *)
  DNSInfo : LinkDNSInfo          (* embedded LinkDNSInfo *)
}.

(** [*IPRange] is [option IPRange], [*net.IPNet] of an optional field
    is [option net.IPNet]. [ClusterAddress] is dereferenced without a
    nil test everywhere, and [LinkFor] always sets it. *)
Record Link := mkLink {
  Name : string;
  ServiceCIDR : option net.IPNet;
  Egress : tcp.CIDRList;
  Ingress : option IPRange;
  ClusterAddress : net.IPNet;
  Gateway : net.IP;
  Host : string;
  Port : Z;
  Endpoint : string;
  PublicKey : option (list Z);
  ForeignData : LinkForeignData  (* embedded LinkForeignData *)
}.

Definition with_ForeignData (l : Link) (d : LinkForeignData) : Link :=
  mkLink (Name l) (ServiceCIDR l) (Egress l) (Ingress l) (ClusterAddress l)
         (Gateway l) (Host l) (Port l) (Endpoint l) (PublicKey l) d.

Definition with_UpdatePending (l : Link) (b : bool) : Link :=
  with_ForeignData l
    (mkLinkForeignData b (AccessInfo (ForeignData l)) (DNSInfo (ForeignData l))).

Definition with_LinkAccessInfo (l : Link) (a : LinkAccessInfo) : Link :=
  with_ForeignData l
    (mkLinkForeignData (UpdatePending (ForeignData l)) a (DNSInfo (ForeignData l))).

Definition with_LinkDNSInfo (l : Link) (d : LinkDNSInfo) : Link :=
  with_ForeignData l
    (mkLinkForeignData (UpdatePending (ForeignData l)) (AccessInfo (ForeignData l)) d).

Definition IPRange_IsSet (this : option IPRange) : bool :=
  match this with
  | None => false
  | Some r => tcp.IsSet (Allowed r) || tcp.IsSet (Denied r)
  end.

Definition IPRange_Contains (this : option IPRange) (ip : net.IP) : bool :=
  match this with
  | None => true
  | Some r =>
      if negb (tcp.IsSet (Allowed r)) || tcp.Contains (Allowed r) ip
      then negb (existsb (fun c => net.Contains c ip) (tcp.elems (Denied r)))
      else true
  end.

Definition LinkAccessInfo_Equal (this other : LinkAccessInfo) : bool :=
  String.eqb (CACert this) (CACert other) && String.eqb (Token this) (Token other).

Definition LinkDNSInfo_Equal (this other : LinkDNSInfo) : bool :=
  net.Equal (DnsIP this) (DnsIP other)
  && String.eqb (ClusterDomain this) (ClusterDomain other).

(** [(granted, set)] *)
Definition AllowIngress (this : Link) (ip : net.IP) : bool * bool :=
  if negb (IPRange_IsSet (Ingress this)) then (true, false)
  else (IPRange_Contains (Ingress this) ip, true).

(** The ingress policy as the specification words it: admitted iff
    (Allowed is empty or contains dst) and no Denied entry contains dst. *)
Definition spec_policy (allowed denied : list net.IPNet) (dst : net.IP) : bool :=
  ((length allowed =? 0)%nat || existsb (fun c => net.Contains c dst) allowed)
  && negb (existsb (fun c => net.Contains c dst) denied).

(** Modelled from the spec: the [KubeLink] resource of package
    [v1alpha1], whose declaration is not among the sources. "Spec fields:
    name, cidr, clusterAddress (CIDR), endpoint (host[:port] or "none"),
    ingress (list of strings; leading ! denotes deny), egress (list of
    CIDRs), publicKey (optional), status {gateway, ...}": the fields
    [LinkFor] reads, all strings as declared. *)
Record KubeLink := mkKubeLink {
  kl_Name : string;
  Spec_CIDR : string;
  Spec_ClusterAddress : string;
  Spec_Endpoint : string;
  Spec_Ingress : list string;
  Spec_Egress : list string;
  Spec_PublicKey : string;
  Status_Gateway : string
}.

(** Functions of other packages that [LinkFor] and [ParseIPRange] call;
    [None] is their error (or nil) result. *)
Record Externals := mkExternals {
  ParseCIDR : string -> option (net.IP * net.IPNet);  (* net.ParseCIDR *)
  ParseNet : string -> option net.IPNet;              (* tcp.ParseNet *)
  ParseIP : string -> option net.IP;                  (* net.ParseIP *)
  ParseInt : string -> option Z;                      (* strconv.ParseInt(s, 10, 32) *)
  ParseKey : string -> option (list Z);               (* wgtypes.ParseKey *)
  Empty : string -> bool                              (* utils.Empty *)
}.

(** [strings.Split(s, ":")]: never empty. *)
Fixpoint Split (s : string) : list string :=
  match s with
  | EmptyString => [EmptyString]
  | String c s' =>
      if Ascii.eqb c ":"%char then EmptyString :: Split s'
      else match Split s' with
           | p :: ps => String c p :: ps
           | [] => [String c EmptyString]
           end
  end.

Record Links := mkLinks {
  defaultport : Z;
  links : gmap string Link;
  endpoints : gmap string Link;
  clusteraddr : gmap (list Z) Link   (* keyed by ClusterAddress.IP.String() *)
}.

Definition NewLinks (defaultport : Z) : Links :=
  mkLinks defaultport ∅ ∅ ∅.

Section WithExternals.

Variable ext : Externals.

(** The loop of [ParseIPRange] over the entries, on [r = &IPRange{}]. *)
Fixpoint ParseIPRange_loop (r : IPRange) (list : list string) : error + IPRange :=
  match list with
  | [] => inr r
  | c :: rest =>
      let '(denied, c) :=
        match c with
        | String "!"%char c' => (true, c')
        | _ => (false, c)
        end in
      match ParseNet ext c with
      | None => inl (ErrInvalidCIDR c)
      | Some cidr =>
          ParseIPRange_loop
            (if denied : bool
             then mkIPRange (Allowed r) (tcp.Add (Denied r) [cidr])
             else mkIPRange (tcp.Add (Allowed r) [cidr]) (Denied r))
            rest
      end
  end.

Definition ParseIPRange (list : list string) : error + option IPRange :=
  match list with
  | [] => inr None
  | _ => match ParseIPRange_loop (mkIPRange None None) list with
         | inl e => inl e
         | inr r => inr (Some r)
         end
  end.

(** The loop of [LinkFor] over [link.Spec.Egress]; [None] is a parse
    error. *)
Fixpoint egress_loop (egress : tcp.CIDRList) (l : list string) : option tcp.CIDRList :=
  match l with
  | [] => Some egress
  | c :: rest =>
      match ParseNet ext c with
      | None => None
      | Some cidr => egress_loop (tcp.Add egress [cidr]) rest
      end
  end.

Definition LinkFor (this : Links) (link : KubeLink) : error + Link :=
  match
    (if negb (Empty ext (Spec_CIDR link)) then
       match ParseCIDR ext (Spec_CIDR link) with
       | None => inl (ErrInvalidRoutingCIDR (Spec_CIDR link))
       | Some (_, cidr) => inr (Some cidr, tcp.Add None [cidr])
       end
     else inr (None, None))
  with
  | inl e => inl e
  | inr (serviceCIDR, egress) =>
  match egress_loop egress (Spec_Egress link) with
  | None => inl (ErrInvalidRoutingCIDR (Spec_CIDR link))
  | Some egress =>
  match ParseIPRange (Spec_Ingress link) with
  | inl e => inl (ErrInvalidClusterIngress e)
  | inr ingress =>
  match ParseCIDR ext (Spec_ClusterAddress link) with
  | None => inl (ErrInvalidClusterAddress (Spec_ClusterAddress link))
  | Some (ip, ccidr) =>
  let ccidr := net.mkIPNet ip (net.IPNet_Mask ccidr) in
  if String.eqb (Spec_Endpoint link) "" then inl ErrNoEndpoint
  else if String.eqb (Status_Gateway link) "" then inl ErrNoGateway
  else
  match ParseIP ext (Status_Gateway link) with
  | None => inl (ErrInvalidGateway (Status_Gateway link))
  | Some gateway =>
  let endpoint := Spec_Endpoint link in
  let parts := Split endpoint in
  let port := defaultport this in
  match
    (if negb (String.length endpoint =? 0)%nat && negb (String.eqb endpoint "none") then
       if (length parts =? 1)%nat
       then inr (String.app endpoint (String.app ":" (pretty port)), port)
       else match ParseInt ext (parts !!! 1%nat) with
            | None => inl (ErrInvalidGatewayPort (parts !!! 1%nat))
            | Some i => inr (endpoint, i)
            end
     else inr (endpoint, port))
  with
  | inl e => inl e
  | inr (endpoint, port) =>
  match
    (if negb (Empty ext (Spec_PublicKey link)) then
       match ParseKey ext (Spec_PublicKey link) with
       | None => inl (ErrInvalidPublicKey (Spec_PublicKey link))
       | Some key => inr (Some key)
       end
     else inr None)
  with
  | inl e => inl e
  | inr publicKey =>
      inr (mkLink (kl_Name link) serviceCIDR egress ingress ccidr gateway
                  (parts !!! 0%nat) port endpoint publicKey
                  (mkLinkForeignData false (mkLinkAccessInfo "" "")
                                     (mkLinkDNSInfo "" [])))
  end end end end end end end.

Definition replaceLink (this : Links) (link : Link) : Links * Link :=
  (mkLinks (defaultport this)
           (<[Name link := link]> (links this))
           (<[Host link := link]> (endpoints this))
           (<[net.IP_String (net.IPNet_IP (ClusterAddress link)) := link]>
              (clusteraddr this)),
   link).

Definition ReplaceLink := replaceLink.

Definition updateLink (this : Links) (klink : KubeLink) : Links * (error + Link) :=
  match LinkFor this klink with
  | inl err => (this, inl err)
  | inr l =>
      match links this !! kl_Name klink with
      | Some old =>
          let endpoints' :=
            if negb (String.eqb (Host old) (Host l))
            then delete (Host old) (endpoints this) else endpoints this in
          let clusteraddr' :=
            if negb (net.Equal (net.IPNet_IP (ClusterAddress old))
                               (net.IPNet_IP (ClusterAddress l)))
            then delete (net.IP_String (net.IPNet_IP (ClusterAddress old)))
                        (clusteraddr this)
            else clusteraddr this in
          let l := with_ForeignData l (ForeignData old) in
          let '(this', l) :=
            replaceLink (mkLinks (defaultport this) (links this)
                                 endpoints' clusteraddr') l in
          (this', inr l)
      | None =>
          let '(this', l) := replaceLink this l in (this', inr l)
      end
  end.

Definition UpdateLink := updateLink.

End WithExternals.

Definition GetLink (this : Links) (name : string) : option Link :=
  links this !! name.

Definition GetLinkForClusterAddress (this : Links) (ip : net.IP) : option Link :=
  clusteraddr this !! net.IP_String ip.

Definition GetLinkForEndpoint (this : Links) (dnsname : string) : option Link :=
  endpoints this !! dnsname.

Definition RemoveLink (this : Links) (name : string) : Links :=
  match links this !! name with
  | Some l =>
      mkLinks (defaultport this)
              (delete name (links this))
              (delete (Host l) (endpoints this))
              (delete (net.IP_String (net.IPNet_IP (ClusterAddress l)))
                      (clusteraddr this))
  | None => this
  end.

Definition IsWireguard (this : Link) : bool :=
  bool_decide (PublicKey this ≠ None) && negb (String.eqb (Endpoint this) "none").

(** [for _, l := range this.links]: Go visits the entries of a map in an
    order it does not specify. [order] is the order of one run: the
    stored links, each once. *)
Definition visits (this : Links) (order : list Link) : Prop :=
  order ≡ₚ (map_to_list (links this)).*2.

(** [HasWireguard()], for the links in the order visited. *)
Definition HasWireguard (order : list Link) : bool :=
  existsb IsWireguard order.

(** [GetLinkForIP(ip)], for the links in the order visited. *)
Definition GetLinkForIP (this : Links) (order : list Link) (ip : net.IP)
    : option Link :=
  match clusteraddr this !! net.IP_String ip with
  | Some l => Some l
  | None => List.find (fun l => tcp.Contains (Egress l) ip) order
  end.

(** [GetMeshGatewaysFor(ip)], for the links in the order visited: the
    network of the last link whose cluster address range contains [ip],
    and the gateways of all of them. *)
Definition GetMeshGatewaysFor (order : list Link) (ip : net.IP)
    : option net.IPNet * list net.IP :=
  foldl (fun '(cidr, gateways) l =>
           if net.Contains (ClusterAddress l) ip
           then (Some (tcp.CIDRNet (ClusterAddress l)), gateways ++ [Gateway l])
           else (cidr, gateways))
        (None, []) order.

Definition LinkInfoUpdated (this : Links) (name : string)
    (access : option LinkAccessInfo) (dns : option LinkDNSInfo)
    : Links * option Link :=
  match links this !! name with
  | Some old =>
      let new := old in
      let '(new, access) :=
        match access with
        | Some a =>
            if LinkAccessInfo_Equal (AccessInfo (ForeignData old)) a
            then (with_UpdatePending new false, Some a) else (new, None)
        | None => (new, None)
        end in
      let '(new, dns) :=
        match dns with
        | Some d =>
            if LinkDNSInfo_Equal (DNSInfo (ForeignData old)) d
            then (with_UpdatePending new false, Some d) else (new, None)
        | None => (new, None)
        end in
      if bool_decide (access ≠ None) || bool_decide (dns ≠ None)
      then let '(this', l) := replaceLink this new in (this', Some l)
      else (this, Some old)
  | None => (this, None)
  end.

Definition UpdateLinkInfo (this : Links) (name : string)
    (access : option LinkAccessInfo) (dns : option LinkDNSInfo) (pending : bool)
    : Links * option Link * bool :=
  match links this !! name with
  | Some old =>
      let new := old in
      let '(new, access) :=
        match access with
        | Some a =>
            if negb (LinkAccessInfo_Equal (AccessInfo (ForeignData old)) a) then
              if negb (UpdatePending (ForeignData old)) || pending
              then (with_UpdatePending (with_LinkAccessInfo new a) pending, Some a)
              else (new, None)
            else (new, None)
        | None => (new, None)
        end in
      let '(new, dns) :=
        match dns with
        | Some d =>
            if negb (LinkDNSInfo_Equal (DNSInfo (ForeignData old)) d) then
              if negb (UpdatePending (ForeignData old)) || pending
              then (with_UpdatePending (with_LinkDNSInfo new d) pending, Some d)
              else (new, None)
            else (new, None)
        | None => (new, None)
        end in
      if bool_decide (access ≠ None) || bool_decide (dns ≠ None)
      then let '(this', l) := replaceLink this new in (this', Some l, true)
      else (this, Some old, false)
  | None => (this, None, false)
  end.

End kubelink.

(** ** Runs of code that can panic

    [Panic] is a Go run-time panic; [NoFuel] is a loop of the model cut
    short, which the theorems below show never happens for the fuel the
    entry points pass. *)

Inductive exec (A : Type) : Type :=
  | Val (a : A)
  | Panic
  | NoFuel.
Arguments Val {A} a.
Arguments Panic {A}.
Arguments NoFuel {A}.

#[global] Instance exec_ret : MRet exec := fun A a => Val a.
#[global] Instance exec_bind : MBind exec := fun A B f m =>
  match m with
  | Val a => f a
  | Panic => Panic
  | NoFuel => NoFuel
  end.

(** ** [pkg/controllers/endpoints.go] *)

Module broker.

Definition BufferSize : Z := 17000.

Definition PACKET_TYPE_DATA : Z := 0.
Definition PACKET_TYPE_HELLO : Z := 1.

(** [ipv4.Version] *)
Definition ipv4_Version : Z := 4.

(** A [net.Conn] as a pair of byte streams. [rd] holds the bytes the
    peer has sent and that are not read yet, after which the peer has
    closed its side; [wr] holds the bytes written so far. A [Read]
    delivers at most [S rd_chunk] bytes and a [Write] takes at most
    [S wr_chunk], so that short reads and writes are part of the model.
    [Close] follows Go's TCP and TLS connections: the first call
    succeeds, later ones fail with "use of closed network connection". *)
Record Conn := mkConn {
  rd : list Z;
  rd_chunk : nat;
  wr : list Z;
  wr_chunk : nat;
  closed : bool
}.

Definition with_rd (c : Conn) (l : list Z) : Conn :=
  mkConn l (rd_chunk c) (wr c) (wr_chunk c) (closed c).

Definition with_wr (c : Conn) (l : list Z) : Conn :=
  mkConn (rd c) (rd_chunk c) l (wr_chunk c) (closed c).

(** [r.Read(p)] with [len(p) = k]. *)
Definition Conn_Read (c : Conn) (k : nat) : error + Conn * list Z :=
  if closed c then inl ErrClosed
  else match rd c with
       | [] => inl EOF
       | _ => let n := Nat.min k (S (rd_chunk c)) in
              inr (with_rd c (drop n (rd c)), take n (rd c))
       end.

(** [w.Write(p)]: the connection and the number of bytes taken. *)
Definition Conn_Write (c : Conn) (p : list Z) : error + Conn * nat :=
  if closed c then inl ErrClosed
  else let n := Nat.min (length p) (S (wr_chunk c)) in
       inr (with_wr c (wr c ++ take n p), n).

Definition Conn_Close (c : Conn) : Conn * option error :=
  if closed c then (c, Some ErrClosed)
  else (mkConn (rd c) (rd_chunk c) (wr c) (wr_chunk c) true, None).

(** [*TunnelConnection]: the fields the modelled methods use. *)
Record TunnelConnection := mkTunnelConnection {
  conn : Conn;
  clusterCIDR : option net.IPNet
}.

Definition Close (this : TunnelConnection) : TunnelConnection * option error :=
  let '(c, e) := Conn_Close (conn this) in
  (mkTunnelConnection c (clusterCIDR this), e).

(** [n] calls of [Close] in a row, with the error each returned. *)
Fixpoint Close_n (n : nat) (this : TunnelConnection)
    : TunnelConnection * list (option error) :=
  match n with
  | O => (this, [])
  | S n' => let '(this, e) := Close this in
            let '(this, es) := Close_n n' this in (this, e :: es)
  end.

(** [read(r, data)]: the loop [for start < len(data)], filling [data]
    in place. [n] is [len(data)] and [got] is [data[:start]], the part of
    the buffer filled so far; the rest of the buffer keeps its content. *)
Fixpoint read_loop (fuel : nat) (r : Conn) (n : nat) (got : list Z)
    : exec (Conn * list Z * option error) :=
  if (length got <? n)%nat then
    match fuel with
    | O => NoFuel
    | S fuel =>
        match Conn_Read r (n - length got) with
        | inl err => Val (r, got, Some err)
        | inr (r, chunk) => read_loop fuel r n (got ++ chunk)
        end
    end
  else Val (r, got, None).

(** Every [Read] that returns no error delivers at least one byte, so
    [len(data)] turns of the loop are enough. *)
Definition read (r : Conn) (data : list Z) : exec (Conn * list Z * option error) :=
  '(r, got, err) ← read_loop (length data) r (length data) [];
  Val (r, got ++ drop (length got) data, err).

(** [write(w, data)]: the loop [for start < len(data)]. *)
Fixpoint write_loop (fuel : nat) (w : Conn) (data : list Z) (start : nat)
    : exec (Conn * option error) :=
  if (start <? length data)%nat then
    match fuel with
    | O => NoFuel
    | S fuel =>
        match Conn_Write w (drop start data) with
        | inl err => Val (w, Some err)
        | inr (w, n) => write_loop fuel w data (start + n)
        end
    end
  else Val (w, None).

Definition write (w : Conn) (data : list Z) : exec (Conn * option error) :=
  write_loop (length data) w data 0.

(** [ReadPacket(data)]: the connection, the buffer [data] after the
    call and the results [(n, ty, err)]. *)
Definition ReadPacket (c : Conn) (data : list Z)
    : exec (Conn * list Z * (Z * Z * option error)) :=
  '(c, lbuf, err) ← read c [0; 0; 0];
  match err with
  | Some e => Val (c, data, (0, 0, Some e))
  | None =>
      match tunnel.NtoHs (take 2 lbuf) with
      | None => Panic
      | Some length_ =>
          if length_ >? Z.of_nat (length data)
          then Val (c, data, (0, 0, Some (ErrBufferTooSmall (Z.of_nat (length data)) length_)))
          else
            '(c, part, err) ← read c (take (Z.to_nat length_) data);
            Val (c, part ++ drop (Z.to_nat length_) data, (length_, lbuf !!! 2%nat, err))
      end
  end.

(** [WritePacket(ty, data)]; [uint16(len(data))] is the length modulo
    2^16. *)
Definition WritePacket (c : Conn) (ty : Z) (data : list Z)
    : exec (Conn * option error) :=
  if Z.of_nat (length data) >? 65535
  then Val (c, Some (ErrPacketTooLarge (Z.of_nat (length data))))
  else
    let lbuf := tunnel.HtoNs (Z.of_nat (length data) mod 65536) in
    '(c, err) ← write c (lbuf ++ [ty]);
    match err with
    | Some e => Val (c, Some e)
    | None => write c data
    end.

(** Modelled from the spec: the [Mux] type, whose declaration is not
    among the sources. "Mesh identity (local): clusterAddr = own mesh
    CIDR+IP; port advertised to peers; local = list of service CIDRs";
    [links] is the link registry the read loop consults. *)
Record Mux := mkMux {
  clusterAddr : net.IPNet;
  port : Z;
  local : tcp.CIDRList;
  links : kubelink.Links
}.

(** The HELLO record and its codec, declared in a file that is not
    among the sources: taken as a parameter. *)
Record HelloCodec := mkHelloCodec {
  ConnectionHello : Type;
  GetClusterCIDR : ConnectionHello -> net.IPNet;
  createHello : Mux -> ConnectionHello;
  Data : ConnectionHello -> list Z;
  headerLen : nat;                      (* len(ConnectionHelloHeader) *)
  ParseConnectionHello : Mux -> list Z -> list Z -> error + ConnectionHello
}.

Section Handshake.

Variable codec : HelloCodec.
Variable mux : Mux.

Definition writeHello (c : Conn) (hello : ConnectionHello codec)
    : exec (Conn * option error) :=
  WritePacket c PACKET_TYPE_HELLO (Data codec hello).

Definition parseHelloPacket (data : list Z) : error + ConnectionHello codec :=
  if (length data <? headerLen codec)%nat
  then inl (ErrHelloTooShort (Z.of_nat (length data)) (Z.of_nat (headerLen codec)))
  else ParseConnectionHello codec mux
         (take (headerLen codec) data) (drop (headerLen codec) data).

Definition readHello (c : Conn) : exec (Conn * (error + ConnectionHello codec)) :=
  '(c, buffer, (n, ty, err)) ← ReadPacket c (replicate (Z.to_nat BufferSize) 0);
  match err with
  | Some e => Val (c, inl e)
  | None =>
      if negb (ty =? PACKET_TYPE_HELLO) then Val (c, inl (ErrUnexpectedPacket ty))
      else Val (c, parseHelloPacket (take (Z.to_nat n) buffer))
  end.

(** [handshake()]: the hello is written by a goroutine while the
    peer's hello is read; the two use the two directions of the
    connection, so the model runs one after the other. *)
Definition handshake (c : Conn) : exec (Conn * (error + ConnectionHello codec)) :=
  let local := createHello codec mux in
  '(c, werr) ← writeHello c local;
  '(c, r) ← readHello c;
  match r with
  | inl rerr => Val (c, inl (ErrHandshake rerr))
  | inr remote =>
      match werr with
      | Some werr => Val (c, inl (ErrHandshake werr))
      | None => Val (c, inr remote)
      end
  end.

(** [NewTunnelConnection(mux, conn, link)]: the connection after the
    handshake and the results [(t, hello, err)]. [handshake] returns a
    hello whenever it returns no error, so the test [hello != nil]
    holds; the asynchronous call of [mux.connectionHandler] does not
    bear on the results and is left out. *)
Definition NewTunnelConnection (c : Conn) (link : option kubelink.Link)
    : exec (Conn * (option TunnelConnection * option (ConnectionHello codec) * option error)) :=
  let clusterCIDR := kubelink.ClusterAddress <$> link in
  '(c, r) ← handshake c;
  let t := mkTunnelConnection c clusterCIDR in
  match r with
  | inl err => Val (c, (None, None, Some err))
  | inr hello =>
      let cidr := GetClusterCIDR codec hello in
      let ranges :=
        if negb (net.Contains cidr (net.IPNet_IP (clusterAddr mux)))
        then Val (c, (None, Some hello,
                      Some (ErrMismatchOwn (net.IPNet_IP (clusterAddr mux)) cidr)))
        else if negb (net.Contains (clusterAddr mux) (net.IPNet_IP cidr))
        then Val (c, (None, Some hello,
                      Some (ErrMismatchRemote (net.IPNet_IP cidr) (clusterAddr mux))))
        else Val (c, (Some t, Some hello, None)) in
      if negb (net.Equal net.IPv6zero (net.IPNet_IP cidr)) then
        match link with
        | Some link =>
            if negb (net.Equal (net.IPNet_IP (kubelink.ClusterAddress link))
                               (net.IPNet_IP cidr))
            then Val (c, (None, Some hello,
                          Some (ErrMismatchExpected (net.IPNet_IP cidr)
                                  (net.IPNet_IP (kubelink.ClusterAddress link)))))
            else ranges
        | None => ranges
        end
      else Val (c, (Some t, Some hello, None))
  end.

End Handshake.

Section Serve.

(** [ipv4.ParseHeader] of golang.org/x/net: source and destination
    of the packet, [None] for its error. *)
Variable ParseHeader : list Z -> option (net.IP * net.IP).

(** The tun device of the mux: any state with a [Write] returning
    the number of bytes written and an error. *)
Variable Tun : Type.
Variable tun_Write : Tun -> list Z -> Tun * Z * option error.

Variable mux : Mux.

(** The checks of [serve] on a DATA packet: [true] when the loop goes
    on to write the packet to the tun device, [false] when it drops
    the packet ([continue]). *)
Definition accepts (packet : list Z) : bool :=
  let vers := Z.shiftr (packet !!! 0%nat) 4 in
  if vers =? ipv4_Version then
    match ParseHeader packet with
    | None => false
    | Some (Src, Dst) =>
        if net.Contains (clusterAddr mux) Src then
          match kubelink.GetLinkForClusterAddress (links mux) Src with
          | None => false
          | Some l =>
              let '(granted, set) := kubelink.AllowIngress l Dst in
              if negb granted then false
              else if negb set && tcp.IsSet (local mux)
                      && negb (tcp.Contains (local mux) Dst)
              then false
              else true
          end
        else if negb (net.Equal Dst (net.IPNet_IP (clusterAddr mux))) then false
        else true
    end
  else true.

(** [serve()]: the loop returns the error that ends it. *)
Fixpoint serve_loop (fuel : nat) (c : Conn) (buffer : list Z) (tun : Tun)
    : exec (Conn * Tun * error) :=
  match fuel with
  | O => NoFuel
  | S fuel =>
      '(c, buffer, (n, ty, err)) ← ReadPacket c buffer;
      if (n <? 0) || bool_decide (err ≠ None) then
        Val (c, tun, if n <=? 0 then EOF else default EOF err)
      else if n =? 0 then serve_loop fuel c buffer tun
      else
        let packet := take (Z.to_nat n) buffer in
        if negb (ty =? PACKET_TYPE_DATA) then serve_loop fuel c buffer tun
        else if negb (accepts packet) then serve_loop fuel c buffer tun
        else
          let '(tun, o, err) := tun_Write tun (take (Z.to_nat n) buffer) in
          match err with
          | Some e => Val (c, tun, e)
          | None => if negb (n =? o) then Panic
                    else serve_loop fuel c buffer tun
          end
  end.

(** Every turn of the loop that does not end it takes at least the
    three header bytes off the stream, and the turn that finds the
    stream empty ends it. *)
Definition serve (c : Conn) (tun : Tun) : exec (Conn * Tun * error) :=
  serve_loop (S (length (rd c))) c (replicate (Z.to_nat BufferSize) 0) tun.

End Serve.

(** Who [notify] has called, in the order of the calls: the mux
    ([mux.Notify]) and the registered fail handlers, each with the error. *)
Inductive notified (Handler : Type) :=
  | NotifiedMux (err : error)
  | NotifiedHandler (h : Handler) (err : error).
Arguments NotifiedMux {Handler} err.
Arguments NotifiedHandler {Handler} h err.

(** [RegisterStateHandler(handlers...)] *)
Definition RegisterStateHandler {Handler : Type}
    (registered handlers : list Handler) : list Handler :=
  registered ++ handlers.

(** [notify(err)]: nothing for [io.EOF]; else the mux, then the handlers
    in the order registered. *)
Definition notify {Handler : Type} (handlers : list Handler) (err : error)
    : list (notified Handler) :=
  match err with
  | EOF => []
  | _ => NotifiedMux err :: map (fun h => NotifiedHandler h err) handlers
  end.

Section ServeNotify.

Variable ParseHeader : list Z -> option (net.IP * net.IP).
Variable Tun : Type.
Variable tun_Write : Tun -> list Z -> Tun * Z * option error.
Variable mux : Mux.
Variable Handler : Type.

(** [Serve()]: the read loop, then [notify] with its error. *)
Definition Serve (c : Conn) (tun : Tun) (handlers : list Handler)
    : exec (Conn * Tun * error * list (notified Handler)) :=
  '(c, tun, err) ← serve ParseHeader Tun tun_Write mux c tun;
  Val (c, tun, err, notify handlers err).

End ServeNotify.

(** [Config.MatchLink(obj)] of the broker configuration: [ClusterCIDR]
    is the local mesh CIDR, [Responsible] the set of served link names. *)
Definition MatchLink (ext : kubelink.Externals) (ClusterCIDR : net.IPNet)
    (Responsible : gset string) (obj : kubelink.KubeLink) : bool * option net.IP :=
  match kubelink.ParseCIDR ext (kubelink.Spec_ClusterAddress obj) with
  | None => (false, None)
  | Some (ip, _) =>
      if negb (bool_decide ("all" ∈ Responsible))
         && negb (bool_decide (kubelink.kl_Name obj ∈ Responsible))
      then (false, None)
      else (net.Contains ClusterCIDR ip, Some ip)
  end.

(** The address checks of [NewTunnelConnection] on the cluster CIDR of
    the remote hello, one by one. *)
Definition expected_address (link : option kubelink.Link) (cidr : net.IPNet) : bool :=
  match link with
  | Some link => net.Equal (net.IPNet_IP (kubelink.ClusterAddress link))
                           (net.IPNet_IP cidr)
  | None => true
  end.

Definition foreign_range_has_own (mux : Mux) (cidr : net.IPNet) : bool :=
  net.Contains cidr (net.IPNet_IP (clusterAddr mux)).

Definition local_range_has_remote (mux : Mux) (cidr : net.IPNet) : bool :=
  net.Contains (clusterAddr mux) (net.IPNet_IP cidr).

(** The anonymous peer: its hello carries the all-zero address. *)
Definition anonymous (cidr : net.IPNet) : bool :=
  net.Equal net.IPv6zero (net.IPNet_IP cidr).

(** One frame on the wire. *)
Definition frame (ty : Z) (payload : list Z) : list Z :=
  tunnel.HtoNs (Z.of_nat (length payload)) ++ [ty] ++ payload.

(** A tun device that takes every packet whole and keeps them in the
    order written. *)
Definition log_Write (tun : list (list Z)) (p : list Z)
    : list (list Z) * Z * option error :=
  (tun ++ [p], Z.of_nat (length p), None).

End broker.

(** ** Vocabulary of the statements *)

Module registry.
Import kubelink.

(** The operations that change the registry. *)
Inductive op :=
  | OpUpdateLink (klink : KubeLink)
  | OpReplaceLink (link : Link)
  | OpRemoveLink (name : string)
  | OpUpdateLinkInfo (name : string) (access : option LinkAccessInfo)
                     (dns : option LinkDNSInfo) (pending : bool)
  | OpLinkInfoUpdated (name : string) (access : option LinkAccessInfo)
                      (dns : option LinkDNSInfo).

Definition apply (ext : Externals) (this : Links) (o : op) : Links :=
  match o with
  | OpUpdateLink klink => (UpdateLink ext this klink).1
  | OpReplaceLink link => (ReplaceLink this link).1
  | OpRemoveLink name => RemoveLink this name
  | OpUpdateLinkInfo name access dns pending =>
      (UpdateLinkInfo this name access dns pending).1.1
  | OpLinkInfoUpdated name access dns => (LinkInfoUpdated this name access dns).1
  end.

Definition run (ext : Externals) (this : Links) (ops : list op) : Links :=
  foldl (apply ext) this ops.

(** Every index files a link under the link's own key. *)
Definition keyed (this : Links) : Prop :=
  (∀ n l, links this !! n = Some l → Name l = n)
  ∧ (∀ h l, endpoints this !! h = Some l → Host l = h)
  ∧ (∀ k l, clusteraddr this !! k = Some l →
            net.IP_String (net.IPNet_IP (ClusterAddress l)) = k).

(** Uniqueness as the specification words it: distinct stored links
    differ in cluster address and in endpoint host. *)
Definition unique (this : Links) : Prop :=
  ∀ n n' L L', n ≠ n' → links this !! n = Some L → links this !! n' = Some L' →
    net.Equal (net.IPNet_IP (ClusterAddress L)) (net.IPNet_IP (ClusterAddress L')) = false
    ∧ Host L ≠ Host L'.

(** The value a call of [UpdateLinkInfo] brings when it differs from the
    stored one, and whether a call of [LinkInfoUpdated] echoes the stored
    value; [eq] is the [Equal] method of the info. *)
Definition differing {A : Type} (eq : A → A → bool) (stored : A) (given : option A)
    : option A :=
  match given with
  | Some a => if eq stored a then None else Some a
  | None => None
  end.

Definition echoed {A : Type} (eq : A → A → bool) (stored : A) (given : option A)
    : bool :=
  match given with
  | Some a => eq stored a
  | None => false
  end.

End registry.

Module frames.
Import broker.

(** A stream of whole frames. *)
Definition encode (fs : list (Z * list Z)) : list Z :=
  concat (map (fun f => frame f.1 f.2) fs).

(** A frame whose payload the read buffer can hold. *)
Definition fits (f : Z * list Z) : Prop :=
  Z.of_nat (length f.2) <= BufferSize.

Section Delivery.

Variable ParseHeader : list Z -> option (net.IP * net.IP).
Variable Tun : Type.
Variable tun_Write : Tun -> list Z -> Tun * Z * option error.
Variable mux : Mux.

(** The frames whose payload [serve] hands to the tun device. *)
Definition deliverable (f : Z * list Z) : bool :=
  (f.1 =? PACKET_TYPE_DATA) && negb (length f.2 =? 0)%nat
  && accepts ParseHeader mux f.2.

(** Packets written to the tun device one after the other, up to the
    first failed write; when all are written the stream has ended. *)
Fixpoint write_all (tun : Tun) (ps : list (list Z)) : exec (Tun * error) :=
  match ps with
  | [] => Val (tun, EOF)
  | p :: ps =>
      let '(tun, o, err) := tun_Write tun p in
      match err with
      | Some e => Val (tun, e)
      | None => if negb (Z.of_nat (length p) =? o) then Panic
                else write_all tun ps
      end
  end.

(** What [serve] leaves on the tun device and returns. *)
Definition outcome (r : exec (Conn * Tun * error)) : exec (Tun * error) :=
  '(_, tun, e) ← r; Val (tun, e).

End Delivery.

End frames.

(** ** [GetEndpoints] (package [controllers]) *)

Module controllers.

(** Modelled from the spec: an endpoint subset of the Kubernetes API
    ([core.EndpointSubset]), which no source declares: the [IP] strings of
    its addresses and the names of its ports, the two fields
    [GetEndpoints] reads. *)
Record EndpointSubset := mkEndpointSubset {
  Addresses : list string;
  Ports : list string
}.

(** The loop over [sub.Ports]: the first port, replaced by every later
    port named "wireguard" or "bridge". *)
Fixpoint select_port (port : option string) (ports : list string) : option string :=
  match ports with
  | [] => port
  | p :: ports' =>
      select_port
        (if bool_decide (port = None) || String.eqb p "wireguard" || String.eqb p "bridge"
         then Some p else port)
        ports'
  end.

(** [GetEndpoints(logger, obj)] on the subsets of the object; [ParseIP]
    is [net.ParseIP]. *)
Definition GetEndpoints (ParseIP : string -> option net.IP)
    (subsets : list EndpointSubset) : list net.IP :=
  flat_map (fun sub =>
              match select_port None (Ports sub) with
              | Some _ => omap ParseIP (Addresses sub)
              | None => []
              end)
           subsets.

End controllers.

(** ** More vocabulary *)

Module more.
Import broker.

(** A byte. *)
Definition byte (b : Z) : Prop := 0 <= b < 256.

(** The number a byte string spells, most significant byte first. *)
Definition be_value (l : list Z) : Z :=
  foldl (fun acc b => acc * 256 + b) 0 l.

(** The number a byte string spells, least significant byte first: the
    order in which [SubIP] walks the address. *)
Fixpoint le_value (l : list Z) : Z :=
  match l with
  | [] => 0
  | b :: l' => b + 256 * le_value l'
  end.

(** A CIDR list that is set exactly when it has an element: a list that
    only [Add] with a network has touched. *)
Definition settled (l : tcp.CIDRList) : Prop :=
  tcp.IsSet l = negb (bool_decide (tcp.elems l = [])).

(** A stream on which the next [ReadPacket] into the read buffer fails:
    it ends inside the three header bytes, or the header declares more
    bytes than follow it or than the buffer holds. *)
Definition stops (stream : list Z) : bool :=
  match stream with
  | b0 :: b1 :: _ :: rest =>
      match tunnel.NtoHs [b0; b1] with
      | Some n => (Z.of_nat (length rest) <? n) || (BufferSize <? n)
      | None => false
      end
  | _ => true
  end.

(** An IPv4 network: a 4-byte mask on an address that has a 4-byte
    form. *)
Definition IPv4net (n : net.IPNet) : Prop :=
  length (net.IPNet_Mask n) = 4%nat ∧ length (net.To4 (net.IPNet_IP n)) = 4%nat.

(** An ingress entry as [ParseIPRange] reads it: whether it starts with
    "!", and the text to parse. *)
Definition entry (c : string) : bool * string :=
  match c with
  | String "!"%char c' => (true, c')
  | _ => (false, c)
  end.

Definition parsed (ext : kubelink.Externals) (denied : bool) (c : string)
    : option net.IPNet :=
  if bool_decide ((entry c).1 = denied) then kubelink.ParseNet ext (entry c).2
  else None.

Fixpoint has_colon (s : string) : bool :=
  match s with
  | EmptyString => false
  | String c s' => Ascii.eqb c ":"%char || has_colon s'
  end.

(** Frames written one after the other, up to the first error. *)
Fixpoint WritePackets (c : Conn) (fs : list (Z * list Z)) : exec (Conn * option error) :=
  match fs with
  | [] => Val (c, None)
  | f :: fs =>
      '(c, err) ← WritePacket c f.1 f.2;
      match err with
      | Some e => Val (c, Some e)
      | None => WritePackets c fs
      end
  end.

(** [k] frames read one after the other into the same buffer, up to the
    first error: type and payload of each. *)
Fixpoint ReadPackets (k : nat) (c : Conn) (buffer : list Z)
    : exec (Conn * list (Z * list Z) * option error) :=
  match k with
  | O => Val (c, [], None)
  | S k =>
      '(c, buffer, (n, ty, err)) ← ReadPacket c buffer;
      match err with
      | Some e => Val (c, [], Some e)
      | None =>
          '(c, fs, err) ← ReadPackets k c buffer;
          Val (c, (ty, take (Z.to_nat n) buffer) :: fs, err)
      end
  end.

(** The registry operations that store links built by [LinkFor] or
    copies of stored links. *)
Definition declared (o : registry.op) : Prop :=
  match o with
  | registry.OpReplaceLink _ => False
  | _ => True
  end.

(** No index entry is stale: a link found through the endpoint or the
    cluster-address index is the snapshot stored under its name. *)
Definition current (this : kubelink.Links) : Prop :=
  (∀ h l, kubelink.endpoints this !! h = Some l →
          kubelink.links this !! kubelink.Name l = Some l)
  ∧ (∀ k l, kubelink.clusteraddr this !! k = Some l →
            kubelink.links this !! kubelink.Name l = Some l).

End more.

(** Concrete parsers, hello codec and headers for the scenarios. *)
Module sample.

Definition net24 (a b c d : Z) : net.IP * net.IPNet :=
  (net.IPv4 a b c d, net.mkIPNet [a; b; c; 0] [255; 255; 255; 0]).

Definition ParseCIDR (s : string) : option (net.IP * net.IPNet) :=
  if String.eqb s "192.168.0.12/24" then Some (net24 192 168 0 12)
  else if String.eqb s "192.168.0.13/24" then Some (net24 192 168 0 13)
  else if String.eqb s "100.64.16.0/20"
  then Some (net.IPv4 100 64 16 0, net.mkIPNet [100; 64; 16; 0] [255; 255; 240; 0])
  else None.

Definition ParseNet (s : string) : option net.IPNet :=
  if String.eqb s "100.64.16.0/28"
  then Some (net.mkIPNet [100; 64; 16; 0] [255; 255; 255; 240])
  else if String.eqb s "100.64.16.5/32"
  then Some (net.mkIPNet [100; 64; 16; 5] [255; 255; 255; 255])
  else None.

Definition ParseIP (s : string) : option net.IP :=
  if String.eqb s "10.250.0.1" then Some (net.IPv4 10 250 0 1) else None.

Definition ParseInt (s : string) : option Z :=
  if String.eqb s "8088" then Some 8088 else None.

Definition ext : kubelink.Externals :=
  kubelink.mkExternals ParseCIDR ParseNet ParseIP ParseInt
                       (fun _ => None) (fun s => String.eqb s "").

Definition klink (name address endpoint : string) (ingress : list string)
    : kubelink.KubeLink :=
  kubelink.mkKubeLink name "" address endpoint ingress [] "" "10.250.0.1".

(** The link of scenario S3, a second link with the same cluster
    address and endpoint host, and a changed declaration of the first. *)
Definition link_a : kubelink.KubeLink :=
  klink "a" "192.168.0.12/24" "b.example:8088"
        ["100.64.16.0/28"; "!100.64.16.5/32"].

Definition link_b : kubelink.KubeLink :=
  klink "b" "192.168.0.12/24" "b.example" [].

Definition link_a' : kubelink.KubeLink :=
  klink "a" "192.168.0.13/24" "c.example:8088" [].

Definition one_link : kubelink.Links :=
  registry.run ext (kubelink.NewLinks 80) [registry.OpUpdateLink link_a].

Definition two_links : kubelink.Links :=
  registry.run ext (kubelink.NewLinks 80)
    [registry.OpUpdateLink link_a; registry.OpUpdateLink link_b].

Definition access : kubelink.LinkAccessInfo :=
  kubelink.mkLinkAccessInfo "ca" "token".

Definition dns : kubelink.LinkDNSInfo :=
  kubelink.mkLinkDNSInfo "cluster.local" [100; 64; 16; 10].

(** The registry with link [a] after a staged access advertisement. *)
Definition staged_ops : list registry.op :=
  [registry.OpUpdateLink link_a;
   registry.OpUpdateLinkInfo "a" (Some access) None true].

Definition staged : kubelink.Links :=
  registry.run ext (kubelink.NewLinks 80) staged_ops.

(** A hello that carries the cluster CIDR only: 16 address bytes and
    4 mask bytes. *)
Definition codec : broker.HelloCodec :=
  broker.mkHelloCodec net.IPNet (fun h => h) broker.clusterAddr
    (fun h => net.IPNet_IP h ++ net.IPNet_Mask h) 20
    (fun _ header _ => inr (net.mkIPNet (take 16 header) (drop 16 header))).

(** Source and destination of an IPv4 header, bytes 12..15 and 16..19. *)
Definition ParseHeader (b : list Z) : option (net.IP * net.IP) :=
  if (length b <? 20)%nat then None
  else Some (net.IPv4 (b !!! 12%nat) (b !!! 13%nat) (b !!! 14%nat) (b !!! 15%nat),
             net.IPv4 (b !!! 16%nat) (b !!! 17%nat) (b !!! 18%nat) (b !!! 19%nat)).

Definition mux (addr : net.IPNet) : broker.Mux :=
  broker.mkMux addr 8088 None (kubelink.NewLinks 80).

Definition conn (rd : list Z) : broker.Conn :=
  broker.mkConn rd 4 [] 2 false.

End sample.

(** * Properties *)

(** ** Addresses and masks *)

Section Addresses.
Import net tunnel.

Lemma and_prefix_same_length (ip mask : list Z) :
  length ip = length mask → and_prefix ip mask = Some (zip_with Z.land ip mask).
Proof.
  revert mask. induction ip as [|x ip IH]; intros [|b mask] Hlen;
    simpl in *; try discriminate; [reflexivity|].
  rewrite IH by congruence. reflexivity.
Qed.

Lemma Mask_same_length (ip mask : list Z) :
  length ip = length mask → Mask ip mask = zip_with Z.land ip mask.
Proof.
  intros Hlen.
  assert (((length mask =? 16)%nat && (length ip =? 4)%nat) = false) as E1.
  { rewrite Hlen.
    destruct (Nat.eqb_spec (length mask) 16), (Nat.eqb_spec (length mask) 4);
      simpl; try reflexivity; lia. }
  assert (((length mask =? 4)%nat && (length ip =? 16)%nat) = false) as E2.
  { rewrite Hlen.
    destruct (Nat.eqb_spec (length mask) 16), (Nat.eqb_spec (length mask) 4);
      simpl; try reflexivity; lia. }
  unfold Mask, IPv4len, IPv6len. rewrite E1. simpl. rewrite E2. simpl.
  rewrite Hlen, Nat.eqb_refl. reflexivity.
Qed.

(** A byte with a host bit ([b] is not 255) separates the masked byte
    from the byte with all host bits set. *)
Lemma land_lor_host_bit (x b : Z) :
  0 <= b <= 255 → b ≠ 255 → Z.land x b ≠ Z.lor x (Z.lxor b 255).
Proof.
  intros Hb Hne Heq.
  assert (Hbit : ∃ i, 0 <= i < 8 ∧ Z.testbit b i = false).
  { destruct (Z.testbit b 0) eqn:B0; [|exists 0; split; [lia|done]].
    destruct (Z.testbit b 1) eqn:B1; [|exists 1; split; [lia|done]].
    destruct (Z.testbit b 2) eqn:B2; [|exists 2; split; [lia|done]].
    destruct (Z.testbit b 3) eqn:B3; [|exists 3; split; [lia|done]].
    destruct (Z.testbit b 4) eqn:B4; [|exists 4; split; [lia|done]].
    destruct (Z.testbit b 5) eqn:B5; [|exists 5; split; [lia|done]].
    destruct (Z.testbit b 6) eqn:B6; [|exists 6; split; [lia|done]].
    destruct (Z.testbit b 7) eqn:B7; [|exists 7; split; [lia|done]].
    exfalso. apply Hne. apply Z.bits_inj'. intros n Hn.
    destruct (Z_lt_dec n 8) as [Hlt|Hge].
    - assert (n = 0 ∨ n = 1 ∨ n = 2 ∨ n = 3 ∨ n = 4 ∨ n = 5 ∨ n = 6 ∨ n = 7)
        as Hc by lia.
      destruct Hc as [->|[->|[->|[->|[->|[->|[->| ->]]]]]]];
        [rewrite B0|rewrite B1|rewrite B2|rewrite B3
        |rewrite B4|rewrite B5|rewrite B6|rewrite B7]; reflexivity.
    - rewrite (Z.bits_above_log2 b n), (Z.bits_above_log2 255 n); try lia.
      + change (Z.log2 255) with 7. lia.
      + destruct (Z.eq_dec b 0) as [->|Hnz]; [simpl; lia|].
        assert (Z.log2 b < 8) by (apply Z.log2_lt_pow2; simpl; lia). lia. }
  destruct Hbit as (i & Hi & Hbi).
  apply (f_equal (fun z => Z.testbit z i)) in Heq.
  rewrite Z.land_spec, Z.lor_spec, Z.lxor_spec, Hbi in Heq.
  assert (Z.testbit 255 i = true) as H255.
  { assert (i = 0 ∨ i = 1 ∨ i = 2 ∨ i = 3 ∨ i = 4 ∨ i = 5 ∨ i = 6 ∨ i = 7)
      as Hc by lia.
    destruct Hc as [->|[->|[->|[->|[->|[->|[->| ->]]]]]]]; reflexivity. }
  rewrite H255 in Heq. simpl in Heq.
  destruct (Z.testbit x i); discriminate.
Qed.

Lemma zip_land_lor_differ (ip mask : list Z) :
  length ip = length mask →
  Forall (fun b => 0 <= b <= 255) mask →
  Exists (fun b => b ≠ 255) mask →
  zip_with Z.land ip mask ≠ zip_with (fun x b => Z.lor x (Z.lxor b 255)) ip mask.
Proof.
  revert mask. induction ip as [|x ip IH]; intros [|b mask] Hlen Hall Hex;
    simpl in *; try discriminate.
  - inversion Hex.
  - inversion Hall as [|? ? Hb Hall']; subst.
    intros Heq. injection Heq as Hhd Htl.
    inversion Hex as [? ? Hne|? ? Hex']; subst.
    + exact (land_lor_host_bit x b Hb Hne Hhd).
    + apply (IH mask); [congruence|assumption|assumption|assumption].
Qed.

End Addresses.

(** C10 (as amended). For every IPNet whose IP and Mask have the same
    length, [BroadcastAddress] returns the IP ANDed byte by byte with the
    mask: the base address of the network, equal to [CIDRNet(n).IP]; as
    soon as the mask leaves one host bit this is not the highest address
    of the network. *)
Theorem C10_BroadcastAddress_is_network_base (n : net.IPNet) :
  length (net.IPNet_IP n) = length (net.IPNet_Mask n) →
  tunnel.BroadcastAddress n
    = Some (zip_with Z.land (net.IPNet_IP n) (net.IPNet_Mask n))
  ∧ tunnel.BroadcastAddress n = Some (net.IPNet_IP (tcp.CIDRNet n))
  ∧ (Forall (fun b => 0 <= b <= 255) (net.IPNet_Mask n) →
     Exists (fun b => b ≠ 255) (net.IPNet_Mask n) →
     tunnel.BroadcastAddress n ≠ Some (tunnel.HighestAddress n)).
Proof.
  intros Hlen. unfold tunnel.BroadcastAddress, tcp.CIDRNet, tunnel.HighestAddress.
  simpl. rewrite and_prefix_same_length, Mask_same_length by assumption.
  repeat split. intros Hall Hex Heq. injection Heq as Heq.
  exact (zip_land_lor_differ _ _ Hlen Hall Hex Heq).
Qed.

Lemma C10_BroadcastAddress_is_network_base_witness :
  let n := net.mkIPNet [192; 168; 0; 11] [255; 255; 255; 0] in
  tunnel.BroadcastAddress n = Some [192; 168; 0; 0]
  ∧ tunnel.BroadcastAddress n = Some (net.IPNet_IP (tcp.CIDRNet n))
  ∧ tunnel.BroadcastAddress n ≠ Some [192; 168; 0; 255].
Proof.
  intros n.
  destruct (C10_BroadcastAddress_is_network_base n eq_refl) as (H1 & H2 & H3).
  split; [exact H1|]. split; [exact H2|].
  apply H3.
  - repeat constructor; lia.
  - do 3 apply Exists_cons_tl. apply Exists_cons_hd. lia.
Defined.

(** C10 as stated fails on the cluster address of a link, which [LinkFor]
    builds from the 16-byte IP and the 4-byte mask that [net.ParseCIDR]
    returns: the mask bytes meet the zero bytes of the IPv4-in-IPv6
    prefix and the address comes back unchanged, while [CIDRNet] yields
    the network base. On a /32 network base and highest address are the
    same address. *)
Lemma C10_counterexample :
  let n := net.mkIPNet (net.IPv4 192 168 0 11) [255; 255; 255; 0] in
  let host := net.mkIPNet [192; 168; 0; 11] [255; 255; 255; 255] in
  tunnel.BroadcastAddress n = Some (net.IPv4 192 168 0 11)
  ∧ net.IPNet_IP (tcp.CIDRNet n) = [192; 168; 0; 0]
  ∧ tunnel.BroadcastAddress n ≠ Some (net.IPNet_IP (tcp.CIDRNet n))
  ∧ tunnel.BroadcastAddress host = Some (tunnel.HighestAddress host).
Proof.
  repeat split; try reflexivity. discriminate.
Qed.

(** ** Ingress policy *)

Section Ingress.
Import kubelink.

(** What [IPRange.Contains] computes: the Denied list is consulted only
    when the Allowed list is nil or contains the address, and every other
    address passes. *)
Lemma IPRange_Contains_eq (r : IPRange) (ip : net.IP) :
  IPRange_Contains (Some r) ip
  = negb ((negb (tcp.IsSet (Allowed r)) || tcp.Contains (Allowed r) ip)
          && existsb (fun c => net.Contains c ip) (tcp.elems (Denied r))).
Proof.
  unfold IPRange_Contains.
  destruct (negb (tcp.IsSet (Allowed r)) || tcp.Contains (Allowed r) ip);
    reflexivity.
Qed.

(** On the addresses inside the Allowed list, and under a policy without
    Allowed entries, the code decides as the specification says. *)
Lemma AllowIngress_inside_Allowed (l : Link) (r : IPRange) (ip : net.IP) :
  Ingress l = Some r →
  IPRange_IsSet (Some r) = true →
  Allowed r = None ∨ tcp.Contains (Allowed r) ip = true →
  AllowIngress l ip
  = (spec_policy (tcp.elems (Allowed r)) (tcp.elems (Denied r)) ip, true).
Proof.
  intros Hin Hset Hal. unfold AllowIngress. rewrite Hin, Hset. simpl.
  unfold spec_policy. destruct Hal as [Hnil|Hc].
  - rewrite Hnil. reflexivity.
  - rewrite Hc. unfold tcp.Contains in Hc. rewrite Hc.
    rewrite !orb_true_r. reflexivity.
Qed.

(** An address outside a non-nil Allowed list is admitted, whatever the
    Denied list holds. *)
Lemma AllowIngress_outside_Allowed (l : Link) (r : IPRange) (ip : net.IP) :
  Ingress l = Some r →
  tcp.IsSet (Allowed r) = true →
  tcp.Contains (Allowed r) ip = false →
  AllowIngress l ip = (true, true).
Proof.
  intros Hin Hset Hc. unfold AllowIngress, IPRange_IsSet, IPRange_Contains.
  rewrite Hin, Hset, Hc. reflexivity.
Qed.

End Ingress.

(** C1. The link of scenario S3, ingress ["100.64.16.0/28",
    "!100.64.16.5/32"]: [AllowIngress] admits 100.64.16.3 and drops
    100.64.16.5 as the scenario says, and it also admits 10.0.0.1, an
    address in no Allowed range, which the policy of the specification
    rejects. *)
Theorem C1_AllowIngress_admits_outside_Allowed :
  ∃ l r,
    kubelink.LinkFor sample.ext (kubelink.NewLinks 80) sample.link_a = inr l
    ∧ kubelink.Ingress l = Some r
    ∧ kubelink.AllowIngress l (net.IPv4 100 64 16 3) = (true, true)
    ∧ kubelink.AllowIngress l (net.IPv4 100 64 16 5) = (false, true)
    ∧ kubelink.AllowIngress l (net.IPv4 10 0 0 1) = (true, true)
    ∧ kubelink.spec_policy (tcp.elems (kubelink.Allowed r))
                           (tcp.elems (kubelink.Denied r))
                           (net.IPv4 10 0 0 1) = false.
Proof.
  eexists _, _. split; [vm_compute; reflexivity|].
  split; [reflexivity|]. repeat split; vm_compute; reflexivity.
Qed.

(** ** The link registry *)

Section Registry.
Import kubelink registry.

Variable ext : Externals.

(** A parsed link carries the name of its declaration and empty foreign
    data. *)
Lemma LinkFor_inr (this : Links) (k : KubeLink) (l : Link) :
  LinkFor ext this k = inr l →
  Name l = kl_Name k
  ∧ ForeignData l
    = mkLinkForeignData false (mkLinkAccessInfo "" "") (mkLinkDNSInfo "" []).
Proof.
  unfold LinkFor. intros H. repeat case_match; simplify_eq; done.
Qed.

Lemma keyed_NewLinks (p : Z) : keyed (NewLinks p).
Proof.
  unfold keyed, NewLinks; simpl.
  repeat split; intros ? ? H; rewrite lookup_empty in H; discriminate.
Qed.

Lemma keyed_subseteq (p p' : Z) (l l' e e' : gmap string Link)
    (c c' : gmap (list Z) Link) :
  keyed (mkLinks p l e c) → l' ⊆ l → e' ⊆ e → c' ⊆ c →
  keyed (mkLinks p' l' e' c').
Proof.
  intros (Hl & He & Hc) Sl Se Sc. unfold keyed; simpl in *.
  repeat split; intros k x Hx.
  - apply Hl. eapply lookup_weaken; eassumption.
  - apply He. eapply lookup_weaken; eassumption.
  - apply Hc. eapply lookup_weaken; eassumption.
Qed.

Lemma keyed_replaceLink (this : Links) (link : Link) :
  keyed this → keyed (replaceLink this link).1.
Proof.
  intros (Hl & He & Hc). unfold keyed, replaceLink; simpl.
  repeat split; intros k x; rewrite lookup_insert_Some;
    intros [[<- <-]|[_ Hx]]; eauto.
Qed.

Lemma keyed_updateLink (this : Links) (k : KubeLink) :
  keyed this → keyed (updateLink ext this k).1.
Proof.
  intros Hk. unfold updateLink.
  destruct (LinkFor ext this k) as [e|l]; [exact Hk|].
  destruct (links this !! kl_Name k) as [old|].
  - set (es := if negb (Host old =? Host l)%string
               then delete (Host old) (endpoints this) else endpoints this).
    set (cs := if negb (net.Equal (net.IPNet_IP (ClusterAddress old))
                                  (net.IPNet_IP (ClusterAddress l)))
               then delete (net.IP_String (net.IPNet_IP (ClusterAddress old)))
                           (clusteraddr this)
               else clusteraddr this).
    assert (es ⊆ endpoints this) as Hes
      by (subst es; case_match; [apply delete_subseteq|reflexivity]).
    assert (cs ⊆ clusteraddr this) as Hcs
      by (subst cs; case_match; [apply delete_subseteq|reflexivity]).
    apply (keyed_replaceLink (mkLinks (defaultport this) (links this) es cs)).
    destruct this as [p ls es0 cs0]; simpl in *.
    eapply keyed_subseteq; [exact Hk|reflexivity|exact Hes|exact Hcs].
  - apply (keyed_replaceLink this l), Hk.
Qed.

Lemma keyed_RemoveLink (this : Links) (name : string) :
  keyed this → keyed (RemoveLink this name).
Proof.
  intros Hk. unfold RemoveLink. destruct (links this !! name); [|exact Hk].
  destruct this as [p ls es cs]; simpl.
  eapply keyed_subseteq; [exact Hk| | |]; apply delete_subseteq.
Qed.

Lemma keyed_UpdateLinkInfo (this : Links) (name : string)
    (access : option LinkAccessInfo) (dns : option LinkDNSInfo) (pending : bool) :
  keyed this → keyed (UpdateLinkInfo this name access dns pending).1.1.
Proof.
  intros Hk. unfold UpdateLinkInfo.
  destruct (links this !! name) as [old|]; [|exact Hk].
  repeat (case_match; simplify_eq/=); try exact Hk;
    match goal with
    | |- context [<[_ := ?l]> (links this)] => exact (keyed_replaceLink this l Hk)
    end.
Qed.

Lemma keyed_LinkInfoUpdated (this : Links) (name : string)
    (access : option LinkAccessInfo) (dns : option LinkDNSInfo) :
  keyed this → keyed (LinkInfoUpdated this name access dns).1.
Proof.
  intros Hk. unfold LinkInfoUpdated.
  destruct (links this !! name) as [old|]; [|exact Hk].
  repeat (case_match; simplify_eq/=); try exact Hk;
    match goal with
    | |- context [<[_ := ?l]> (links this)] => exact (keyed_replaceLink this l Hk)
    end.
Qed.

Lemma keyed_apply (this : Links) (o : op) :
  keyed this → keyed (apply ext this o).
Proof.
  destruct o; simpl; intros Hk.
  - apply keyed_updateLink, Hk.
  - apply keyed_replaceLink, Hk.
  - apply keyed_RemoveLink, Hk.
  - apply keyed_UpdateLinkInfo, Hk.
  - apply keyed_LinkInfoUpdated, Hk.
Qed.

Lemma keyed_run (ops : list op) (this : Links) :
  keyed this → keyed (run ext this ops).
Proof.
  revert this. induction ops as [|o ops IH]; intros this Hk; simpl; [exact Hk|].
  apply IH, keyed_apply, Hk.
Qed.

(** [updateLink] fails exactly when [LinkFor] does, and then leaves the
    registry alone; otherwise the parsed link is stored in all three
    indices, whatever they held under its keys. *)
Lemma updateLink_result (this : Links) (k : KubeLink) :
  match LinkFor ext this k with
  | inl e => updateLink ext this k = (this, inl e)
  | inr l0 =>
      ∃ this' l, updateLink ext this k = (this', inr l)
        ∧ l = with_ForeignData l0
                (default (ForeignData l0) (ForeignData <$> links this !! kl_Name k))
        ∧ links this' = <[kl_Name k := l]> (links this)
        ∧ endpoints this' !! Host l0 = Some l
        ∧ clusteraddr this' !! net.IP_String (net.IPNet_IP (ClusterAddress l0))
          = Some l
  end.
Proof.
  unfold updateLink. destruct (LinkFor ext this k) as [e|l0] eqn:Hp; [reflexivity|].
  destruct (LinkFor_inr _ _ _ Hp) as [Hn Hf].
  destruct (links this !! kl_Name k) as [old|] eqn:Ho; simpl.
  - eexists _, _. split; [reflexivity|]. simpl. rewrite Hn.
    repeat split; apply lookup_insert_eq.
  - eexists _, _. split; [reflexivity|]. rewrite <- Hn.
    destruct l0; simpl. repeat split; apply lookup_insert_eq.
Qed.

End Registry.

(** C2 (as amended). After any sequence of UpdateLink, ReplaceLink and
    RemoveLink (and of the two foreign-info updates) on a new registry,
    every index files each link under the link's own name, endpoint host
    and cluster address. An update is
    rejected only when its declaration does not parse, and then the
    registry is unchanged; an update that parses is accepted also when its
    cluster address or endpoint host is that of another stored link: it is
    stored under its name and takes over the entries of both secondary
    indices. *)
Theorem C2_updates_accepted_indices_keyed
    (ext : kubelink.Externals) (p : Z) (ops : list registry.op)
    (k : kubelink.KubeLink) :
  let this := registry.run ext (kubelink.NewLinks p) ops in
  registry.keyed this
  ∧ match kubelink.LinkFor ext this k with
    | inl e => kubelink.UpdateLink ext this k = (this, inl e)
    | inr l0 =>
        ∃ this' l, kubelink.UpdateLink ext this k = (this', inr l)
          ∧ kubelink.Name l = kubelink.kl_Name k
          ∧ kubelink.Host l = kubelink.Host l0
          ∧ kubelink.ClusterAddress l = kubelink.ClusterAddress l0
          ∧ kubelink.GetLink this' (kubelink.kl_Name k) = Some l
          ∧ kubelink.GetLinkForEndpoint this' (kubelink.Host l) = Some l
          ∧ kubelink.GetLinkForClusterAddress this'
              (net.IPNet_IP (kubelink.ClusterAddress l)) = Some l
    end.
Proof.
  intros this. split; [apply keyed_run, keyed_NewLinks|].
  pose proof (updateLink_result ext this k) as H.
  destruct (kubelink.LinkFor ext this k) as [e|l0] eqn:Hp; [exact H|].
  destruct H as (this' & l & Hu & Hl & Hls & Hes & Hcs).
  destruct (LinkFor_inr _ _ _ _ Hp) as [Hn _].
  exists this', l. split; [exact Hu|].
  assert (kubelink.Name l = kubelink.kl_Name k) as Hn' by (subst l; exact Hn).
  assert (kubelink.Host l = kubelink.Host l0) as Hh by (subst l; reflexivity).
  assert (kubelink.ClusterAddress l = kubelink.ClusterAddress l0) as Hc
    by (subst l; reflexivity).
  unfold kubelink.GetLink, kubelink.GetLinkForEndpoint,
    kubelink.GetLinkForClusterAddress.
  rewrite Hh, Hc, Hls, lookup_insert_eq. repeat split; assumption.
Qed.

(** C2 as stated fails: a second link declared with the cluster address
    and the endpoint host of a stored one is accepted, and the registry
    then holds two links with the same address and the same host. *)
Lemma C2_counterexample :
  (∃ l, (kubelink.UpdateLink sample.ext sample.one_link sample.link_b).2 = inr l)
  ∧ ¬ registry.unique sample.two_links.
Proof.
  split; [eexists; vm_compute; reflexivity|].
  intros H.
  assert (∃ La Lb,
            kubelink.links sample.two_links !! "a" = Some La
            ∧ kubelink.links sample.two_links !! "b" = Some Lb
            ∧ kubelink.Host La = kubelink.Host Lb) as (La & Lb & Ha & Hb & Hh).
  { eexists _, _. split; [vm_compute; reflexivity|].
    split; [vm_compute; reflexivity|]. reflexivity. }
  destruct (H "a" "b" La Lb ltac:(discriminate) Ha Hb) as [_ Hne].
  exact (Hne Hh).
Qed.

(** C9. When UpdateLink replaces the snapshot stored under a name, the
    new snapshot carries the foreign data of the old one, and the
    snapshots stored under all other names are unchanged. *)
Theorem C9_UpdateLink_keeps_foreign_data
    (ext : kubelink.Externals) (this : kubelink.Links)
    (klink : kubelink.KubeLink) (old l : kubelink.Link) :
  kubelink.GetLink this (kubelink.kl_Name klink) = Some old →
  (kubelink.UpdateLink ext this klink).2 = inr l →
  kubelink.ForeignData l = kubelink.ForeignData old
  ∧ kubelink.GetLink (kubelink.UpdateLink ext this klink).1
      (kubelink.kl_Name klink) = Some l
  ∧ ∀ n, n ≠ kubelink.kl_Name klink →
      kubelink.GetLink (kubelink.UpdateLink ext this klink).1 n
      = kubelink.GetLink this n.
Proof.
  unfold kubelink.GetLink, kubelink.UpdateLink. intros Hold Hres.
  pose proof (updateLink_result ext this klink) as H.
  destruct (kubelink.LinkFor ext this klink) as [e|l0].
  - rewrite H in Hres. discriminate.
  - destruct H as (this' & l' & Hu & Hl & Hls & _).
    rewrite Hu in *. simpl in *. injection Hres as ->.
    rewrite Hold in Hl. simpl in Hl. rewrite Hls.
    split; [subst l; reflexivity|]. split; [apply lookup_insert_eq|].
    intros n Hn. apply lookup_insert_ne. congruence.
Qed.

Lemma C9_UpdateLink_keeps_foreign_data_witness :
  ∃ old l,
    kubelink.GetLink sample.staged "a" = Some old
    ∧ (kubelink.UpdateLink sample.ext sample.staged sample.link_a').2 = inr l
    ∧ kubelink.AccessInfo (kubelink.ForeignData old) = sample.access
    ∧ kubelink.ForeignData l = kubelink.ForeignData old.
Proof.
  eexists _, _.
  split; [vm_compute; reflexivity|]. split; [vm_compute; reflexivity|].
  split; [reflexivity|].
  refine (proj1 (C9_UpdateLink_keeps_foreign_data sample.ext sample.staged
                   sample.link_a' _ _ _ _)); vm_compute; reflexivity.
Defined.

(** The three cases of the two-phase update, for a link filed under its
    own name. *)
Lemma two_phase_foreign_update
    (this : kubelink.Links) (name : string) (old : kubelink.Link) :
  kubelink.GetLink this name = Some old →
  kubelink.Name old = name →
  let fd := kubelink.ForeignData old in
  (∀ access dns,
     kubelink.UpdatePending fd = true →
     kubelink.UpdateLinkInfo this name access dns false = (this, Some old, false))
  ∧ (∀ access dns,
       let a := registry.differing kubelink.LinkAccessInfo_Equal
                  (kubelink.AccessInfo fd) access in
       let d := registry.differing kubelink.LinkDNSInfo_Equal
                  (kubelink.DNSInfo fd) dns in
       a ≠ None ∨ d ≠ None →
       ∃ this' new,
         kubelink.UpdateLinkInfo this name access dns true = (this', Some new, true)
         ∧ kubelink.GetLink this' name = Some new
         ∧ kubelink.UpdatePending (kubelink.ForeignData new) = true
         ∧ kubelink.AccessInfo (kubelink.ForeignData new)
           = default (kubelink.AccessInfo fd) a
         ∧ kubelink.DNSInfo (kubelink.ForeignData new)
           = default (kubelink.DNSInfo fd) d)
  ∧ (∀ access dns,
       let echo :=
         registry.echoed kubelink.LinkAccessInfo_Equal (kubelink.AccessInfo fd) access
         || registry.echoed kubelink.LinkDNSInfo_Equal (kubelink.DNSInfo fd) dns in
       ∃ this' new,
         kubelink.LinkInfoUpdated this name access dns = (this', Some new)
         ∧ kubelink.GetLink this' name = Some new
         ∧ kubelink.UpdatePending (kubelink.ForeignData new)
           = kubelink.UpdatePending fd && negb echo
         ∧ kubelink.AccessInfo (kubelink.ForeignData new) = kubelink.AccessInfo fd
         ∧ kubelink.DNSInfo (kubelink.ForeignData new) = kubelink.DNSInfo fd
         ∧ (echo = false → this' = this)).
Proof.
  intros Hold Hname fd. unfold kubelink.GetLink in *. subst name.
  split; [|split].
  - intros access dns Hp.
    unfold kubelink.UpdateLinkInfo. rewrite Hold. fold fd. rewrite Hp. simpl.
    destruct access as [a|], dns as [d|]; simpl;
      repeat (case_match; simplify_eq/=); reflexivity.
  - intros access dns. cbv zeta. intros Hnew.
    unfold kubelink.UpdateLinkInfo. rewrite Hold. fold fd.
    rewrite !orb_true_r. unfold registry.differing in *.
    destruct access as [a|], dns as [d|]; simpl in *;
      repeat (case_match; simplify_eq/=);
      try (exfalso; destruct Hnew as [Hn|Hn]; exact (Hn eq_refl));
      (eexists _, _; split; [reflexivity|];
       split; [apply lookup_insert_eq|];
       repeat split; destruct (kubelink.UpdatePending fd); reflexivity).
  - intros access dns. cbv zeta.
    unfold kubelink.LinkInfoUpdated. rewrite Hold. fold fd.
    unfold registry.echoed.
    destruct access as [a|], dns as [d|]; simpl;
      repeat (case_match; simplify_eq/=);
      (eexists _, _; split; [reflexivity|]); simpl;
      (split; [first [apply lookup_insert_eq | exact Hold]|]);
      rewrite ?andb_true_r, ?andb_false_r;
      repeat split; try reflexivity; try discriminate.
Qed.

(** C8. In a registry built by its operations, for every stored link:
    while its update is pending, a call of UpdateLinkInfo with
    pending=false changes nothing; a call with pending=true that brings a
    differing value stores it and leaves UpdatePending set; LinkInfoUpdated
    clears UpdatePending when a value it is given equals the stored one,
    and changes nothing otherwise. *)
Theorem C8_two_phase_foreign_update
    (ext : kubelink.Externals) (p : Z) (ops : list registry.op)
    (name : string) (old : kubelink.Link) :
  let this := registry.run ext (kubelink.NewLinks p) ops in
  kubelink.GetLink this name = Some old →
  let fd := kubelink.ForeignData old in
  (∀ access dns,
     kubelink.UpdatePending fd = true →
     kubelink.UpdateLinkInfo this name access dns false = (this, Some old, false))
  ∧ (∀ access dns,
       let a := registry.differing kubelink.LinkAccessInfo_Equal
                  (kubelink.AccessInfo fd) access in
       let d := registry.differing kubelink.LinkDNSInfo_Equal
                  (kubelink.DNSInfo fd) dns in
       a ≠ None ∨ d ≠ None →
       ∃ this' new,
         kubelink.UpdateLinkInfo this name access dns true = (this', Some new, true)
         ∧ kubelink.GetLink this' name = Some new
         ∧ kubelink.UpdatePending (kubelink.ForeignData new) = true
         ∧ kubelink.AccessInfo (kubelink.ForeignData new)
           = default (kubelink.AccessInfo fd) a
         ∧ kubelink.DNSInfo (kubelink.ForeignData new)
           = default (kubelink.DNSInfo fd) d)
  ∧ (∀ access dns,
       let echo :=
         registry.echoed kubelink.LinkAccessInfo_Equal (kubelink.AccessInfo fd) access
         || registry.echoed kubelink.LinkDNSInfo_Equal (kubelink.DNSInfo fd) dns in
       ∃ this' new,
         kubelink.LinkInfoUpdated this name access dns = (this', Some new)
         ∧ kubelink.GetLink this' name = Some new
         ∧ kubelink.UpdatePending (kubelink.ForeignData new)
           = kubelink.UpdatePending fd && negb echo
         ∧ kubelink.AccessInfo (kubelink.ForeignData new) = kubelink.AccessInfo fd
         ∧ kubelink.DNSInfo (kubelink.ForeignData new) = kubelink.DNSInfo fd
         ∧ (echo = false → this' = this)).
Proof.
  intros this Hold. apply two_phase_foreign_update; [exact Hold|].
  destruct (keyed_run ext ops (kubelink.NewLinks p) (keyed_NewLinks p))
    as (Hname & _).
  apply Hname. exact Hold.
Qed.

Lemma C8_two_phase_foreign_update_witness :
  ∃ old,
    kubelink.GetLink sample.staged "a" = Some old
    ∧ kubelink.UpdatePending (kubelink.ForeignData old) = true
    ∧ kubelink.UpdateLinkInfo sample.staged "a" None (Some sample.dns) false
      = (sample.staged, Some old, false).
Proof.
  eexists. split; [vm_compute; reflexivity|]. split; [reflexivity|].
  refine (proj1 (C8_two_phase_foreign_update sample.ext 80 sample.staged_ops
                   "a" _ _) None (Some sample.dns) _); vm_compute; reflexivity.
Defined.

(** ** Closing listeners and tunnels *)

Section Closing.

Variable Listener : Type.
Variable Listener_Close : Listener → Listener * option error.

Local Abbreviation oc_Close := (tcp.Close Listener Listener_Close).
Local Abbreviation oc_Close_n := (tcp.Close_n Listener Listener_Close).

Lemma onceCloseListener_Close_done (oc : tcp.onceCloseListener Listener) :
  tcp.once_done Listener oc = true → oc_Close oc = (oc, tcp.closeErr Listener oc).
Proof.
  intros Hd. unfold tcp.Close, tcp.once_Do. rewrite Hd. reflexivity.
Qed.

Lemma onceCloseListener_Close_n_done (n : nat) (oc : tcp.onceCloseListener Listener) :
  tcp.once_done Listener oc = true →
  oc_Close_n n oc = (oc, replicate n (tcp.closeErr Listener oc)).
Proof.
  intros Hd. induction n as [|n IH]; [reflexivity|].
  cbn [tcp.Close_n].
  rewrite onceCloseListener_Close_done, IH by exact Hd. reflexivity.
Qed.

Lemma onceCloseListener_Close_sets_done (oc : tcp.onceCloseListener Listener) :
  tcp.once_done Listener (oc_Close oc).1 = true
  ∧ tcp.closeErr Listener (oc_Close oc).1 = (oc_Close oc).2.
Proof.
  unfold tcp.Close, tcp.once_Do.
  destruct (tcp.once_done Listener oc) eqn:Hd; simpl; auto.
Qed.

Lemma onceCloseListener_Close_n (n : nat) (oc : tcp.onceCloseListener Listener) :
  (oc_Close_n (S n) oc).2 = replicate (S n) (oc_Close oc).2.
Proof.
  cbn [tcp.Close_n]. destruct (onceCloseListener_Close_sets_done oc) as [Hd He].
  destruct (oc_Close oc) as [oc' e]; cbn [fst snd] in *.
  rewrite onceCloseListener_Close_n_done by exact Hd. cbn [fst snd replicate].
  rewrite He. reflexivity.
Qed.

End Closing.

Lemma TunnelConnection_Close_closed (t : broker.TunnelConnection) :
  broker.closed (broker.conn t) = true → broker.Close t = (t, Some ErrClosed).
Proof.
  intros Hc. unfold broker.Close, broker.Conn_Close. rewrite Hc.
  destruct t; reflexivity.
Qed.

Lemma TunnelConnection_Close_n_closed (n : nat) (t : broker.TunnelConnection) :
  broker.closed (broker.conn t) = true →
  broker.Close_n n t = (t, replicate n (Some ErrClosed)).
Proof.
  intros Hc. induction n as [|n IH]; [reflexivity|].
  cbn [broker.Close_n].
  rewrite TunnelConnection_Close_closed, IH by exact Hc. reflexivity.
Qed.

(** C3 (as amended). Close on a listener may be called any number of
    times and every call returns the error of the first call. Close on a
    tunnel connection may be called any number of times as well, but every
    call is passed on to the connection underneath: on an open connection
    the first call returns no error and every later call returns the
    closed-connection error. *)
Theorem C3_Close_any_number_of_times
    (Listener : Type) (Listener_Close : Listener → Listener * option error)
    (oc : tcp.onceCloseListener Listener) (t : broker.TunnelConnection) (n : nat) :
  broker.closed (broker.conn t) = false →
  (tcp.Close_n Listener Listener_Close (S n) oc).2
    = replicate (S n) (tcp.Close Listener Listener_Close oc).2
  ∧ (broker.Close_n (S n) t).2 = None :: replicate n (Some ErrClosed).
Proof.
  intros Hopen. split; [apply onceCloseListener_Close_n|].
  cbn [broker.Close_n]. unfold broker.Close at 1, broker.Conn_Close.
  rewrite Hopen.
  rewrite TunnelConnection_Close_n_closed by reflexivity. reflexivity.
Qed.

Lemma C3_Close_any_number_of_times_witness :
  let oc := tcp.mkOnceCloseListener broker.Conn (sample.conn []) false None in
  let t := broker.mkTunnelConnection (sample.conn []) None in
  (tcp.Close_n broker.Conn broker.Conn_Close 3 oc).2 = [None; None; None]
  ∧ (broker.Close_n 3 t).2 = [None; Some ErrClosed; Some ErrClosed].
Proof.
  exact (C3_Close_any_number_of_times broker.Conn broker.Conn_Close
           (tcp.mkOnceCloseListener broker.Conn (sample.conn []) false None)
           (broker.mkTunnelConnection (sample.conn []) None) 2 eq_refl).
Defined.

(** C3 as stated fails for tunnels: the second Close of a tunnel does not
    return what the first returned. *)
Lemma C3_counterexample :
  let t := broker.mkTunnelConnection (sample.conn []) None in
  (broker.Close_n 2 t).2 = [None; Some ErrClosed]
  ∧ (broker.Close_n 2 t).2 ≠ replicate 2 (broker.Close t).2.
Proof.
  split; [reflexivity|]. discriminate.
Qed.

(** ** The byte stream under the frames *)

Section Transport.
Import broker.

Lemma with_rd_id (c : Conn) : with_rd c (rd c) = c.
Proof. destruct c; reflexivity. Qed.

Lemma with_wr_id (c : Conn) : with_wr c (wr c) = c.
Proof. destruct c; reflexivity. Qed.

(** The read loop on an open connection: it fills the buffer when the
    stream holds enough bytes, and otherwise takes what is left and ends
    with EOF. Short reads make no difference. *)
Lemma read_loop_open (fuel : nat) :
  ∀ (c : Conn) (n : nat) (got : list Z),
    closed c = false → (length got ≤ n)%nat → (n - length got ≤ fuel)%nat →
    read_loop fuel c n got
    = if (n - length got <=? length (rd c))%nat
      then Val (with_rd c (drop (n - length got) (rd c)),
                got ++ take (n - length got) (rd c), None)
      else Val (with_rd c [], got ++ rd c, Some EOF).
Proof.
  induction fuel as [|fuel IH]; intros c n got Hopen Hle Hfuel.
  - assert (n - length got = 0)%nat as -> by lia.
    assert ((length got <? n)%nat = false) as E by (apply Nat.ltb_ge; lia).
    simpl. rewrite E. rewrite with_rd_id, app_nil_r. reflexivity.
  - cbn [read_loop]. destruct (Nat.ltb_spec (length got) n) as [Hlt|Hge].
    + unfold Conn_Read. rewrite Hopen.
      destruct (rd c) as [|x rest] eqn:Hrd.
      * destruct (Nat.leb_spec (n - length got) (length (@nil Z))) as [H0|_];
          [simpl in H0; lia|].
        rewrite <- Hrd at 1. rewrite with_rd_id, app_nil_r. reflexivity.
      * set (k := (n - length got)%nat) in *.
        set (m := Nat.min k (S (rd_chunk c))).
        assert (1 ≤ m)%nat as Hm1 by (subst m k; lia).
        assert (m ≤ k)%nat as Hmk by (subst m; lia).
        assert (length (take m (x :: rest)) = Nat.min m (length (x :: rest))) as Hlc
          by apply length_take.
        assert (1 ≤ length (x :: rest))%nat as Hr1 by (simpl; lia).
        rewrite IH; cbn [closed with_rd rd]; try assumption;
          rewrite ?length_app, ?Hlc; try (subst k; lia).
        rewrite length_drop.
        destruct (Nat.leb_spec k (length (x :: rest))) as [Hk|Hk].
        -- destruct (Nat.leb_spec (n - (length got + Nat.min m (length (x :: rest))))
                       (length (x :: rest) - m)) as [_|Hbad]; [|subst k; lia].
           rewrite drop_drop, <- app_assoc, take_take_drop.
           replace (Nat.min m (length (x :: rest))) with m by lia.
           replace (m + (n - (length got + m)))%nat with k by (subst k; lia).
           reflexivity.
        -- destruct (Nat.leb_spec (n - (length got + Nat.min m (length (x :: rest))))
                       (length (x :: rest) - m)) as [Hbad|_]; [subst k; lia|].
           rewrite <- app_assoc, take_drop. reflexivity.
    + assert (n - length got = 0)%nat as -> by lia.
      simpl. rewrite with_rd_id, app_nil_r. reflexivity.
Qed.

Lemma read_open (c : Conn) (data : list Z) :
  closed c = false →
  read c data
  = if (length data <=? length (rd c))%nat
    then Val (with_rd c (drop (length data) (rd c)), take (length data) (rd c), None)
    else Val (with_rd c [], rd c ++ drop (length (rd c)) data, Some EOF).
Proof.
  intros Hopen. unfold read.
  rewrite read_loop_open by (simpl; try assumption; lia).
  simpl. rewrite Nat.sub_0_r.
  destruct (Nat.leb_spec (length data) (length (rd c))) as [Hle|Hgt]; simpl.
  - rewrite length_take, Nat.min_l by exact Hle.
    rewrite drop_all, app_nil_r. reflexivity.
  - reflexivity.
Qed.

Lemma read_closed (c : Conn) (data : list Z) :
  closed c = true →
  read c data
  = Val (c, data, if (length data =? 0)%nat then None else Some ErrClosed).
Proof.
  intros Hc. unfold read. destruct data as [|x data]; [reflexivity|].
  cbn [length read_loop]. unfold Conn_Read. rewrite Hc. reflexivity.
Qed.

(** [read] always returns, and never panics. *)
Lemma read_total (c : Conn) (data : list Z) :
  ∃ c' data' err, read c data = Val (c', data', err)
    ∧ closed c' = closed c ∧ length data' = length data
    ∧ (err = None → length (rd c') + length data = length (rd c))%nat.
Proof.
  destruct (closed c) eqn:Hc.
  - rewrite read_closed by exact Hc. eexists _, _, _.
    split; [reflexivity|]. split; [exact Hc|]. split; [reflexivity|].
    destruct (Nat.eqb_spec (length data) 0) as [H0|H0]; [lia|discriminate].
  - rewrite read_open by exact Hc.
    destruct (Nat.leb_spec (length data) (length (rd c))) as [Hle|Hgt];
      eexists _, _, _; (split; [reflexivity|]); simpl;
      rewrite ?length_take, ?length_app, ?length_drop;
      repeat split; try assumption; try discriminate; lia.
Qed.

(** The write loop on an open connection puts all of [data[start:]] on
    the stream, however short the single writes are. *)
Lemma write_loop_open (fuel : nat) :
  ∀ (c : Conn) (data : list Z) (start : nat),
    closed c = false → (length data - start ≤ fuel)%nat →
    write_loop fuel c data start
    = Val (with_wr c (wr c ++ drop start data), None).
Proof.
  induction fuel as [|fuel IH]; intros c data start Hopen Hfuel.
  - assert ((start <? length data)%nat = false) as E by (apply Nat.ltb_ge; lia).
    simpl. rewrite E. rewrite drop_ge, app_nil_r, with_wr_id by lia. reflexivity.
  - cbn [write_loop]. destruct (Nat.ltb_spec start (length data)) as [Hlt|Hge].
    + unfold Conn_Write. rewrite Hopen.
      set (m := Nat.min (length (drop start data)) (S (wr_chunk c))).
      assert (1 ≤ m)%nat as Hm by (subst m; rewrite length_drop; lia).
      rewrite IH; cbn [closed with_wr wr]; try assumption; try lia.
      rewrite <- app_assoc.
      replace (drop (start + m) data) with (drop m (drop start data))
        by apply drop_drop.
      rewrite take_drop. reflexivity.
    + rewrite drop_ge, app_nil_r, with_wr_id by lia. reflexivity.
Qed.

Lemma write_open (c : Conn) (data : list Z) :
  closed c = false → write c data = Val (with_wr c (wr c ++ data), None).
Proof.
  intros Hopen. unfold write. rewrite write_loop_open by (try assumption; lia).
  reflexivity.
Qed.

Lemma write_closed (c : Conn) (data : list Z) :
  closed c = true →
  write c data = Val (c, if (length data =? 0)%nat then None else Some ErrClosed).
Proof.
  intros Hc. unfold write. destruct data as [|x data]; [reflexivity|].
  cbn [length write_loop]. unfold Conn_Write. rewrite Hc. reflexivity.
Qed.

Lemma write_total (c : Conn) (data : list Z) :
  ∃ c' err, write c data = Val (c', err)
    ∧ closed c' = closed c ∧ rd c' = rd c ∧ rd_chunk c' = rd_chunk c.
Proof.
  destruct (closed c) eqn:Hc.
  - rewrite write_closed by exact Hc. eexists _, _. repeat split; auto.
  - rewrite write_open by exact Hc. eexists _, _. repeat split; auto.
Qed.

End Transport.

(** ** Frames *)

Section Packets.
Import broker.

Lemma land_low_shiftl (a b : Z) : 0 <= a < 256 → Z.land a (Z.shiftl b 8) = 0.
Proof.
  intros Ha. apply Z.bits_inj'. intros i Hi.
  rewrite Z.land_spec, Z.bits_0.
  destruct (Z_lt_dec i 8) as [Hlt|Hge].
  - rewrite (Z.shiftl_spec_low b 8 i) by lia. apply andb_false_r.
  - rewrite <- (Z.mod_small a (2 ^ 8)) by (change (2 ^ 8) with 256; lia).
    rewrite Z.mod_pow2_bits_high by lia. reflexivity.
Qed.

(** The two length bytes read most significant first. *)
Lemma NtoHs_value (b0 b1 : Z) (l : list Z) :
  0 <= b1 < 256 → tunnel.NtoHs (b0 :: b1 :: l) = Some (b0 * 256 + b1).
Proof.
  intros H1. unfold tunnel.NtoHs. f_equal.
  rewrite <- Z.lxor_lor, <- Z.add_nocarry_lxor by (apply land_low_shiftl; lia).
  rewrite Z.shiftl_mul_pow2 by lia. change (2 ^ 8) with 256. lia.
Qed.

Lemma HtoNs_bytes (n : Z) :
  0 <= n < 65536 → tunnel.HtoNs n = [n / 256; n mod 256].
Proof.
  intros Hn. unfold tunnel.HtoNs. rewrite Z.shiftr_div_pow2 by lia.
  change (2 ^ 8) with 256. rewrite (Z.mod_small (n / 256)); [reflexivity|].
  split; [apply Z.div_pos; lia|apply Z.div_lt_upper_bound; lia].
Qed.

Lemma NtoHs_HtoNs (n : Z) (l : list Z) :
  0 <= n < 65536 → tunnel.NtoHs (tunnel.HtoNs n ++ l) = Some n.
Proof.
  intros Hn. rewrite HtoNs_bytes by exact Hn. cbn [app].
  rewrite NtoHs_value by (apply Z.mod_pos_bound; lia).
  f_equal. pose proof (Z.div_mod n 256). lia.
Qed.

(** [WritePacket] on an open connection appends exactly one frame. *)
Lemma WritePacket_open (c : Conn) (ty : Z) (p : list Z) :
  closed c = false → Z.of_nat (length p) <= 65535 →
  WritePacket c ty p = Val (with_wr c (wr c ++ frame ty p), None).
Proof.
  intros Hopen Hlen. unfold WritePacket.
  destruct (Z.gtb_spec (Z.of_nat (length p)) 65535) as [Hgt|_]; [lia|].
  rewrite Z.mod_small by lia.
  rewrite write_open by exact Hopen. cbn [mbind exec_bind].
  rewrite write_open by exact Hopen. cbn [with_wr wr].
  unfold frame. rewrite <- !app_assoc. reflexivity.
Qed.

(** [WritePacket] refuses a payload of more than 65,535 bytes and leaves
    the connection as it was. *)
Lemma WritePacket_too_large (c : Conn) (ty : Z) (p : list Z) :
  65535 < Z.of_nat (length p) →
  WritePacket c ty p = Val (c, Some (ErrPacketTooLarge (Z.of_nat (length p)))).
Proof.
  intros Hlen. unfold WritePacket.
  destruct (Z.gtb_spec (Z.of_nat (length p)) 65535) as [_|Hle]; [reflexivity|lia].
Qed.

Lemma WritePacket_total (c : Conn) (ty : Z) (p : list Z) :
  ∃ c' err, WritePacket c ty p = Val (c', err)
    ∧ closed c' = closed c ∧ rd c' = rd c ∧ rd_chunk c' = rd_chunk c.
Proof.
  unfold WritePacket. case_match; [eexists _, _; repeat split; reflexivity|].
  destruct (write_total c (tunnel.HtoNs (Z.of_nat (length p) mod 65536) ++ [ty]))
    as (c1 & e1 & -> & Hc1 & Hr1 & Hk1).
  cbn [mbind exec_bind]. destruct e1 as [e|].
  - eexists _, _. repeat split; assumption.
  - destruct (write_total c1 p) as (c2 & e2 & -> & Hc2 & Hr2 & Hk2).
    eexists _, _. repeat split; congruence.
Qed.

(** [ReadPacket] on a stream that starts with a whole frame whose
    payload fits the buffer: it takes exactly the frame off the stream. *)
Lemma ReadPacket_frame (c : Conn) (buffer : list Z) (ty : Z) (p rest : list Z) :
  closed c = false → rd c = frame ty p ++ rest →
  Z.of_nat (length p) <= 65535 → (length p ≤ length buffer)%nat →
  ReadPacket c buffer
  = Val (with_rd c rest, p ++ drop (length p) buffer,
         (Z.of_nat (length p), ty, None)).
Proof.
  intros Hopen Hrd H16 Hfit. unfold ReadPacket.
  pose proof (NtoHs_HtoNs (Z.of_nat (length p)) [] ltac:(lia)) as Hn.
  rewrite app_nil_r in Hn.
  unfold frame in Hrd. unfold tunnel.HtoNs in Hrd, Hn.
  set (h1 := Z.shiftr (Z.of_nat (length p)) 8 mod 256) in *.
  set (h0 := Z.of_nat (length p) mod 256) in *.
  rewrite read_open by exact Hopen. rewrite Hrd.
  cbn [length app Nat.leb firstn skipn mbind exec_bind with_rd].
  rewrite ?drop_0, ?take_0.
  rewrite Hn.
  destruct (Z.gtb_spec (Z.of_nat (length p)) (Z.of_nat (length buffer)))
    as [Hgt|_]; [lia|].
  rewrite Nat2Z.id.
  rewrite read_open by exact Hopen. cbn [rd with_rd].
  rewrite length_take, Nat.min_l by exact Hfit.
  rewrite length_app.
  destruct (Nat.leb_spec (length p) (length p + length rest)) as [_|Hbad]; [|lia].
  rewrite take_app_length, drop_app_length. reflexivity.
Qed.

(** [ReadPacket] on a header that declares more bytes than the buffer
    holds: a buffer-too-small error, and the buffer is left alone. *)
Lemma ReadPacket_oversize (c : Conn) (buffer : list Z) (b0 b1 ty : Z)
    (rest : list Z) (len : Z) :
  closed c = false → rd c = b0 :: b1 :: ty :: rest →
  tunnel.NtoHs [b0; b1] = Some len → Z.of_nat (length buffer) < len →
  ReadPacket c buffer
  = Val (with_rd c rest, buffer,
         (0, 0, Some (ErrBufferTooSmall (Z.of_nat (length buffer)) len))).
Proof.
  intros Hopen Hrd Hn Hbig. unfold ReadPacket.
  rewrite read_open by exact Hopen. rewrite Hrd.
  cbn [length app Nat.leb firstn skipn mbind exec_bind with_rd].
  rewrite ?drop_0, ?take_0.
  rewrite Hn.
  destruct (Z.gtb_spec len (Z.of_nat (length buffer))) as [_|Hle]; [reflexivity|lia].
Qed.

(** [ReadPacket] on a stream that has ended. *)
Lemma ReadPacket_end (c : Conn) (buffer : list Z) :
  closed c = false → rd c = [] →
  ReadPacket c buffer = Val (c, buffer, (0, 0, Some EOF)).
Proof.
  intros Hopen Hrd. unfold ReadPacket.
  rewrite read_open by exact Hopen. rewrite Hrd.
  cbn [length app Nat.leb firstn skipn mbind exec_bind with_rd].
  rewrite ?drop_0, ?take_0.
  rewrite <- Hrd, with_rd_id. reflexivity.
Qed.

(** [ReadPacket] always returns, and never panics; when it returns no
    error it has taken at least the three header bytes off the stream. *)
Lemma ReadPacket_total (c : Conn) (buffer : list Z) :
  ∃ c' buffer' n ty err,
    ReadPacket c buffer = Val (c', buffer', (n, ty, err))
    ∧ (err = None → length (rd c') + 3 ≤ length (rd c))%nat.
Proof.
  unfold ReadPacket.
  destruct (read_total c [0; 0; 0]) as (c1 & lbuf & e1 & -> & _ & Hl & Hn1).
  cbn [mbind exec_bind].
  destruct e1 as [e|];
    [eexists _, _, _, _, _; split; [reflexivity|discriminate]|].
  specialize (Hn1 eq_refl). cbn [length] in Hn1.
  destruct lbuf as [|b0 [|b1 [|b2 [|]]]]; try discriminate.
  cbn [take tunnel.NtoHs].
  case_match; [eexists _, _, _, _, _; split; [reflexivity|discriminate]|].
  match goal with
  | |- context [read c1 ?d] =>
      destruct (read_total c1 d) as (c2 & part & e2 & -> & _ & _ & Hn2)
  end.
  cbn [mbind exec_bind]. eexists _, _, _, _, _. split; [reflexivity|].
  intros ->. specialize (Hn2 eq_refl). lia.
Qed.

End Packets.

(** C5. WritePacket of a payload of at most 17,000 bytes puts exactly
    the frame [length, big-endian u16 | ty | payload] on the stream, and
    ReadPacket on a stream that starts with this frame returns the
    length, the type and the payload, and leaves the rest of the stream. *)
Theorem C5_frame_round_trip
    (w r : broker.Conn) (ty : Z) (p rest buffer : list Z) :
  Z.of_nat (length p) <= 17000 →
  broker.closed w = false →
  broker.closed r = false →
  broker.rd r = broker.frame ty p ++ rest →
  Z.of_nat (length buffer) = broker.BufferSize →
  broker.frame ty p
    = [Z.of_nat (length p) / 256; Z.of_nat (length p) mod 256; ty] ++ p
  ∧ broker.WritePacket w ty p
    = Val (broker.with_wr w (broker.wr w ++ broker.frame ty p), None)
  ∧ ∃ buffer',
      broker.ReadPacket r buffer
      = Val (broker.with_rd r rest, buffer', (Z.of_nat (length p), ty, None))
      ∧ take (length p) buffer' = p.
Proof.
  intros Hlen Hw Hr Hrd Hbuf. unfold broker.BufferSize in Hbuf.
  split; [|split].
  - unfold broker.frame. rewrite HtoNs_bytes by lia. reflexivity.
  - apply WritePacket_open; [exact Hw|lia].
  - eexists. split.
    + apply ReadPacket_frame; [exact Hr|exact Hrd|lia|lia].
    + apply take_app_length.
Qed.

Lemma C5_frame_round_trip_witness :
  let p := [69; 0; 0; 20] in
  broker.frame 0 p = [0; 4; 0; 69; 0; 0; 20]
  ∧ broker.WritePacket (sample.conn []) 0 p
    = Val (broker.with_wr (sample.conn []) [0; 4; 0; 69; 0; 0; 20], None)
  ∧ ∃ buffer',
      broker.ReadPacket (sample.conn [0; 4; 0; 69; 0; 0; 20; 0; 0; 1])
                        (replicate (Z.to_nat broker.BufferSize) 0)
      = Val (sample.conn [0; 0; 1], buffer', (4, 0, None))
      ∧ take 4 buffer' = p.
Proof.
  intros p.
  exact (C5_frame_round_trip (sample.conn [])
           (sample.conn [0; 4; 0; 69; 0; 0; 20; 0; 0; 1]) 0 p [0; 0; 1]
           (replicate (Z.to_nat broker.BufferSize) 0)
           ltac:(simpl; lia) eq_refl eq_refl eq_refl
           ltac:(rewrite length_replicate; reflexivity)).
Defined.

(** C6. A header that declares more bytes than the receive buffer holds
    makes ReadPacket return a buffer-too-small error with no payload, the
    buffer untouched; WritePacket of a payload of more than 65,535 bytes
    returns an error and writes nothing. *)
Theorem C6_oversize_frames_are_errors
    (r w : broker.Conn) (buffer : list Z) (b0 b1 ty : Z) (rest p : list Z) :
  broker.closed r = false →
  broker.rd r = b0 :: b1 :: ty :: rest →
  0 <= b1 < 256 →
  Z.of_nat (length buffer) < b0 * 256 + b1 →
  65535 < Z.of_nat (length p) →
  (∃ e, broker.ReadPacket r buffer
        = Val (broker.with_rd r rest, buffer, (0, 0, Some e))
        ∧ is_buffer_too_small e = true)
  ∧ (∃ e, broker.WritePacket w ty p = Val (w, Some e)).
Proof.
  intros Hr Hrd Hb1 Hbig Hp. split.
  - eexists. split.
    + apply (ReadPacket_oversize r buffer b0 b1 ty rest (b0 * 256 + b1));
        [exact Hr|exact Hrd|apply NtoHs_value; exact Hb1|exact Hbig].
    + reflexivity.
  - eexists. apply WritePacket_too_large. exact Hp.
Qed.

Lemma C6_oversize_frames_are_errors_witness :
  (∃ e, broker.ReadPacket (sample.conn [78; 32; 0; 69; 0])
                          (replicate (Z.to_nat broker.BufferSize) 0)
        = Val (sample.conn [69; 0], replicate (Z.to_nat broker.BufferSize) 0,
               (0, 0, Some e))
        ∧ is_buffer_too_small e = true)
  ∧ (∃ e, broker.WritePacket (sample.conn []) 0 (replicate (Z.to_nat 65536) 0)
          = Val (sample.conn [], Some e)).
Proof.
  exact (C6_oversize_frames_are_errors
           (sample.conn [78; 32; 0; 69; 0]) (sample.conn [])
           (replicate (Z.to_nat broker.BufferSize) 0) 78 32 0 [69; 0]
           (replicate (Z.to_nat 65536) 0)
           eq_refl eq_refl ltac:(lia)
           ltac:(rewrite length_replicate; vm_compute; reflexivity)
           ltac:(rewrite length_replicate; vm_compute; reflexivity)).
Defined.

(** ** The handshake *)

Section HandshakeProperties.
Import broker.

Variable codec : HelloCodec.
Variable mux : Mux.

(** The handshake always returns: a hello, or an error that wraps the
    read or the write error. *)
Lemma handshake_total (c : Conn) :
  ∃ c' r, handshake codec mux c = Val (c', r)
    ∧ ∀ e, r = inl e → ∃ e', e = ErrHandshake e'.
Proof.
  unfold handshake, writeHello, readHello.
  destruct (WritePacket_total c PACKET_TYPE_HELLO (Data codec (createHello codec mux)))
    as (c1 & werr & -> & _).
  cbn [mbind exec_bind].
  destruct (ReadPacket_total c1 (replicate (Z.to_nat BufferSize) 0))
    as (c2 & buf & n & ty & err & -> & _).
  cbn [mbind exec_bind].
  destruct err as [e|]; cbn [mbind exec_bind].
  - eexists _, _. split; [reflexivity|]. intros ? [= <-]. eauto.
  - destruct (negb (ty =? PACKET_TYPE_HELLO)); cbn [mbind exec_bind].
    + eexists _, _. split; [reflexivity|]. intros ? [= <-]. eauto.
    + destruct (parseHelloPacket codec mux (take (Z.to_nat n) buf)) as [e|h].
      * eexists _, _. split; [reflexivity|]. intros ? [= <-]. eauto.
      * destruct werr as [we|]; eexists _, _; (split; [reflexivity|]).
        -- intros ? [= <-]. eauto.
        -- intros ? [=].
Qed.

End HandshakeProperties.

(** C4 (as amended). Tunnel construction always returns either a tunnel
    or an error. When it returns a tunnel for a hello that is not
    anonymous, the remote cluster IP equals the cluster address of the
    expected link, if one is given, the remote cluster CIDR contains the
    local mesh address and the local mesh CIDR contains the remote
    cluster IP; when one of the three fails, the error is a
    cluster-address mismatch and no tunnel is returned. An anonymous hello
    (cluster IP all zero) is accepted without any of these checks, also
    against an expected link. *)
Theorem C4_tunnel_address_checks
    (codec : broker.HelloCodec) (mux : broker.Mux) (c : broker.Conn)
    (link : option kubelink.Link) :
  ∃ c' t hello err,
    broker.NewTunnelConnection codec mux c link = Val (c', (t, hello, err))
    ∧ (t = None ↔ err ≠ None)
    ∧ (hello = None → t = None)
    ∧ ∀ h, hello = Some h →
        let cidr := broker.GetClusterCIDR codec h in
        let checks :=
          broker.expected_address link cidr
          && broker.foreign_range_has_own mux cidr
          && broker.local_range_has_remote mux cidr in
        (broker.anonymous cidr = true → t ≠ None)
        ∧ (broker.anonymous cidr = false → t ≠ None → checks = true)
        ∧ (broker.anonymous cidr = false → checks = false →
           t = None ∧ ∃ e, err = Some e ∧ is_cluster_address_mismatch e = true).
Proof.
  destruct (handshake_total codec mux c) as (c' & r & Hh & He).
  unfold broker.NewTunnelConnection. rewrite Hh. cbn [mbind exec_bind].
  destruct r as [e|h].
  - eexists _, _, _, _. split; [reflexivity|]. naive_solver.
  - unfold broker.anonymous, broker.expected_address,
      broker.foreign_range_has_own, broker.local_range_has_remote.
    destruct (net.Equal net.IPv6zero
                (net.IPNet_IP (broker.GetClusterCIDR codec h))) eqn:Hanon;
    destruct (net.Contains (broker.GetClusterCIDR codec h)
                (net.IPNet_IP (broker.clusterAddr mux))) eqn:Hown;
    destruct (net.Contains (broker.clusterAddr mux)
                (net.IPNet_IP (broker.GetClusterCIDR codec h))) eqn:Hrem;
    destruct link as [l|];
    try destruct (net.Equal (net.IPNet_IP (kubelink.ClusterAddress l))
                    (net.IPNet_IP (broker.GetClusterCIDR codec h))) eqn:Hexp;
    cbn [negb];
    (eexists _, _, _, _; split; [reflexivity|]);
    (split; [naive_solver|]); (split; [done|]);
    intros h' [= <-]; cbv zeta;
    rewrite Hanon, ?Hexp, ?Hown, ?Hrem; cbn [andb];
    naive_solver.
Qed.

(** C4 as stated fails on the anonymous hello: with an expected link of
    cluster address 192.168.0.12, a peer that sends the all-zero cluster
    address gets a tunnel, although the two addresses differ. The hello
    of a peer at 192.168.0.13 is refused, as scenario S2 says. *)
Lemma C4_counterexample :
  let mux := sample.mux (net.mkIPNet (net.IPv4 192 168 0 11) [255; 255; 255; 0]) in
  let anon := net.mkIPNet net.IPv6zero [0; 0; 0; 0] in
  let other := net.mkIPNet (net.IPv4 192 168 0 13) [255; 255; 255; 0] in
  ∃ link c' t,
    kubelink.LinkFor sample.ext (kubelink.NewLinks 80) sample.link_a = inr link
    ∧ broker.NewTunnelConnection sample.codec mux
        (sample.conn (broker.frame 1 (broker.Data sample.codec anon))) (Some link)
      = Val (c', (Some t, Some anon, None))
    ∧ net.Equal (net.IPNet_IP (kubelink.ClusterAddress link)) (net.IPNet_IP anon)
      = false
    ∧ ∃ c'',
        broker.NewTunnelConnection sample.codec mux
          (sample.conn (broker.frame 1 (broker.Data sample.codec other))) (Some link)
        = Val (c'', (None, Some other,
                     Some (ErrMismatchExpected (net.IPv4 192 168 0 13)
                                               (net.IPv4 192 168 0 12)))).
Proof.
  eexists _, _, _. split; [vm_compute; reflexivity|].
  split; [vm_compute; reflexivity|]. split; [vm_compute; reflexivity|].
  eexists. vm_compute. reflexivity.
Qed.

(** ** The read loop *)

Section ServeProperties.
Import broker frames.

Variable ParseHeader : list Z → option (net.IP * net.IP).
Variable Tun : Type.
Variable tun_Write : Tun → list Z → Tun * Z * option error.
Variable mux : Mux.

Local Abbreviation serve_loop := (broker.serve_loop ParseHeader Tun tun_Write mux).
Local Abbreviation serve := (broker.serve ParseHeader Tun tun_Write mux).
Local Abbreviation deliverable := (frames.deliverable ParseHeader mux).
Local Abbreviation write_all := (frames.write_all Tun tun_Write).
Local Abbreviation outcome := (frames.outcome Tun).

(** One turn of the loop on a stream that starts with a whole frame that
    fits the buffer: the frame is taken off the stream, its payload goes
    to the tun device if it is a deliverable DATA frame, and the loop goes
    on unless the tun device fails. *)
Lemma serve_loop_frame (fuel : nat) (c : Conn) (buffer : list Z) (tun : Tun)
    (ty : Z) (p rest : list Z) :
  closed c = false → rd c = frame ty p ++ rest →
  fits (ty, p) → Z.of_nat (length buffer) = BufferSize →
  serve_loop (S fuel) c buffer tun
  = if deliverable (ty, p) then
      let '(tun', o, err) := tun_Write tun p in
      match err with
      | Some e => Val (with_rd c rest, tun', e)
      | None =>
          if negb (Z.of_nat (length p) =? o) then Panic
          else serve_loop fuel (with_rd c rest) (p ++ drop (length p) buffer) tun'
      end
    else serve_loop fuel (with_rd c rest) (p ++ drop (length p) buffer) tun.
Proof.
  intros Hopen Hrd Hfit Hbuf. unfold fits, BufferSize in *. cbn [fst snd] in Hfit.
  cbn [broker.serve_loop].
  rewrite (ReadPacket_frame c buffer ty p rest) by (try assumption; lia).
  cbn [mbind exec_bind].
  destruct (Z.ltb_spec (Z.of_nat (length p)) 0) as [Hneg|_]; [lia|].
  rewrite bool_decide_eq_false_2 by (intros H; exact (H eq_refl)).
  cbn [orb]. rewrite Nat2Z.id, take_app_length.
  unfold frames.deliverable. cbn [fst snd].
  destruct (Z.eqb_spec (Z.of_nat (length p)) 0) as [H0|H0].
  - assert ((length p =? 0)%nat = true) as -> by (apply Nat.eqb_eq; lia).
    rewrite andb_false_r. reflexivity.
  - assert ((length p =? 0)%nat = false) as -> by (apply Nat.eqb_neq; lia).
    destruct (ty =? PACKET_TYPE_DATA); cbn [negb andb]; [|reflexivity].
    destruct (accepts ParseHeader mux p); cbn [negb]; reflexivity.
Qed.

Lemma length_encode (fs : list (Z * list Z)) :
  (length fs ≤ length (encode fs))%nat.
Proof.
  induction fs as [|f fs IH]; [reflexivity|].
  unfold encode in *. cbn [map concat]. rewrite length_app.
  unfold frame at 1. cbn [tunnel.HtoNs app length]. lia.
Qed.

(** The loop on a stream of whole frames that fit the buffer: the tun
    device receives the payloads of the deliverable DATA frames, in the
    order of arrival, and the loop ends with EOF when the stream ends. *)
Lemma serve_loop_frames (fs : list (Z * list Z)) :
  ∀ (fuel : nat) (c : Conn) (buffer : list Z) (tun : Tun),
    closed c = false → rd c = encode fs → Forall fits fs →
    Z.of_nat (length buffer) = BufferSize → (length fs < fuel)%nat →
    outcome (serve_loop fuel c buffer tun)
    = write_all tun (map snd (List.filter deliverable fs)).
Proof.
  induction fs as [|[ty p] fs IH]; intros fuel c buffer tun Hopen Hrd Hfits Hbuf Hfuel;
    (destruct fuel as [|fuel]; [simpl in Hfuel; lia|]).
  - cbn [broker.serve_loop]. rewrite ReadPacket_end by assumption. reflexivity.
  - inversion Hfits as [|? ? Hfit Hfits']; subst.
    change (encode ((ty, p) :: fs)) with (frame ty p ++ encode fs) in Hrd.
    rewrite (serve_loop_frame fuel c buffer tun ty p (encode fs)) by assumption.
    assert (Z.of_nat (length (p ++ drop (length p) buffer)) = BufferSize) as Hbuf'.
    { unfold fits, BufferSize in *. cbn [snd] in Hfit.
      rewrite length_app, length_drop. lia. }
    cbn [List.filter]. simpl in Hfuel.
    destruct (deliverable (ty, p)).
    + cbn [map snd frames.write_all].
      destruct (tun_Write tun p) as [[tun' o] [e|]]; [reflexivity|].
      destruct (negb (Z.of_nat (length p) =? o)); [reflexivity|].
      apply IH; try assumption; try reflexivity. lia.
    + apply IH; try assumption; try reflexivity. lia.
Qed.

Lemma serve_frames (fs : list (Z * list Z)) (c : Conn) (tun : Tun) :
  closed c = false → Forall fits fs →
  outcome (serve (with_rd c (encode fs)) tun)
  = write_all tun (map snd (List.filter deliverable fs)).
Proof.
  intros Hopen Hfits. unfold broker.serve.
  apply serve_loop_frames.
  - exact Hopen.
  - reflexivity.
  - exact Hfits.
  - rewrite length_replicate. apply Z2Nat.id. unfold BufferSize. lia.
  - cbn [rd with_rd]. pose proof (length_encode fs). lia.
Qed.

(** On any stream, whole frames or not, the loop returns or panics (on a
    short write of the tun device): the fuel of [serve] is enough. *)
Lemma serve_loop_returns (fuel : nat) :
  ∀ (c : Conn) (buffer : list Z) (tun : Tun),
    (length (rd c) < fuel)%nat → serve_loop fuel c buffer tun ≠ NoFuel.
Proof.
  induction fuel as [|fuel IH]; intros c buffer tun Hfuel; [lia|].
  cbn [broker.serve_loop].
  destruct (ReadPacket_total c buffer) as (c' & buffer' & n & ty & err & -> & Hn).
  cbn [mbind exec_bind].
  destruct err as [e|].
  - rewrite bool_decide_eq_true_2 by discriminate. rewrite orb_true_r. discriminate.
  - specialize (Hn eq_refl).
    assert (length (rd c') < fuel)%nat as Hfuel' by lia.
    rewrite bool_decide_eq_false_2 by (intros H; exact (H eq_refl)).
    destruct (n <? 0); cbn [orb]; [discriminate|].
    destruct (n =? 0); [apply IH, Hfuel'|].
    destruct (negb (ty =? PACKET_TYPE_DATA)); [apply IH, Hfuel'|].
    destruct (negb (accepts ParseHeader mux (take (Z.to_nat n) buffer')));
      [apply IH, Hfuel'|].
    destruct (tun_Write tun (take (Z.to_nat n) buffer')) as [[tun' o] [e|]];
      [discriminate|].
    destruct (negb (n =? o)); [discriminate|apply IH, Hfuel'].
Qed.

Lemma serve_returns (c : Conn) (tun : Tun) : serve c tun ≠ NoFuel.
Proof.
  unfold broker.serve. apply serve_loop_returns. lia.
Qed.

(** A frame that is not a DATA frame is not deliverable. *)
Lemma filter_skips_non_DATA (pre post : list (Z * list Z)) (ty : Z) (p : list Z) :
  ty ≠ PACKET_TYPE_DATA →
  List.filter deliverable (pre ++ (ty, p) :: post)
  = List.filter deliverable (pre ++ post).
Proof.
  intros Hty. rewrite !List.filter_app. cbn [List.filter].
  unfold frames.deliverable at 2. cbn [fst].
  destruct (Z.eqb_spec ty PACKET_TYPE_DATA) as [Heq|_]; [contradiction|].
  reflexivity.
Qed.

End ServeProperties.

(** C7 (as amended). For every received frame whose type is not DATA and
    whose payload fits the 17,000-byte buffer, the read loop takes the
    whole frame off the stream and goes on with the bytes behind it, the
    tun device untouched; on a stream of frames that fit the buffer, the
    loop behaves as if the frame were not there, and the tun device
    receives the payloads of the deliverable DATA frames before and after
    it in their order of arrival. *)
Theorem C7_non_DATA_frame_is_skipped
    (ParseHeader : list Z → option (net.IP * net.IP))
    (Tun : Type) (tun_Write : Tun → list Z → Tun * Z * option error)
    (mux : broker.Mux) (c : broker.Conn) (tun : Tun) (fuel : nat)
    (buffer : list Z) (pre post : list (Z * list Z))
    (ty : Z) (p rest : list Z) :
  broker.closed c = false →
  ty ≠ broker.PACKET_TYPE_DATA →
  frames.fits (ty, p) → Forall frames.fits pre → Forall frames.fits post →
  Z.of_nat (length buffer) = broker.BufferSize →
  broker.rd c = broker.frame ty p ++ rest →
  broker.serve_loop ParseHeader Tun tun_Write mux (S fuel) c buffer tun
  = broker.serve_loop ParseHeader Tun tun_Write mux fuel
      (broker.with_rd c rest) (p ++ drop (length p) buffer) tun
  ∧ frames.outcome Tun
      (broker.serve ParseHeader Tun tun_Write mux
         (broker.with_rd c (frames.encode (pre ++ (ty, p) :: post))) tun)
    = frames.outcome Tun
        (broker.serve ParseHeader Tun tun_Write mux
           (broker.with_rd c (frames.encode (pre ++ post))) tun)
  ∧ frames.outcome Tun
      (broker.serve ParseHeader Tun tun_Write mux
         (broker.with_rd c (frames.encode (pre ++ (ty, p) :: post))) tun)
    = frames.write_all Tun tun_Write tun
        (map snd (List.filter (frames.deliverable ParseHeader mux) (pre ++ post))).
Proof.
  intros Hopen Hty Hfit Hpre Hpost Hbuf Hrd.
  assert (Forall frames.fits (pre ++ (ty, p) :: post)) as Hall
    by (apply Forall_app; split; [exact Hpre|constructor; assumption]).
  assert (Forall frames.fits (pre ++ post)) as Hall'
    by (apply Forall_app; split; assumption).
  split; [|split].
  - rewrite (serve_loop_frame ParseHeader Tun tun_Write mux fuel c buffer tun
               ty p rest) by assumption.
    unfold frames.deliverable. cbn [fst].
    destruct (Z.eqb_spec ty broker.PACKET_TYPE_DATA) as [Heq|_]; [contradiction|].
    reflexivity.
  - rewrite !serve_frames by assumption.
    rewrite filter_skips_non_DATA by exact Hty. reflexivity.
  - rewrite serve_frames by assumption.
    rewrite filter_skips_non_DATA by exact Hty. reflexivity.
Qed.

(** Scenario S5: a frame of type 7 with the payload 00 00 00 00 between
    two DATA frames. *)
Lemma C7_non_DATA_frame_is_skipped_witness :
  frames.outcome (list (list Z))
    (broker.serve sample.ParseHeader (list (list Z)) broker.log_Write
       (sample.mux (net.mkIPNet (net.IPv4 192 168 0 11) [255; 255; 255; 0]))
       (broker.with_rd (sample.conn (broker.frame 7 [0; 0; 0; 0]))
          (frames.encode ([(0, [96; 1])] ++ (7, [0; 0; 0; 0]) :: [(0, [96; 2])])))
       [])
  = Val ([[96; 1]; [96; 2]], EOF).
Proof.
  refine (eq_trans
            (proj2 (proj2
               (C7_non_DATA_frame_is_skipped sample.ParseHeader (list (list Z))
                  broker.log_Write
                  (sample.mux (net.mkIPNet (net.IPv4 192 168 0 11) [255; 255; 255; 0]))
                  (sample.conn (broker.frame 7 [0; 0; 0; 0])) [] 0%nat
                  (replicate (Z.to_nat broker.BufferSize) 0)
                  [(0, [96; 1])] [(0, [96; 2])] 7 [0; 0; 0; 0] []
                  eq_refl _ _ _ _ _ _))) _).
  - discriminate.
  - unfold frames.fits, broker.BufferSize; simpl; lia.
  - repeat constructor; unfold frames.fits, broker.BufferSize; simpl; lia.
  - repeat constructor; unfold frames.fits, broker.BufferSize; simpl; lia.
  - rewrite length_replicate. reflexivity.
  - vm_compute. reflexivity.
  - vm_compute. reflexivity.
Defined.

(** C7 as stated fails on a frame that is not a DATA frame and declares
    more than 17,000 bytes: the loop ends with the frame still on the
    stream, and the DATA frame behind it never reaches the tun device. *)
Lemma C7_counterexample :
  let mux := sample.mux (net.mkIPNet (net.IPv4 192 168 0 11) [255; 255; 255; 0]) in
  let run := fun fs =>
    frames.outcome (list (list Z))
      (broker.serve sample.ParseHeader (list (list Z)) broker.log_Write mux
         (sample.conn (frames.encode fs)) []) in
  run [(0, [96; 1]); (7, replicate (Z.to_nat 20000) 0); (0, [96; 2])]
    = Val ([[96; 1]], EOF)
  ∧ run [(0, [96; 1]); (0, [96; 2])] = Val ([[96; 1]; [96; 2]], EOF).
Proof.
  split; vm_compute; reflexivity.
Qed.

(** * Further properties of the code *)

(** The cases of a call of [LinkFor] that returned a link. *)
Ltac LinkFor_cases H :=
  unfold kubelink.LinkFor in H;
  repeat match type of H with
         | (match ?x with _ => _ end) = _ => destruct x eqn:?; try discriminate H
         | (if ?x then _ else _) = _ => destruct x eqn:?; try discriminate H
         | (let (_, _) := ?x in _) = _ => destruct x eqn:?
         end;
  simplify_eq/=.

(** ** Byte order *)

Lemma land_below_shiftl (a b k : Z) :
  0 <= k → 0 <= a < 2 ^ k → Z.land a (Z.shiftl b k) = 0.
Proof.
  intros Hk Ha. apply Z.bits_inj'. intros i Hi.
  rewrite Z.land_spec, Z.bits_0.
  destruct (Z_lt_dec i k) as [Hlt|Hge].
  - rewrite (Z.shiftl_spec_low b k i) by lia. apply andb_false_r.
  - rewrite <- (Z.mod_small a (2 ^ k)) by lia.
    rewrite Z.mod_pow2_bits_high by lia. reflexivity.
Qed.

Lemma lor_shiftl_add (a b k : Z) :
  0 <= k → 0 <= a < 2 ^ k → Z.lor a (Z.shiftl b k) = a + b * 2 ^ k.
Proof.
  intros Hk Ha.
  rewrite <- Z.lxor_lor, <- Z.add_nocarry_lxor by (apply land_below_shiftl; lia).
  rewrite Z.shiftl_mul_pow2 by lia. reflexivity.
Qed.

Lemma NtoHl_value (b0 b1 b2 b3 : Z) (l : list Z) :
  more.byte b1 → more.byte b2 → more.byte b3 →
  tunnel.NtoHl (b0 :: b1 :: b2 :: b3 :: l)
  = Some (b0 * 16777216 + b1 * 65536 + b2 * 256 + b3).
Proof.
  unfold more.byte. intros H1 H2 H3. unfold tunnel.NtoHl. f_equal.
  rewrite (lor_shiftl_add b3 b2 8) by (simpl; lia).
  rewrite (lor_shiftl_add _ b1 16) by (simpl; lia).
  rewrite (lor_shiftl_add _ b0 24) by (simpl; lia).
  change (2 ^ 8) with 256. change (2 ^ 16) with 65536.
  change (2 ^ 24) with 16777216. lia.
Qed.

(** X1. HtoNs and NtoHs are inverse to each other: the two bytes HtoNs
    writes for a 16-bit value are bytes and NtoHs reads the value back
    from them, whatever follows in the buffer; and the value NtoHs reads
    from two bytes is a 16-bit value that HtoNs writes as these bytes. *)
Theorem X1_HtoNs_NtoHs_inverse (v b0 b1 : Z) (rest : list Z) :
  0 <= v < 65536 → more.byte b0 → more.byte b1 →
  tunnel.NtoHs (tunnel.HtoNs v ++ rest) = Some v
  ∧ Forall more.byte (tunnel.HtoNs v)
  ∧ ∃ w, tunnel.NtoHs (b0 :: b1 :: rest) = Some w
         ∧ 0 <= w < 65536 ∧ tunnel.HtoNs w = [b0; b1].
Proof.
  unfold more.byte. intros Hv H0 H1. split; [apply NtoHs_HtoNs; exact Hv|]. split.
  - unfold tunnel.HtoNs. repeat constructor; apply Z.mod_pos_bound; lia.
  - exists (b0 * 256 + b1). split; [apply NtoHs_value; lia|]. split; [lia|].
    rewrite HtoNs_bytes by lia. f_equal; [|f_equal].
    + symmetry. apply (Z.div_unique_pos _ 256 b0 b1); lia.
    + symmetry. apply (Z.mod_unique_pos _ 256 b0 b1); lia.
Qed.

Lemma X1_HtoNs_NtoHs_inverse_witness :
  tunnel.NtoHs (tunnel.HtoNs 17000 ++ [0]) = Some 17000
  ∧ Forall more.byte (tunnel.HtoNs 17000)
  ∧ ∃ w, tunnel.NtoHs [66; 104; 0] = Some w
         ∧ 0 <= w < 65536 ∧ tunnel.HtoNs w = [66; 104].
Proof.
  apply (X1_HtoNs_NtoHs_inverse 17000 66 104 [0]); unfold more.byte; lia.
Defined.

(** X2. HtoNl and NtoHl are inverse to each other: the four bytes HtoNl
    writes for a 32-bit value are bytes and NtoHl reads the value back
    from them, whatever follows in the buffer; and the value NtoHl reads
    from four bytes is a 32-bit value that HtoNl writes as these bytes. *)
Theorem X2_HtoNl_NtoHl_inverse (v b0 b1 b2 b3 : Z) (rest : list Z) :
  0 <= v < 4294967296 →
  more.byte b0 → more.byte b1 → more.byte b2 → more.byte b3 →
  tunnel.NtoHl (tunnel.HtoNl v ++ rest) = Some v
  ∧ Forall more.byte (tunnel.HtoNl v)
  ∧ ∃ w, tunnel.NtoHl (b0 :: b1 :: b2 :: b3 :: rest) = Some w
         ∧ 0 <= w < 4294967296 ∧ tunnel.HtoNl w = [b0; b1; b2; b3].
Proof.
  unfold more.byte. intros Hv H0 H1 H2 H3.
  assert (∀ x, 0 <= x < 4294967296 →
            tunnel.HtoNl x
            = [x / 16777216 mod 256; x / 65536 mod 256; x / 256 mod 256; x mod 256])
    as Hbytes.
  { intros x Hx. unfold tunnel.HtoNl. rewrite !Z.shiftr_div_pow2 by lia.
    reflexivity. }
  split; [|split].
  - rewrite Hbytes by exact Hv. cbn [app].
    rewrite NtoHl_value by (unfold more.byte; apply Z.mod_pos_bound; lia).
    f_equal. Z.to_euclidean_division_equations. lia.
  - rewrite Hbytes by exact Hv.
    repeat constructor; apply Z.mod_pos_bound; lia.
  - exists (b0 * 16777216 + b1 * 65536 + b2 * 256 + b3).
    split; [apply NtoHl_value; unfold more.byte; lia|]. split; [lia|].
    rewrite Hbytes by lia.
    f_equal; [|f_equal; [|f_equal; [|f_equal]]];
      Z.to_euclidean_division_equations; lia.
Qed.

Lemma X2_HtoNl_NtoHl_inverse_witness :
  tunnel.NtoHl (tunnel.HtoNl 3232235531 ++ []) = Some 3232235531
  ∧ Forall more.byte (tunnel.HtoNl 3232235531)
  ∧ ∃ w, tunnel.NtoHl [192; 168; 0; 11] = Some w
         ∧ 0 <= w < 4294967296 ∧ tunnel.HtoNl w = [192; 168; 0; 11].
Proof.
  apply (X2_HtoNl_NtoHl_inverse 3232235531 192 168 0 11 []); unfold more.byte; lia.
Defined.

(** ** Address arithmetic *)

(** The loop of [BroadcastAddress] in closed form. *)
Lemma and_prefix_spec (ip mask : list Z) :
  tunnel.and_prefix ip mask
  = if (length mask <=? length ip)%nat
    then Some (zip_with Z.land ip mask ++ drop (length mask) ip)
    else None.
Proof.
  revert ip. induction mask as [|b mask IH]; intros ip.
  - destruct ip; reflexivity.
  - destruct ip as [|x ip]; [reflexivity|].
    cbn [tunnel.and_prefix length zip_with drop app]. rewrite IH.
    change (S (length mask) <=? S (length ip))%nat
      with (length mask <=? length ip)%nat.
    destruct (length mask <=? length ip)%nat; reflexivity.
Qed.

(** X3. BroadcastAddress panics exactly when the mask is longer than the
    address. Otherwise the result has the length of the address: its
    first bytes, as many as the mask has, are those of the address ANDed
    with the mask, and the bytes behind them are those of the address. *)
Theorem X3_BroadcastAddress_lengths (n : net.IPNet) :
  (tunnel.BroadcastAddress n = None
   ↔ (length (net.IPNet_IP n) < length (net.IPNet_Mask n))%nat)
  ∧ ∀ ip, tunnel.BroadcastAddress n = Some ip →
      length ip = length (net.IPNet_IP n)
      ∧ drop (length (net.IPNet_Mask n)) ip
        = drop (length (net.IPNet_Mask n)) (net.IPNet_IP n)
      ∧ take (length (net.IPNet_Mask n)) ip
        = zip_with Z.land (net.IPNet_IP n) (net.IPNet_Mask n).
Proof.
  unfold tunnel.BroadcastAddress. rewrite and_prefix_spec.
  destruct (Nat.leb_spec (length (net.IPNet_Mask n)) (length (net.IPNet_IP n)))
    as [Hle|Hgt].
  - split; [split; [discriminate|lia]|]. intros ip [= <-].
    assert (length (zip_with Z.land (net.IPNet_IP n) (net.IPNet_Mask n))
            = length (net.IPNet_Mask n)) as Hz
      by (rewrite length_zip_with; lia).
    split; [rewrite length_app, length_drop, Hz; lia|]. split.
    + rewrite <- Hz at 1. apply drop_app_length.
    + rewrite <- Hz at 1. apply take_app_length.
  - split; [split; [lia|reflexivity]|]. discriminate.
Qed.

Lemma X3_BroadcastAddress_lengths_witness :
  let n := net.mkIPNet (net.IPv4 192 168 0 11) [255; 255; 255; 0] in
  length (net.IPv4 192 168 0 11) = length (net.IPNet_IP n)
  ∧ drop 4 (net.IPv4 192 168 0 11) = drop 4 (net.IPNet_IP n)
  ∧ take 4 (net.IPv4 192 168 0 11) = [0; 0; 0; 0].
Proof.
  intros n.
  exact (proj2 (X3_BroadcastAddress_lengths n) (net.IPv4 192 168 0 11) eq_refl).
Defined.

(** [SubIP] walks the address from its last byte. *)
Lemma be_value_app (l : list Z) (b : Z) :
  more.be_value (l ++ [b]) = more.be_value l * 256 + b.
Proof. unfold more.be_value. rewrite foldl_app. reflexivity. Qed.

Lemma be_value_reverse (l : list Z) : more.be_value (reverse l) = more.le_value l.
Proof.
  induction l as [|b l IH]; [reflexivity|].
  rewrite reverse_cons, be_value_app, IH. simpl. lia.
Qed.

Lemma le_value_bound (l : list Z) :
  Forall more.byte l → 0 <= more.le_value l < 256 ^ Z.of_nat (length l).
Proof.
  induction 1 as [|b l Hb _ IH]; [simpl; lia|].
  unfold more.byte in Hb. cbn [more.le_value length].
  rewrite Nat2Z.inj_succ, Z.pow_succ_r by lia. lia.
Qed.

(** The loop of [SubIP] adds [n] to the number the reversed address
    spells, and fails when a carry is left at the end. *)
Lemma SubIP_loop_spec (rip : list Z) :
  ∀ n, Forall more.byte rip → 0 <= n →
    if more.le_value rip + n <? 256 ^ Z.of_nat (length rip)
    then ∃ rip', tcp.SubIP_loop n rip = Some rip'
           ∧ length rip' = length rip ∧ Forall more.byte rip'
           ∧ more.le_value rip' = more.le_value rip + n
    else tcp.SubIP_loop n rip = None.
Proof.
  induction rip as [|b rip IH]; intros n Hall Hn.
  - cbn [more.le_value length]. change (256 ^ Z.of_nat 0) with 1.
    destruct (Z.ltb_spec (0 + n) 1) as [H1|H1].
    + assert (n = 0) as -> by lia. exists []. repeat split; constructor.
    + cbn [tcp.SubIP_loop]. destruct (Z.gtb_spec n 0); [reflexivity|lia].
  - inversion Hall as [|? ? Hb Hall']; subst. unfold more.byte in Hb.
    pose proof (le_value_bound rip Hall') as Hbound.
    cbn [more.le_value length]. rewrite Nat2Z.inj_succ, Z.pow_succ_r by lia.
    cbn [tcp.SubIP_loop]. destruct (Z.gtb_spec n 0) as [Hpos|Hzero].
    + specialize (IH ((n + b) / 256) Hall' ltac:(apply Z.div_pos; lia)).
      pose proof (Z.div_mod (n + b) 256 ltac:(lia)) as Hdm.
      pose proof (Z.mod_pos_bound (n + b) 256 ltac:(lia)) as Hmod.
      destruct (Z.ltb_spec (more.le_value rip + (n + b) / 256)
                  (256 ^ Z.of_nat (length rip))) as [Hfit|Hover].
      * destruct IH as (rip' & -> & Hlen & Hall'' & Hval).
        destruct (Z.ltb_spec (b + 256 * more.le_value rip + n)
                    (256 * 256 ^ Z.of_nat (length rip))) as [_|Hbad]; [|lia].
        eexists. split; [reflexivity|]. cbn [length more.le_value].
        split; [congruence|]. split; [constructor; [exact Hmod|exact Hall'']|].
        rewrite Hval. lia.
      * rewrite IH.
        destruct (Z.ltb_spec (b + 256 * more.le_value rip + n)
                    (256 * 256 ^ Z.of_nat (length rip))) as [Hbad|_]; [lia|].
        reflexivity.
    + assert (n = 0) as -> by lia.
      destruct (Z.ltb_spec (b + 256 * more.le_value rip + 0)
                  (256 * 256 ^ Z.of_nat (length rip))) as [_|Hbad]; [|lia].
      eexists. split; [reflexivity|]. split; [reflexivity|].
      split; [exact Hall|]. cbn [more.le_value]. lia.
Qed.



(** ** Addresses and networks of package [net] *)

Section NetFacts.
Import net.

Lemma bytes_eqb_eq (a b : list Z) : bytes_eqb a b = true ↔ a = b.
Proof. unfold bytes_eqb. apply bool_decide_eq_true. Qed.

Lemma bytes_eqb_refl (a : list Z) : bytes_eqb a a = true.
Proof. apply bytes_eqb_eq. reflexivity. Qed.

Lemma isZeros_replicate (p : list Z) : isZeros p = true ↔ p = replicate (length p) 0.
Proof.
  induction p as [|x p IH]; [done|]. cbn [isZeros forallb length replicate].
  rewrite andb_true_iff, Z.eqb_eq. fold (isZeros p). rewrite IH.
  split; [intros [<- <-]; reflexivity|intros [= <- Hp]; split; [reflexivity|exact Hp]].
Qed.

(** The test of [To4] on a 16-byte address says that the address starts
    with the IPv4-in-IPv6 prefix. *)
Lemma v4_prefix_test (ip : list Z) :
  length ip = 16%nat →
  isZeros (take 10 ip) && bytes_eqb (take 2 (drop 10 ip)) [255; 255] = true
  ↔ take 12 ip = v4InV6Prefix.
Proof.
  intros Hlen.
  do 16 (destruct ip as [|? ip]; [discriminate|]). destruct ip; [|discriminate].
  cbn [take drop firstn skipn]. rewrite andb_true_iff, isZeros_replicate, bytes_eqb_eq.
  cbn [length replicate]. unfold v4InV6Prefix.
  split; [intros [[= -> -> -> -> -> -> -> -> -> ->] [= -> ->]]; reflexivity|].
  intros [= -> -> -> -> -> -> -> -> -> -> -> ->]. split; reflexivity.
Qed.

(** The three shapes of an address for [To4]. *)
Lemma To4_cases (x : IP) :
  (length x = 4%nat ∧ To4 x = x)
  ∨ (length x = 16%nat ∧ take 12 x = v4InV6Prefix ∧ To4 x = drop 12 x)
  ∨ (length x ≠ 4%nat ∧ To4 x = [] ∧ ¬ (length x = 16%nat ∧ take 12 x = v4InV6Prefix)).
Proof.
  unfold To4, IPv4len, IPv6len.
  destruct (Nat.eqb_spec (length x) 4) as [H4|H4]; [left; done|].
  right. destruct (Nat.eqb_spec (length x) 16) as [H16|H16]; cbn [andb].
  - destruct (isZeros (take 10 x) && bytes_eqb (take 2 (drop 10 x)) [255; 255])
      eqn:Ht.
    + left. apply v4_prefix_test in Ht; [|exact H16]. done.
    + right. split; [exact H4|]. split; [reflexivity|].
      intros [_ Hp]. apply v4_prefix_test in Hp; [|exact H16]. congruence.
  - right. split; [exact H4|]. split; [reflexivity|]. intros [? _]. contradiction.
Qed.

Lemma IP_String_cases (x : IP) :
  (length x = 4%nat ∧ IP_String x = x)
  ∨ (length x = 16%nat ∧ take 12 x = v4InV6Prefix ∧ IP_String x = drop 12 x)
  ∨ (length x ≠ 4%nat ∧ ¬ (length x = 16%nat ∧ take 12 x = v4InV6Prefix)
     ∧ IP_String x = x).
Proof.
  unfold IP_String, IPv4len.
  destruct (To4_cases x) as [[H ->]|[(H & Hp & ->)|(H & -> & Hn)]].
  - left. rewrite H. done.
  - right; left. rewrite length_drop, H. done.
  - right; right. done.
Qed.

(** [Equal] is equality of the [String] keys. *)
Lemma Equal_IP_String (a b : IP) : Equal a b = true ↔ IP_String a = IP_String b.
Proof.
  destruct (IP_String_cases a) as [(La & ->)|[(La & Pa & ->)|(La & Na & ->)]];
  destruct (IP_String_cases b) as [(Lb & ->)|[(Lb & Pb & ->)|(Lb & Nb & ->)]];
  unfold Equal, IPv4len, IPv6len;
  repeat match goal with
         | |- context [Nat.eqb ?x ?y] => destruct (Nat.eqb_spec x y); try lia
         end;
  cbn [andb]; rewrite ?andb_true_iff, ?bytes_eqb_eq;
  (split; [intros H|intros H]);
  repeat match goal with
         | H : _ ∧ _ |- _ => destruct H
         | H : false = true |- _ => discriminate H
         end;
  try done;
  try (subst; done);
  try (exfalso; subst; first [apply Na; done | apply Nb; done]);
  try (exfalso;
       match goal with
       | H : _ = _ :> list Z |- _ =>
           apply (f_equal length) in H; rewrite ?length_drop in H; lia
       end).
  - rewrite <- (take_drop 12 a), <- (take_drop 12 b). congruence.
Qed.

Lemma Equal_refl (a : IP) : Equal a a = true.
Proof. apply Equal_IP_String. reflexivity. Qed.

Lemma same_masked_land (nn m ip : list Z) :
  same_masked (zip_with Z.land nn m) m ip = same_masked nn m ip.
Proof.
  revert m ip. induction nn as [|a nn IH]; intros [|b m] [|c ip]; try reflexivity.
  cbn [zip_with same_masked]. rewrite IH, <- Z.land_assoc, Z.land_diag. reflexivity.
Qed.

Lemma same_masked_refl (nn m : list Z) : same_masked nn m nn = true.
Proof.
  revert m. induction nn as [|a nn IH]; intros [|b m]; try reflexivity.
  cbn [same_masked]. rewrite Z.eqb_refl, IH. reflexivity.
Qed.

Lemma zip_land_idemp (ip m : list Z) :
  zip_with Z.land (zip_with Z.land ip m) m = zip_with Z.land ip m.
Proof.
  revert m. induction ip as [|a ip IH]; intros [|b m]; try reflexivity.
  cbn [zip_with]. rewrite IH, <- Z.land_assoc, Z.land_diag. reflexivity.
Qed.

(** An IPv4 network is compared by its 4-byte address and its mask. *)
Lemma networkNumberAndMask_v4 (n : IPNet) :
  more.IPv4net n → networkNumberAndMask n = (To4 (IPNet_IP n), IPNet_Mask n).
Proof.
  intros [Hm H4]. unfold networkNumberAndMask, IPv4len, IPv6len.
  rewrite H4, Hm. cbn [Nat.eqb andb]. rewrite H4. reflexivity.
Qed.

Lemma Mask_v4 (n : IPNet) :
  more.IPv4net n →
  Mask (IPNet_IP n) (IPNet_Mask n) = zip_with Z.land (To4 (IPNet_IP n)) (IPNet_Mask n).
Proof.
  intros [Hm H4].
  destruct (To4_cases (IPNet_IP n)) as [[H E]|[(H & Hp & E)|(H & E & _)]].
  - rewrite E. apply Mask_same_length. lia.
  - rewrite E. unfold Mask, IPv4len, IPv6len. rewrite Hm, H. cbn [Nat.eqb andb].
    rewrite Hp, bytes_eqb_refl, Hm. cbn [Nat.eqb andb].
    rewrite length_drop, H. reflexivity.
  - rewrite E in H4. discriminate.
Qed.

Lemma CIDRNet_v4 (n : IPNet) :
  more.IPv4net n → more.IPv4net (tcp.CIDRNet n).
Proof.
  intros Hn. pose proof Hn as [Hm H4]. unfold tcp.CIDRNet, more.IPv4net.
  cbn [IPNet_IP IPNet_Mask]. split; [exact Hm|]. rewrite Mask_v4 by exact Hn.
  assert (length (zip_with Z.land (To4 (IPNet_IP n)) (IPNet_Mask n)) = 4%nat) as Hl
    by (rewrite length_zip_with; lia).
  destruct (To4_cases (zip_with Z.land (To4 (IPNet_IP n)) (IPNet_Mask n)))
    as [[_ ->]|[(H & _)|(H & _)]]; [exact Hl|lia|lia].
Qed.

End NetFacts.

(** [CIDRNet] of an IPv4 network is the 4-byte network base. *)
Lemma To4_masked_v4 (n : net.IPNet) :
  more.IPv4net n →
  net.To4 (zip_with Z.land (net.To4 (net.IPNet_IP n)) (net.IPNet_Mask n))
  = zip_with Z.land (net.To4 (net.IPNet_IP n)) (net.IPNet_Mask n).
Proof.
  intros [Hm H4].
  assert (length (zip_with Z.land (net.To4 (net.IPNet_IP n)) (net.IPNet_Mask n))
          = 4%nat) as Hl by (rewrite length_zip_with; lia).
  destruct (To4_cases (zip_with Z.land (net.To4 (net.IPNet_IP n)) (net.IPNet_Mask n)))
    as [[_ ->]|[(H & _)|(H & _)]]; [reflexivity|lia|lia].
Qed.

Lemma Contains_CIDRNet (n : net.IPNet) :
  more.IPv4net n → ∀ ip, net.Contains (tcp.CIDRNet n) ip = net.Contains n ip.
Proof.
  intros Hn ip. pose proof Hn as [Hm H4].
  pose proof (CIDRNet_v4 n Hn) as Hn'.
  assert (length (zip_with Z.land (net.To4 (net.IPNet_IP n)) (net.IPNet_Mask n))
          = 4%nat) as Hl by (rewrite length_zip_with; lia).
  unfold net.Contains.
  rewrite (networkNumberAndMask_v4 _ Hn'), (networkNumberAndMask_v4 _ Hn).
  unfold tcp.CIDRNet. cbn [net.IPNet_IP net.IPNet_Mask].
  rewrite Mask_v4 by exact Hn.
  rewrite (To4_masked_v4 n Hn), Hl, H4, same_masked_land. reflexivity.
Qed.

Lemma Contains_own_IP (n : net.IPNet) :
  more.IPv4net n → net.Contains n (net.IPNet_IP n) = true.
Proof.
  intros Hn. pose proof Hn as [Hm H4].
  unfold net.Contains. rewrite (networkNumberAndMask_v4 _ Hn), H4.
  cbn [Nat.eqb]. rewrite H4. cbn [Nat.eqb]. apply same_masked_refl.
Qed.

(** X5. On an IPv4 network CIDRNet keeps the range: the result contains
    the same addresses as the argument, among them the address of the
    argument itself, and applying CIDRNet a second time changes
    nothing. *)
Theorem X5_CIDRNet_same_range (n : net.IPNet) :
  more.IPv4net n →
  (∀ ip, net.Contains (tcp.CIDRNet n) ip = net.Contains n ip)
  ∧ net.Contains n (net.IPNet_IP n) = true
  ∧ net.Contains (tcp.CIDRNet n) (net.IPNet_IP n) = true
  ∧ tcp.CIDRNet (tcp.CIDRNet n) = tcp.CIDRNet n.
Proof.
  intros Hn. pose proof Hn as [Hm H4].
  split; [exact (Contains_CIDRNet n Hn)|]. split; [exact (Contains_own_IP n Hn)|].
  split; [rewrite (Contains_CIDRNet n Hn); exact (Contains_own_IP n Hn)|].
  assert (length (zip_with Z.land (net.To4 (net.IPNet_IP n)) (net.IPNet_Mask n))
          = 4%nat) as Hl by (rewrite length_zip_with; lia).
  unfold tcp.CIDRNet. cbn [net.IPNet_IP net.IPNet_Mask]. f_equal.
  rewrite Mask_v4 by exact Hn. rewrite Mask_same_length by lia.
  apply zip_land_idemp.
Qed.

Lemma X5_CIDRNet_same_range_witness :
  let n := net.mkIPNet (net.IPv4 192 168 0 11) [255; 255; 255; 0] in
  (∀ ip, net.Contains (tcp.CIDRNet n) ip = net.Contains n ip)
  ∧ net.Contains n (net.IPv4 192 168 0 11) = true
  ∧ net.Contains (tcp.CIDRNet n) (net.IPv4 192 168 0 11) = true
  ∧ tcp.CIDRNet (tcp.CIDRNet n) = tcp.CIDRNet n.
Proof.
  intros n. exact (X5_CIDRNet_same_range n (conj eq_refl eq_refl)).
Defined.

(** ** The indices of the registry *)

Section RegistryMore.
Import kubelink registry.

Variable ext : Externals.

(** The registry that [updateLink] leaves, spelled out. *)
Lemma updateLink_maps (this : Links) (k : KubeLink) (l0 : Link) :
  LinkFor ext this k = inr l0 →
  let l := with_ForeignData l0
             (default (ForeignData l0) (ForeignData <$> links this !! kl_Name k)) in
  let es := match links this !! kl_Name k with
            | Some old => if negb (String.eqb (Host old) (Host l0))
                          then delete (Host old) (endpoints this) else endpoints this
            | None => endpoints this
            end in
  let cs := match links this !! kl_Name k with
            | Some old =>
                if negb (net.Equal (net.IPNet_IP (ClusterAddress old))
                                   (net.IPNet_IP (ClusterAddress l0)))
                then delete (net.IP_String (net.IPNet_IP (ClusterAddress old)))
                            (clusteraddr this)
                else clusteraddr this
            | None => clusteraddr this
            end in
  updateLink ext this k
  = (mkLinks (defaultport this) (<[kl_Name k := l]> (links this))
             (<[Host l0 := l]> es)
             (<[net.IP_String (net.IPNet_IP (ClusterAddress l0)) := l]> cs),
     inr l).
Proof.
  intros Hp. destruct (LinkFor_inr _ _ _ _ Hp) as [Hn _].
  unfold updateLink. rewrite Hp.
  destruct (links this !! kl_Name k) as [old|]; cbn [default fmap option_fmap option_map].
  - unfold replaceLink. cbn. rewrite Hn. reflexivity.
  - unfold replaceLink. rewrite Hn. destruct l0; reflexivity.
Qed.

Lemma lookup_by_address (this : Links) (ip ip' : net.IP) :
  net.Equal ip ip' = true →
  GetLinkForClusterAddress this ip = GetLinkForClusterAddress this ip'.
Proof.
  intros He. unfold GetLinkForClusterAddress.
  apply Equal_IP_String in He. rewrite He. reflexivity.
Qed.

End RegistryMore.

(** X8. UpdateLink on the name of a stored link files the new link under
    its endpoint host and under its cluster address, and takes the
    entries of the old link out of the two indices when the host or the
    cluster address has changed: a lookup by the old host or by the old
    address then finds nothing. *)
Theorem X8_UpdateLink_moves_index_entries
    (ext : kubelink.Externals) (this this' : kubelink.Links)
    (k : kubelink.KubeLink) (old l : kubelink.Link) :
  kubelink.GetLink this (kubelink.kl_Name k) = Some old →
  kubelink.UpdateLink ext this k = (this', inr l) →
  kubelink.GetLinkForEndpoint this' (kubelink.Host l) = Some l
  ∧ (∀ ip, net.Equal ip (net.IPNet_IP (kubelink.ClusterAddress l)) = true →
           kubelink.GetLinkForClusterAddress this' ip = Some l)
  ∧ (kubelink.Host old ≠ kubelink.Host l →
     kubelink.GetLinkForEndpoint this' (kubelink.Host old) = None)
  ∧ (net.Equal (net.IPNet_IP (kubelink.ClusterAddress old))
               (net.IPNet_IP (kubelink.ClusterAddress l)) = false →
     ∀ ip, net.Equal ip (net.IPNet_IP (kubelink.ClusterAddress old)) = true →
           kubelink.GetLinkForClusterAddress this' ip = None).
Proof.
  unfold kubelink.GetLink, kubelink.UpdateLink. intros Hold Hu.
  destruct (kubelink.LinkFor ext this k) as [e|l0] eqn:Hp.
  - unfold kubelink.updateLink in Hu. rewrite Hp in Hu. discriminate.
  - rewrite (updateLink_maps ext this k l0 Hp) in Hu. rewrite Hold in Hu.
    cbn [default fmap option_fmap option_map] in Hu. injection Hu as <- <-.
    unfold kubelink.GetLinkForEndpoint, kubelink.GetLinkForClusterAddress.
    cbn [kubelink.endpoints kubelink.clusteraddr kubelink.Host
         kubelink.ClusterAddress kubelink.with_ForeignData].
    split; [apply lookup_insert_eq|]. split.
    + intros ip He. apply Equal_IP_String in He. rewrite He. apply lookup_insert_eq.
    + split.
      * intros Hne. rewrite lookup_insert_ne by congruence.
        destruct (String.eqb_spec (kubelink.Host old) (kubelink.Host l0));
          [contradiction|]. cbn [negb]. apply lookup_delete_eq.
      * intros Hne ip He. apply Equal_IP_String in He. rewrite He.
        rewrite lookup_insert_ne.
        -- rewrite Hne. cbn [negb]. apply lookup_delete_eq.
        -- intros Hk. symmetry in Hk. apply Equal_IP_String in Hk. congruence.
Qed.

Lemma X8_UpdateLink_moves_index_entries_witness :
  ∃ old this' l,
    kubelink.GetLink sample.one_link "a" = Some old
    ∧ kubelink.UpdateLink sample.ext sample.one_link sample.link_a' = (this', inr l)
    ∧ kubelink.Host old = "b.example"
    ∧ kubelink.Host l = "c.example"
    ∧ kubelink.GetLinkForEndpoint this' (kubelink.Host l) = Some l.
Proof.
  eexists _, _, _.
  split; [vm_compute; reflexivity|]. split; [vm_compute; reflexivity|].
  split; [reflexivity|]. split; [reflexivity|].
  refine (proj1 (X8_UpdateLink_moves_index_entries sample.ext sample.one_link _
                   sample.link_a' _ _ _ _)); vm_compute; reflexivity.
Defined.

(** X9. On a registry that knows neither the name, nor the host, nor the
    cluster address of a link, UpdateLink stores the link as LinkFor
    builds it, and RemoveLink of the name gives back the registry as it
    was. *)
Theorem X9_RemoveLink_undoes_UpdateLink
    (ext : kubelink.Externals) (this : kubelink.Links)
    (k : kubelink.KubeLink) (l : kubelink.Link) :
  kubelink.LinkFor ext this k = inr l →
  kubelink.GetLink this (kubelink.kl_Name k) = None →
  kubelink.GetLinkForEndpoint this (kubelink.Host l) = None →
  kubelink.GetLinkForClusterAddress this (net.IPNet_IP (kubelink.ClusterAddress l))
    = None →
  kubelink.UpdateLink ext this k
    = ((kubelink.UpdateLink ext this k).1, inr l)
  ∧ kubelink.GetLink (kubelink.UpdateLink ext this k).1 (kubelink.kl_Name k) = Some l
  ∧ kubelink.RemoveLink (kubelink.UpdateLink ext this k).1 (kubelink.kl_Name k)
    = this.
Proof.
  unfold kubelink.GetLink, kubelink.GetLinkForEndpoint,
    kubelink.GetLinkForClusterAddress, kubelink.UpdateLink.
  intros Hp Hn Hh Hc.
  rewrite (updateLink_maps ext this k l Hp). rewrite Hn.
  cbn [default fmap option_fmap option_map fst].
  assert (kubelink.with_ForeignData l (kubelink.ForeignData l) = l) as ->
    by (destruct l; reflexivity).
  split; [reflexivity|]. split; [apply lookup_insert_eq|].
  unfold kubelink.RemoveLink. cbn [kubelink.links]. rewrite lookup_insert_eq.
  cbn [kubelink.endpoints kubelink.clusteraddr kubelink.defaultport].
  rewrite !delete_insert_id by assumption. destruct this; reflexivity.
Qed.

Lemma X9_RemoveLink_undoes_UpdateLink_witness :
  kubelink.RemoveLink
    (kubelink.UpdateLink sample.ext (kubelink.NewLinks 80) sample.link_a).1 "a"
  = kubelink.NewLinks 80.
Proof.
  refine (proj2 (proj2 (X9_RemoveLink_undoes_UpdateLink sample.ext
                          (kubelink.NewLinks 80) sample.link_a _ _ _ _ _)));
    vm_compute; reflexivity.
Defined.

(** The operations keep the indices current. *)

Section Current.
Import kubelink registry.

Variable ext : Externals.

(** Storing a link under its name and keys keeps the indices current,
    provided the entries of the link it replaces are overwritten or gone. *)
Lemma current_store (this : Links) (new : Link)
    (es : gmap string Link) (cs : gmap (list Z) Link) :
  keyed this → more.current this →
  es ⊆ endpoints this → cs ⊆ clusteraddr this →
  (∀ old, links this !! Name new = Some old →
     (es !! Host old = None ∨ Host old = Host new)
     ∧ (cs !! net.IP_String (net.IPNet_IP (ClusterAddress old)) = None
        ∨ net.IP_String (net.IPNet_IP (ClusterAddress old))
          = net.IP_String (net.IPNet_IP (ClusterAddress new)))) →
  more.current
    (mkLinks (defaultport this) (<[Name new := new]> (links this))
       (<[Host new := new]> es)
       (<[net.IP_String (net.IPNet_IP (ClusterAddress new)) := new]> cs)).
Proof.
  intros (Kl & Ke & Kc) (Ce & Cc) Hes Hcs Hold.
  unfold more.current. cbn [links endpoints clusteraddr]. split.
  - intros h l. rewrite lookup_insert_Some.
    intros [[<- <-]|[Hne Hl]]; [apply lookup_insert_eq|].
    pose proof (lookup_weaken _ _ _ _ Hl Hes) as Hl'.
    rewrite lookup_insert_ne; [apply (Ce h), Hl'|].
    intros Hn. pose proof (Ce _ _ Hl') as Hst. rewrite <- Hn in Hst.
    destruct (Hold _ Hst) as [[H|H] _]; rewrite (Ke _ _ Hl') in H; congruence.
  - intros k l. rewrite lookup_insert_Some.
    intros [[<- <-]|[Hne Hl]]; [apply lookup_insert_eq|].
    pose proof (lookup_weaken _ _ _ _ Hl Hcs) as Hl'.
    rewrite lookup_insert_ne; [apply (Cc k), Hl'|].
    intros Hn. pose proof (Cc _ _ Hl') as Hst. rewrite <- Hn in Hst.
    destruct (Hold _ Hst) as [_ [H|H]]; rewrite (Kc _ _ Hl') in H; congruence.
Qed.

Lemma current_replace_copy (this : Links) (old new : Link) :
  keyed this → more.current this →
  links this !! Name new = Some old →
  Host new = Host old → ClusterAddress new = ClusterAddress old →
  more.current (replaceLink this new).1.
Proof.
  intros Hk Hc Hold Hh Ha. unfold replaceLink. cbn [fst].
  apply current_store; try assumption; try reflexivity.
  intros old' Ho. rewrite Hold in Ho. injection Ho as <-.
  rewrite Hh, Ha. split; right; reflexivity.
Qed.

Lemma current_updateLink (this : Links) (k : KubeLink) :
  keyed this → more.current this → more.current (updateLink ext this k).1.
Proof.
  intros Hk Hc.
  destruct (LinkFor ext this k) as [e|l0] eqn:Hp.
  - unfold updateLink. rewrite Hp. exact Hc.
  - rewrite (updateLink_maps ext this k l0 Hp). cbn [fst].
    destruct (LinkFor_inr _ _ _ _ Hp) as [Hn _].
    set (l := with_ForeignData l0 _).
    change (Host l0) with (Host l).
    change (ClusterAddress l0) with (ClusterAddress l).
    rewrite <- Hn. change (Name l0) with (Name l).
    apply current_store; try assumption.
    + destruct (links this !! Name l); [|reflexivity].
      case_match; [apply delete_subseteq|reflexivity].
    + destruct (links this !! Name l); [|reflexivity].
      case_match; [apply delete_subseteq|reflexivity].
    + intros old Ho. rewrite Ho. split.
      * destruct (String.eqb_spec (Host old) (Host l)) as [He|He]; cbn [negb].
        -- right. exact He.
        -- left. apply lookup_delete_eq.
      * destruct (net.Equal (net.IPNet_IP (ClusterAddress old))
                    (net.IPNet_IP (ClusterAddress l))) eqn:He; cbn [negb].
        -- right. apply Equal_IP_String. exact He.
        -- left. apply lookup_delete_eq.
Qed.

Lemma current_RemoveLink (this : Links) (name : string) :
  keyed this → more.current this → more.current (RemoveLink this name).
Proof.
  intros (Kl & Ke & Kc) (Ce & Cc). unfold RemoveLink.
  destruct (links this !! name) as [l|] eqn:Hl; [|split; assumption].
  unfold more.current. cbn [links endpoints clusteraddr]. split.
  - intros h x. rewrite lookup_delete_Some. intros [Hne Hx].
    rewrite lookup_delete_ne; [apply (Ce h), Hx|].
    intros Hn. pose proof (Ce _ _ Hx) as Hst. rewrite <- Hn, Hl in Hst.
    injection Hst as ->. apply Hne. apply Ke. exact Hx.
  - intros k x. rewrite lookup_delete_Some. intros [Hne Hx].
    rewrite lookup_delete_ne; [apply (Cc k), Hx|].
    intros Hn. pose proof (Cc _ _ Hx) as Hst. rewrite <- Hn, Hl in Hst.
    injection Hst as ->. apply Hne. apply Kc. exact Hx.
Qed.

Lemma current_UpdateLinkInfo (this : Links) (name : string)
    (access : option LinkAccessInfo) (dns : option LinkDNSInfo) (pending : bool) :
  keyed this → more.current this →
  more.current (UpdateLinkInfo this name access dns pending).1.1.
Proof.
  intros Hk Hc. unfold UpdateLinkInfo.
  destruct (links this !! name) as [old|] eqn:Ho; [|exact Hc].
  assert (Name old = name) as Hn by (destruct Hk as [Kl _]; apply Kl, Ho).
  subst name.
  repeat (case_match; simplify_eq/=); try exact Hc;
    match goal with
    | H : links this !! Name ?o = Some ?o
      |- context [<[_ := ?l]> (links this)] =>
        exact (current_replace_copy this o l Hk Hc H eq_refl eq_refl)
    end.
Qed.

Lemma current_LinkInfoUpdated (this : Links) (name : string)
    (access : option LinkAccessInfo) (dns : option LinkDNSInfo) :
  keyed this → more.current this →
  more.current (LinkInfoUpdated this name access dns).1.
Proof.
  intros Hk Hc. unfold LinkInfoUpdated.
  destruct (links this !! name) as [old|] eqn:Ho; [|exact Hc].
  assert (Name old = name) as Hn by (destruct Hk as [Kl _]; apply Kl, Ho).
  subst name.
  repeat (case_match; simplify_eq/=); try exact Hc;
    match goal with
    | H : links this !! Name ?o = Some ?o
      |- context [<[_ := ?l]> (links this)] =>
        exact (current_replace_copy this o l Hk Hc H eq_refl eq_refl)
    end.
Qed.

Lemma current_run (ops : list op) (this : Links) :
  Forall more.declared ops → keyed this → more.current this →
  keyed (run ext this ops) ∧ more.current (run ext this ops).
Proof.
  revert this. induction ops as [|o ops IH]; intros this Hd Hk Hc; [done|].
  inversion Hd as [|? ? Ho Hd']; subst. cbn [run foldl].
  apply IH; [exact Hd'|apply keyed_apply, Hk|].
  destruct o; cbn [apply]; try contradiction.
  - apply current_updateLink; assumption.
  - apply current_RemoveLink; assumption.
  - apply current_UpdateLinkInfo; assumption.
  - apply current_LinkInfoUpdated; assumption.
Qed.

End Current.

(** X10. In a registry built from the empty one by UpdateLink,
    RemoveLink, UpdateLinkInfo and LinkInfoUpdated, no index entry is
    stale: the link found by GetLinkForEndpoint or by
    GetLinkForClusterAddress has the host or the address asked for, and
    is the very link that GetLink finds under its name. *)
Theorem X10_index_entries_are_current
    (ext : kubelink.Externals) (p : Z) (ops : list registry.op) :
  Forall more.declared ops →
  let this := registry.run ext (kubelink.NewLinks p) ops in
  (∀ h l, kubelink.GetLinkForEndpoint this h = Some l →
          kubelink.Host l = h ∧ kubelink.GetLink this (kubelink.Name l) = Some l)
  ∧ (∀ ip l, kubelink.GetLinkForClusterAddress this ip = Some l →
             net.Equal ip (net.IPNet_IP (kubelink.ClusterAddress l)) = true
             ∧ kubelink.GetLink this (kubelink.Name l) = Some l).
Proof.
  intros Hd this.
  destruct (current_run ext ops (kubelink.NewLinks p) Hd (keyed_NewLinks p))
    as [(Kl & Ke & Kc) (Ce & Cc)].
  { split; intros ? ? H; cbn in H; rewrite lookup_empty in H; discriminate. }
  unfold kubelink.GetLinkForEndpoint, kubelink.GetLinkForClusterAddress,
    kubelink.GetLink. split.
  - intros h l Hl. split; [apply Ke, Hl|apply (Ce h), Hl].
  - intros ip l Hl. split; [|apply (Cc _ _ Hl)].
    apply Equal_IP_String. symmetry. apply Kc, Hl.
Qed.

Lemma X10_index_entries_are_current_witness :
  ∃ l, kubelink.GetLinkForEndpoint sample.staged "b.example" = Some l
     ∧ kubelink.Host l = "b.example"
     ∧ kubelink.GetLink sample.staged (kubelink.Name l) = Some l.
Proof.
  eexists. split; [vm_compute; reflexivity|].
  refine (proj1 (X10_index_entries_are_current sample.ext 80 sample.staged_ops _)
            "b.example" _ _).
  - repeat constructor.
  - vm_compute. reflexivity.
Defined.

(** ** Foreign data in two phases *)

Lemma LinkAccessInfo_Equal_refl (a : kubelink.LinkAccessInfo) :
  kubelink.LinkAccessInfo_Equal a a = true.
Proof.
  unfold kubelink.LinkAccessInfo_Equal. rewrite !String.eqb_refl. reflexivity.
Qed.

Lemma LinkDNSInfo_Equal_refl (d : kubelink.LinkDNSInfo) :
  kubelink.LinkDNSInfo_Equal d d = true.
Proof.
  unfold kubelink.LinkDNSInfo_Equal. rewrite Equal_refl, String.eqb_refl. reflexivity.
Qed.

Lemma run_snoc (ext : kubelink.Externals) (this : kubelink.Links)
    (ops : list registry.op) (o : registry.op) :
  registry.run ext this (ops ++ [o]) = registry.apply ext (registry.run ext this ops) o.
Proof. unfold registry.run. rewrite foldl_app. reflexivity. Qed.

(** X11. The two phases one after the other: UpdateLinkInfo with
    pending=true bringing a differing value, followed by LinkInfoUpdated
    with the same values, leaves the link stored with the new values and
    with UpdatePending cleared. *)
Theorem X11_stage_then_confirm
    (ext : kubelink.Externals) (p : Z) (ops : list registry.op)
    (name : string) (old : kubelink.Link)
    (access : option kubelink.LinkAccessInfo) (dns : option kubelink.LinkDNSInfo) :
  let this := registry.run ext (kubelink.NewLinks p) ops in
  kubelink.GetLink this name = Some old →
  let fd := kubelink.ForeignData old in
  let a := registry.differing kubelink.LinkAccessInfo_Equal
             (kubelink.AccessInfo fd) access in
  let d := registry.differing kubelink.LinkDNSInfo_Equal (kubelink.DNSInfo fd) dns in
  a ≠ None ∨ d ≠ None →
  let staged := (kubelink.UpdateLinkInfo this name access dns true).1.1 in
  ∃ confirmed new,
    kubelink.LinkInfoUpdated staged name access dns = (confirmed, Some new)
    ∧ kubelink.GetLink confirmed name = Some new
    ∧ kubelink.UpdatePending (kubelink.ForeignData new) = false
    ∧ kubelink.AccessInfo (kubelink.ForeignData new)
      = default (kubelink.AccessInfo fd) a
    ∧ kubelink.DNSInfo (kubelink.ForeignData new)
      = default (kubelink.DNSInfo fd) d.
Proof.
  intros this Hold fd a d Hnew staged.
  assert (kubelink.Name old = name) as Hname.
  { destruct (keyed_run ext ops (kubelink.NewLinks p) (keyed_NewLinks p))
      as (Hn & _). apply Hn. exact Hold. }
  destruct (two_phase_foreign_update this name old Hold Hname) as (_ & Hstage & _).
  destruct (Hstage access dns Hnew) as (this1 & new1 & Hu & Hg1 & Hp1 & Ha1 & Hd1).
  assert (staged = this1) as -> by (subst staged; rewrite Hu; reflexivity).
  assert (kubelink.Name new1 = name) as Hname1.
  { pose proof (keyed_run ext (ops ++ [registry.OpUpdateLinkInfo name access dns true])
                  (kubelink.NewLinks p) (keyed_NewLinks p)) as (Hn & _).
    rewrite run_snoc in Hn. cbn [registry.apply] in Hn. fold this in Hn.
    rewrite Hu in Hn. apply Hn. exact Hg1. }
  destruct (two_phase_foreign_update this1 name new1 Hg1 Hname1) as (_ & _ & Hecho).
  destruct (Hecho access dns) as (this2 & new2 & Hl & Hg2 & Hp2 & Ha2 & Hd2 & _).
  exists this2, new2. split; [exact Hl|]. split; [exact Hg2|].
  rewrite Ha2, Hd2, Ha1, Hd1. split; [|split; reflexivity].
  rewrite Hp2, Hp1, Ha1, Hd1. cbn [andb]. apply negb_false_iff.
  subst a d. unfold registry.differing, registry.echoed in *.
  destruct access as [x|], dns as [y|]; cbn [default];
    repeat match goal with
           | |- context [if ?b then None else Some _] => destruct b eqn:?
           end;
    cbn [default];
    rewrite ?LinkAccessInfo_Equal_refl, ?LinkDNSInfo_Equal_refl, ?orb_true_r;
    try reflexivity;
    try (destruct Hnew as [H|H]; exfalso; apply H; reflexivity);
    try (match goal with H : _ = true |- _ => rewrite H end;
         rewrite ?orb_true_r; reflexivity).
Qed.

Lemma X11_stage_then_confirm_witness :
  ∃ confirmed new,
    kubelink.LinkInfoUpdated sample.staged "a" (Some sample.access) None
    = (confirmed, Some new)
    ∧ kubelink.GetLink confirmed "a" = Some new
    ∧ kubelink.UpdatePending (kubelink.ForeignData new) = false
    ∧ kubelink.AccessInfo (kubelink.ForeignData new) = sample.access
    ∧ kubelink.DNSInfo (kubelink.ForeignData new) = kubelink.mkLinkDNSInfo "" [].
Proof.
  eassert (kubelink.GetLink sample.one_link "a" = Some _) as Hold
    by (vm_compute; reflexivity).
  refine (X11_stage_then_confirm sample.ext 80 [registry.OpUpdateLink sample.link_a]
            "a" _ (Some sample.access) None Hold (or_introl _)).
  vm_compute. discriminate.
Defined.

(** What [UpdateLinkInfo] does to a link filed under its name, in all
    cases. *)
Lemma UpdateLinkInfo_spec (this : kubelink.Links) (name : string)
    (old : kubelink.Link)
    (access : option kubelink.LinkAccessInfo) (dns : option kubelink.LinkDNSInfo)
    (pending : bool) :
  kubelink.links this !! name = Some old →
  kubelink.Name old = name →
  let fd := kubelink.ForeignData old in
  let a := registry.differing kubelink.LinkAccessInfo_Equal
             (kubelink.AccessInfo fd) access in
  let d := registry.differing kubelink.LinkDNSInfo_Equal (kubelink.DNSInfo fd) dns in
  if (negb (kubelink.UpdatePending fd) || pending)
     && (bool_decide (a ≠ None) || bool_decide (d ≠ None))
  then ∃ this' new,
         kubelink.UpdateLinkInfo this name access dns pending = (this', Some new, true)
         ∧ kubelink.links this' !! name = Some new
         ∧ kubelink.Name new = name
         ∧ kubelink.UpdatePending (kubelink.ForeignData new) = pending
         ∧ kubelink.AccessInfo (kubelink.ForeignData new)
           = default (kubelink.AccessInfo fd) a
         ∧ kubelink.DNSInfo (kubelink.ForeignData new)
           = default (kubelink.DNSInfo fd) d
  else kubelink.UpdateLinkInfo this name access dns pending = (this, Some old, false).
Proof.
  intros Hold Hname. cbv zeta. subst name.
  unfold kubelink.UpdateLinkInfo. rewrite Hold.
  unfold registry.differing.
  destruct (negb (kubelink.UpdatePending (kubelink.ForeignData old)) || pending);
    destruct access as [x|], dns as [y|]; cbn [andb];
    repeat match goal with
           | |- context [kubelink.LinkAccessInfo_Equal ?u ?v] =>
               destruct (kubelink.LinkAccessInfo_Equal u v) eqn:?
           | |- context [kubelink.LinkDNSInfo_Equal ?u ?v] =>
               destruct (kubelink.LinkDNSInfo_Equal u v) eqn:?
           end;
    cbn; try reflexivity;
    (eexists _, _; split; [reflexivity|]; split; [apply lookup_insert_eq|];
     repeat split).
Qed.

(** X12. UpdateLinkInfo is idempotent on a registry built by its
    operations: a second call with the same arguments changes nothing,
    reports no change and returns the link the first call returned. *)
Theorem X12_UpdateLinkInfo_idempotent
    (ext : kubelink.Externals) (p : Z) (ops : list registry.op) (name : string)
    (access : option kubelink.LinkAccessInfo) (dns : option kubelink.LinkDNSInfo)
    (pending : bool) :
  let this := registry.run ext (kubelink.NewLinks p) ops in
  let r := kubelink.UpdateLinkInfo this name access dns pending in
  kubelink.UpdateLinkInfo r.1.1 name access dns pending = (r.1.1, r.1.2, false).
Proof.
  intros this r. subst r.
  destruct (kubelink.links this !! name) as [old|] eqn:Hold.
  2:{ unfold kubelink.UpdateLinkInfo. rewrite Hold. cbn [fst snd]. rewrite Hold.
      reflexivity. }
  assert (kubelink.Name old = name) as Hname.
  { destruct (keyed_run ext ops (kubelink.NewLinks p) (keyed_NewLinks p))
      as (Hn & _). apply Hn. exact Hold. }
  pose proof (UpdateLinkInfo_spec this name old access dns pending Hold Hname) as H1.
  cbv zeta in H1.
  destruct ((negb (kubelink.UpdatePending (kubelink.ForeignData old)) || pending)
            && (bool_decide
                  (registry.differing kubelink.LinkAccessInfo_Equal
                     (kubelink.AccessInfo (kubelink.ForeignData old)) access ≠ None)
                || bool_decide
                     (registry.differing kubelink.LinkDNSInfo_Equal
                        (kubelink.DNSInfo (kubelink.ForeignData old)) dns ≠ None))).
  - destruct H1 as (this' & new & -> & Hg & Hn & Hp & Ha & Hd). cbn [fst snd].
    pose proof (UpdateLinkInfo_spec this' name new access dns pending Hg Hn) as H2.
    cbv zeta in H2. rewrite Ha, Hd in H2.
    assert (registry.differing kubelink.LinkAccessInfo_Equal
              (default (kubelink.AccessInfo (kubelink.ForeignData old))
                 (registry.differing kubelink.LinkAccessInfo_Equal
                    (kubelink.AccessInfo (kubelink.ForeignData old)) access))
              access = None) as Ea.
    { unfold registry.differing. destruct access as [x|]; [|reflexivity].
      destruct (kubelink.LinkAccessInfo_Equal
                  (kubelink.AccessInfo (kubelink.ForeignData old)) x) eqn:E; simpl.
      - rewrite E. reflexivity.
      - rewrite LinkAccessInfo_Equal_refl. reflexivity. }
    assert (registry.differing kubelink.LinkDNSInfo_Equal
              (default (kubelink.DNSInfo (kubelink.ForeignData old))
                 (registry.differing kubelink.LinkDNSInfo_Equal
                    (kubelink.DNSInfo (kubelink.ForeignData old)) dns))
              dns = None) as Ed.
    { unfold registry.differing. destruct dns as [y|]; [|reflexivity].
      destruct (kubelink.LinkDNSInfo_Equal
                  (kubelink.DNSInfo (kubelink.ForeignData old)) y) eqn:E; simpl.
      - rewrite E. reflexivity.
      - rewrite LinkDNSInfo_Equal_refl. reflexivity. }
    rewrite Ea, Ed in H2.
    rewrite !bool_decide_eq_false_2 in H2 by (intros H; exact (H eq_refl)).
    rewrite andb_false_r in H2. exact H2.
  - rewrite H1. cbn [fst snd]. exact H1.
Qed.

(** ** Parsing a link *)

Section Parsing.
Import kubelink.

Variable ext : Externals.

Lemma Split_no_colon (s : string) : more.has_colon s = false → Split s = [s].
Proof.
  induction s as [|c s IH]; [reflexivity|]. cbn [more.has_colon Split].
  destruct (Ascii.eqb c ":"); [discriminate|]. cbn [orb]. intros H.
  rewrite (IH H). reflexivity.
Qed.

Lemma Split_colon (h rest : string) :
  more.has_colon h = false →
  Split (String.app h (String ":" rest)) = h :: Split rest.
Proof.
  induction h as [|c h IH]; [reflexivity|]. cbn [more.has_colon].
  destruct (Ascii.eqb c ":") eqn:Ec; [discriminate|]. cbn [orb]. intros H.
  change (String.app (String c h) (String ":" rest))
    with (String c (String.app h (String ":" rest))).
  cbn [Split]. rewrite Ec, (IH H). reflexivity.
Qed.

Lemma ParseIPRange_loop_entry (r : IPRange) (c : string) (rest : list string) :
  ParseIPRange_loop ext r (c :: rest)
  = match ParseNet ext (more.entry c).2 with
    | None => inl (ErrInvalidCIDR (more.entry c).2)
    | Some cidr =>
        ParseIPRange_loop ext
          (if (more.entry c).1
           then mkIPRange (Allowed r) (tcp.Add (Denied r) [cidr])
           else mkIPRange (tcp.Add (Allowed r) [cidr]) (Denied r))
          rest
    end.
Proof.
  cbn [ParseIPRange_loop]. unfold more.entry.
  destruct c as [|[[] [] [] [] [] [] [] []] c']; reflexivity.
Qed.

Lemma elems_Add (l : tcp.CIDRList) (c : net.IPNet) :
  tcp.elems (tcp.Add l [c]) = tcp.elems l ++ [c] ∧ tcp.IsSet (tcp.Add l [c]) = true.
Proof. destruct l; split; reflexivity. Qed.

Lemma settled_Add (l : tcp.CIDRList) (c : net.IPNet) : more.settled (tcp.Add l [c]).
Proof.
  unfold more.settled. destruct (elems_Add l c) as [-> ->].
  rewrite bool_decide_eq_false_2; [reflexivity|].
  intros H. apply (f_equal length) in H. rewrite length_app in H. simpl in H. lia.
Qed.

(** The loop of [ParseIPRange] on entries that all parse. *)
Lemma ParseIPRange_loop_ok (list : list string) :
  ∀ r, more.settled (Allowed r) → more.settled (Denied r) →
    Forall (fun c => is_Some (ParseNet ext (more.entry c).2)) list →
    ∃ r', ParseIPRange_loop ext r list = inr r'
      ∧ tcp.elems (Allowed r') = tcp.elems (Allowed r) ++ omap (more.parsed ext false) list
      ∧ tcp.elems (Denied r') = tcp.elems (Denied r) ++ omap (more.parsed ext true) list
      ∧ more.settled (Allowed r') ∧ more.settled (Denied r').
Proof.
  induction list as [|c list IH]; intros r Sa Sd Hall.
  - exists r. cbn [omap list_omap]. rewrite !app_nil_r. done.
  - inversion Hall as [|? ? [cidr Hc] Hall']; subst.
    rewrite ParseIPRange_loop_entry, Hc.
    assert (∀ b, more.parsed ext b c
                 = if bool_decide ((more.entry c).1 = b) then Some cidr else None)
      as Hparsed by (intros b; unfold more.parsed; rewrite Hc; reflexivity).
    cbn [omap list_omap]. rewrite !Hparsed.
    destruct (more.entry c).1.
    + destruct (IH (mkIPRange (Allowed r) (tcp.Add (Denied r) [cidr])))
        as (r' & -> & Ha & Hd & Sa' & Sd');
        [exact Sa|apply settled_Add|exact Hall'|].
      exists r'. split; [reflexivity|]. rewrite Ha, Hd. cbn [Allowed Denied].
      rewrite (proj1 (elems_Add _ _)).
      rewrite (bool_decide_eq_false_2 (true = false)) by discriminate.
      rewrite (bool_decide_eq_true_2 (true = true)) by reflexivity.
      rewrite <- app_assoc. done.
    + destruct (IH (mkIPRange (tcp.Add (Allowed r) [cidr]) (Denied r)))
        as (r' & -> & Ha & Hd & Sa' & Sd');
        [apply settled_Add|exact Sd|exact Hall'|].
      exists r'. split; [reflexivity|]. rewrite Ha, Hd. cbn [Allowed Denied].
      rewrite (proj1 (elems_Add _ _)).
      rewrite (bool_decide_eq_true_2 (false = false)) by reflexivity.
      rewrite (bool_decide_eq_false_2 (false = true)) by discriminate.
      rewrite <- app_assoc. done.
Qed.

(** The loop stops at the first entry that does not parse. *)
Lemma ParseIPRange_loop_bad (pre : list string) (c : string) (post : list string) :
  ∀ r, Forall (fun c => is_Some (ParseNet ext (more.entry c).2)) pre →
    ParseNet ext (more.entry c).2 = None →
    ParseIPRange_loop ext r (pre ++ c :: post) = inl (ErrInvalidCIDR (more.entry c).2).
Proof.
  induction pre as [|x pre IH]; intros r Hall Hc.
  - cbn [app]. rewrite ParseIPRange_loop_entry, Hc. reflexivity.
  - inversion Hall as [|? ? [cidr Hx] Hall']; subst.
    cbn [app]. rewrite ParseIPRange_loop_entry, Hx. apply IH; assumption.
Qed.

End Parsing.

Lemma ParseIPRange_loop_inr (ext : kubelink.Externals) (list : list string) :
  ∀ r r', kubelink.ParseIPRange_loop ext r list = inr r' →
          Forall (fun c => is_Some (kubelink.ParseNet ext (more.entry c).2)) list.
Proof.
  induction list as [|c list IH]; intros r r' H; [constructor|].
  rewrite ParseIPRange_loop_entry in H.
  destruct (kubelink.ParseNet ext (more.entry c).2) as [cidr|] eqn:Hc; [|discriminate].
  constructor; [rewrite Hc; eauto|]. exact (IH _ _ H).
Qed.

(** A non-empty list whose entries all parse: the range holds the plain
    entries as Allowed and the "!" entries as Denied, each list set
    exactly when it has an element. *)
Lemma ParseIPRange_ok (ext : kubelink.Externals) (list : list string) :
  list ≠ [] →
  Forall (fun c => is_Some (kubelink.ParseNet ext (more.entry c).2)) list →
  ∃ r, kubelink.ParseIPRange ext list = inr (Some r)
    ∧ tcp.elems (kubelink.Allowed r) = omap (more.parsed ext false) list
    ∧ tcp.elems (kubelink.Denied r) = omap (more.parsed ext true) list
    ∧ more.settled (kubelink.Allowed r) ∧ more.settled (kubelink.Denied r)
    ∧ kubelink.IPRange_IsSet (Some r) = true.
Proof.
  intros Hne Hall.
  destruct (ParseIPRange_loop_ok ext list (kubelink.mkIPRange None None))
    as (r & Hr & Ha & Hd & Sa & Sd); [reflexivity|reflexivity|exact Hall|].
  change (tcp.elems (kubelink.Allowed (kubelink.mkIPRange None None)) ++ ?x)
    with x in Ha.
  change (tcp.elems (kubelink.Denied (kubelink.mkIPRange None None)) ++ ?x)
    with x in Hd.
  exists r. unfold kubelink.ParseIPRange.
  destruct list as [|c list]; [contradiction|]. rewrite Hr.
  split; [reflexivity|]. split; [exact Ha|]. split; [exact Hd|].
  split; [exact Sa|]. split; [exact Sd|].
  unfold more.settled in Sa, Sd.
  unfold kubelink.IPRange_IsSet. rewrite Sa, Sd, Ha, Hd.
  inversion Hall as [|? ? [cidr Hc] _]; subst.
  assert (∀ b, more.parsed ext b c
               = if bool_decide ((more.entry c).1 = b) then Some cidr else None)
    as Hparsed by (intros b; unfold more.parsed; rewrite Hc; reflexivity).
  cbn [omap list_omap]. rewrite !Hparsed.
  destruct (more.entry c).1.
  + rewrite (bool_decide_eq_true_2 (true = true)) by reflexivity.
    rewrite (bool_decide_eq_false_2 (true = false)) by discriminate.
    rewrite (bool_decide_eq_false_2 (_ :: _ = [])) by discriminate.
    apply orb_true_r.
  + rewrite (bool_decide_eq_true_2 (false = false)) by reflexivity.
    rewrite (bool_decide_eq_false_2 (false = true)) by discriminate.
    rewrite (bool_decide_eq_false_2 (_ :: _ = [])) by discriminate.
    reflexivity.
Qed.

(** X7. ParseIPRange returns no range for the empty list. For a
    non-empty list whose entries all parse it returns a range whose
    Allowed list holds the networks of the plain entries and whose Denied
    list those of the entries that start with "!", both in the order of
    the entries; each of the two lists is set exactly when it has an
    element, and the range is set. At the first entry that does not parse
    it returns an error that names the text of that entry, without its
    "!". *)
Theorem X7_ParseIPRange_splits_entries
    (ext : kubelink.Externals) (list : list string) :
  kubelink.ParseIPRange ext [] = inr None
  ∧ (list ≠ [] →
     Forall (fun c => is_Some (kubelink.ParseNet ext (more.entry c).2)) list →
     ∃ r, kubelink.ParseIPRange ext list = inr (Some r)
       ∧ tcp.elems (kubelink.Allowed r) = omap (more.parsed ext false) list
       ∧ tcp.elems (kubelink.Denied r) = omap (more.parsed ext true) list
       ∧ (tcp.IsSet (kubelink.Allowed r) = true ↔ tcp.elems (kubelink.Allowed r) ≠ [])
       ∧ (tcp.IsSet (kubelink.Denied r) = true ↔ tcp.elems (kubelink.Denied r) ≠ [])
       ∧ kubelink.IPRange_IsSet (Some r) = true)
  ∧ (∀ pre c post,
       list = pre ++ c :: post →
       Forall (fun c => is_Some (kubelink.ParseNet ext (more.entry c).2)) pre →
       kubelink.ParseNet ext (more.entry c).2 = None →
       kubelink.ParseIPRange ext list = inl (ErrInvalidCIDR (more.entry c).2)).
Proof.
  split; [reflexivity|]. split.
  - intros Hne Hall.
    destruct (ParseIPRange_ok ext list Hne Hall) as (r & Hr & Ha & Hd & Sa & Sd & Hs).
    exists r. split; [exact Hr|]. split; [exact Ha|]. split; [exact Hd|].
    unfold more.settled in Sa, Sd.
    assert (∀ l, negb (bool_decide (l = @nil net.IPNet)) = true ↔ l ≠ []) as Hnb.
    { intros l. rewrite negb_true_iff, bool_decide_eq_false. reflexivity. }
    split; [rewrite Sa; apply Hnb|]. split; [rewrite Sd; apply Hnb|]. exact Hs.
  - intros pre c post -> Hall Hc. unfold kubelink.ParseIPRange.
    rewrite ParseIPRange_loop_bad by assumption.
    destruct pre; reflexivity.
Qed.

Lemma X7_ParseIPRange_splits_entries_witness :
  (∃ r, kubelink.ParseIPRange sample.ext ["100.64.16.0/28"; "!100.64.16.5/32"]
        = inr (Some r)
      ∧ tcp.elems (kubelink.Allowed r)
        = [net.mkIPNet [100; 64; 16; 0] [255; 255; 255; 240]]
      ∧ tcp.elems (kubelink.Denied r)
        = [net.mkIPNet [100; 64; 16; 5] [255; 255; 255; 255]]
      ∧ (tcp.IsSet (kubelink.Allowed r) = true ↔ tcp.elems (kubelink.Allowed r) ≠ [])
      ∧ (tcp.IsSet (kubelink.Denied r) = true ↔ tcp.elems (kubelink.Denied r) ≠ [])
      ∧ kubelink.IPRange_IsSet (Some r) = true)
  ∧ kubelink.ParseIPRange sample.ext ["100.64.16.0/28"; "!10.0.0.0/33"]
    = inl (ErrInvalidCIDR "10.0.0.0/33").
Proof.
  split.
  - refine (proj1 (proj2 (X7_ParseIPRange_splits_entries sample.ext
                            ["100.64.16.0/28"; "!100.64.16.5/32"])) _ _).
    + discriminate.
    + repeat constructor; vm_compute; eauto.
  - refine (proj2 (proj2 (X7_ParseIPRange_splits_entries sample.ext
                            ["100.64.16.0/28"; "!10.0.0.0/33"]))
              ["100.64.16.0/28"] "!10.0.0.0/33" [] eq_refl _ eq_refl).
    repeat constructor; vm_compute; eauto.
Defined.

Lemma Split_nonempty (s : string) : kubelink.Split s ≠ [].
Proof.
  induction s as [|c s IH]; [discriminate|]. cbn [kubelink.Split].
  destruct (Ascii.eqb c ":"); [discriminate|].
  destruct (kubelink.Split s); [contradiction|discriminate].
Qed.

Lemma has_colon_app (h rest : string) :
  more.has_colon (String.app h (String ":" rest)) = true.
Proof.
  induction h as [|c h IH]; [reflexivity|].
  change (String.app (String c h) (String ":" rest))
    with (String c (String.app h (String ":" rest))).
  cbn [more.has_colon]. rewrite IH. apply orb_true_r.
Qed.

(** X13. Host, port and endpoint of a link that LinkFor builds. The
    endpoint of the resource is not empty. For "none" the host and the
    endpoint are "none" and the port is the default port. For an endpoint
    without a colon the host is the endpoint, the port is the default
    port and the endpoint of the link is [host:port]. For an endpoint
    [host:rest] the host is the text before the first colon, the endpoint
    is kept as it is, and the port is the number parsed from the text
    between the first and the second colon. *)
Theorem X13_LinkFor_endpoint
    (ext : kubelink.Externals) (this : kubelink.Links)
    (k : kubelink.KubeLink) (l : kubelink.Link) :
  kubelink.LinkFor ext this k = inr l →
  let e := kubelink.Spec_Endpoint k in
  e ≠ ""
  ∧ (e = "none" →
     kubelink.Host l = "none" ∧ kubelink.Endpoint l = "none"
     ∧ kubelink.Port l = kubelink.defaultport this)
  ∧ (e ≠ "none" → more.has_colon e = false →
     kubelink.Host l = e
     ∧ kubelink.Port l = kubelink.defaultport this
     ∧ kubelink.Endpoint l
       = String.app e (String.app ":" (pretty (kubelink.defaultport this))))
  ∧ (∀ h rest, e = String.app h (String ":" rest) → more.has_colon h = false →
       kubelink.Host l = h ∧ kubelink.Endpoint l = e
       ∧ kubelink.ParseInt ext (hd "" (kubelink.Split rest)) = Some (kubelink.Port l)).
Proof.
  intros H e. unfold kubelink.LinkFor in H.
  fold e in H. clearbody e.
  repeat match type of H with
         | (match ?x with _ => _ end) = _ => destruct x eqn:?; try discriminate H
         | (if ?x then _ else _) = _ => destruct x eqn:?; try discriminate H
         | (let (_, _) := ?x in _) = _ => destruct x eqn:?
         end.
  all: simplify_eq/=.
  all: repeat match goal with
         | Hb : negb _ = true |- _ => apply negb_true_iff in Hb
         | Hb : negb _ = false |- _ => apply negb_false_iff in Hb
         | Hb : _ && _ = true |- _ => apply andb_true_iff in Hb; destruct Hb
         | Hb : _ && _ = false |- _ => apply andb_false_iff in Hb
         | Hb : (_ =? _)%string = true |- _ => apply String.eqb_eq in Hb
         | Hb : (_ =? _)%string = false |- _ => apply String.eqb_neq in Hb
         end.
  all: (split; [assumption|]).
  all: split; [intros Hnone|split; [intros Hnn Hnc|intros h rest He Hh]].
  - subst e. vm_compute in Heqs1. simplify_eq. done.
  - rewrite (Split_no_colon _ Hnc) in *.
    destruct e as [|a e]; [contradiction|].
    cbn [String.length Nat.eqb negb andb length] in Heqs1.
    destruct (String a e =? "none")%string eqn:En;
      [apply String.eqb_eq in En; contradiction|].
    cbn [negb] in Heqs1. simplify_eq. done.
  - assert (e ≠ "none") as Hnn.
    { intros Hn. pose proof (has_colon_app h rest) as Hc.
      rewrite <- He, Hn in Hc. discriminate Hc. }
    rewrite He, (Split_colon _ _ Hh) in Heqs1 |- *. rewrite <- He in Heqs1.
    pose proof (Split_nonempty rest) as Hr.
    destruct (kubelink.Split rest) as [|p ps] eqn:Es; [contradiction|].
    destruct e as [|a e]; [contradiction|].
    cbn [String.length Nat.eqb negb andb length] in Heqs1.
    destruct (String a e =? "none")%string eqn:En;
      [apply String.eqb_eq in En; contradiction|].
    cbn [negb] in Heqs1.
    change ((h :: p :: ps) !!! 1%nat) with p in Heqs1.
    destruct (kubelink.ParseInt ext p) eqn:Ep; [|discriminate].
    simplify_eq. done.
Qed.

Lemma X13_LinkFor_endpoint_witness :
  ∃ l, kubelink.LinkFor sample.ext (kubelink.NewLinks 80) sample.link_a = inr l
     ∧ kubelink.Host l = "b.example"
     ∧ kubelink.Endpoint l = "b.example:8088"
     ∧ kubelink.ParseInt sample.ext "8088" = Some (kubelink.Port l).
Proof.
  eexists. split; [vm_compute; reflexivity|].
  refine (proj2 (proj2 (proj2
            (X13_LinkFor_endpoint sample.ext (kubelink.NewLinks 80) sample.link_a _ _)))
            "b.example" "8088" eq_refl eq_refl).
  vm_compute. reflexivity.
Defined.

(** ** Lookups that walk the map *)

(** The links visited are the links stored. *)
Lemma visits_elem (this : kubelink.Links) (order : list kubelink.Link) (l : kubelink.Link) :
  kubelink.visits this order →
  l ∈ order ↔ ∃ n, kubelink.links this !! n = Some l.
Proof.
  unfold kubelink.visits. intros ->. rewrite list_elem_of_fmap. split.
  - intros [[n l'] [-> Hin]]. exists n. apply elem_of_map_to_list in Hin. exact Hin.
  - intros [n Hn]. exists (n, l). split; [reflexivity|].
    apply elem_of_map_to_list. exact Hn.
Qed.

Lemma find_Some_elem {A} (p : A → bool) (l : list A) (x : A) :
  List.find p l = Some x → x ∈ l ∧ p x = true.
Proof.
  intros H. apply find_some in H as [Hin Hp]. split; [|exact Hp].
  apply list_elem_of_In. exact Hin.
Qed.

Lemma find_None_elem {A} (p : A → bool) (l : list A) :
  List.find p l = None ↔ ∀ x, x ∈ l → p x = false.
Proof.
  split.
  - intros H x Hx. apply (find_none p l H). apply list_elem_of_In. exact Hx.
  - intros H. destruct (List.find p l) eqn:E; [|reflexivity].
    apply find_Some_elem in E as [Hin Hp]. rewrite (H _ Hin) in Hp. discriminate.
Qed.

(** X14. GetLinkForIP returns the link filed under the address as cluster
    address when there is one. Otherwise it returns a stored link whose
    egress list contains the address, and none exactly when no stored
    link has such an egress list; when at most one stored link has, the
    result does not depend on the order in which Go visits the map. *)
Theorem X14_GetLinkForIP_lookup
    (this : kubelink.Links) (order : list kubelink.Link) (ip : net.IP) :
  kubelink.visits this order →
  (∀ l, kubelink.GetLinkForClusterAddress this ip = Some l →
        kubelink.GetLinkForIP this order ip = Some l)
  ∧ (kubelink.GetLinkForClusterAddress this ip = None →
     (∀ l, kubelink.GetLinkForIP this order ip = Some l →
           (∃ n, kubelink.links this !! n = Some l)
           ∧ tcp.Contains (kubelink.Egress l) ip = true)
     ∧ (kubelink.GetLinkForIP this order ip = None ↔
        ∀ n l, kubelink.links this !! n = Some l →
               tcp.Contains (kubelink.Egress l) ip = false)
     ∧ (∀ order',
          kubelink.visits this order' →
          (∀ n n' l l',
             kubelink.links this !! n = Some l →
             kubelink.links this !! n' = Some l' →
             tcp.Contains (kubelink.Egress l) ip = true →
             tcp.Contains (kubelink.Egress l') ip = true → l = l') →
          kubelink.GetLinkForIP this order' ip
          = kubelink.GetLinkForIP this order ip)).
Proof.
  intros Hv. unfold kubelink.GetLinkForClusterAddress, kubelink.GetLinkForIP.
  split; [intros l ->; reflexivity|]. intros ->.
  assert (∀ order, kubelink.visits this order →
          ∀ l, List.find (λ l, tcp.Contains (kubelink.Egress l) ip) order = Some l →
               (∃ n, kubelink.links this !! n = Some l)
               ∧ tcp.Contains (kubelink.Egress l) ip = true) as Hsound.
  { intros o Ho l Hl. apply find_Some_elem in Hl as [Hin Hp].
    split; [apply (visits_elem this o l Ho); exact Hin|exact Hp]. }
  assert (∀ order, kubelink.visits this order →
          List.find (λ l, tcp.Contains (kubelink.Egress l) ip) order = None ↔
          ∀ n l, kubelink.links this !! n = Some l →
                 tcp.Contains (kubelink.Egress l) ip = false) as Hnone.
  { intros o Ho. rewrite find_None_elem. split.
    - intros H n l Hn. apply H. apply (visits_elem this o l Ho). eauto.
    - intros H l Hin. apply (visits_elem this o l Ho) in Hin as [n Hn]. eauto. }
  split; [exact (Hsound order Hv)|]. split; [exact (Hnone order Hv)|].
  intros order' Hv' Huniq.
  destruct (List.find _ order) as [l|] eqn:E.
  - destruct (List.find _ order') as [l'|] eqn:E'.
    + apply (Hsound _ Hv) in E as [[n Hn] Hc].
      apply (Hsound _ Hv') in E' as [[n' Hn'] Hc'].
      f_equal. exact (Huniq _ _ _ _ Hn' Hn Hc' Hc).
    + apply (Hsound _ Hv) in E as [[n Hn] Hc].
      rewrite (proj1 (Hnone _ Hv') E' _ _ Hn) in Hc. discriminate.
  - apply (Hnone _ Hv'). apply (Hnone _ Hv). exact E.
Qed.

Lemma X14_GetLinkForIP_lookup_witness :
  ∃ l, kubelink.GetLinkForClusterAddress sample.one_link (net.IPv4 192 168 0 12)
       = Some l
     ∧ kubelink.GetLinkForIP sample.one_link
         (map_to_list (kubelink.links sample.one_link)).*2 [192; 168; 0; 12]
       = Some l.
Proof.
  eexists. split; [vm_compute; reflexivity|].
  refine (proj1 (X14_GetLinkForIP_lookup sample.one_link _ [192; 168; 0; 12] _) _ _).
  - unfold kubelink.visits. reflexivity.
  - vm_compute. reflexivity.
Defined.

(** The loop of [GetMeshGatewaysFor] in closed form. *)
Lemma GetMeshGatewaysFor_spec (order : list kubelink.Link) (ip : net.IP) :
  kubelink.GetMeshGatewaysFor order ip
  = (last (omap (λ l, if net.Contains (kubelink.ClusterAddress l) ip
                      then Some (tcp.CIDRNet (kubelink.ClusterAddress l)) else None)
                order),
     kubelink.Gateway <$>
       filter (λ l, net.Contains (kubelink.ClusterAddress l) ip = true) order).
Proof.
  unfold kubelink.GetMeshGatewaysFor.
  induction order as [|l order IH] using rev_ind; [reflexivity|].
  rewrite foldl_app. cbn [foldl]. rewrite IH. clear IH.
  rewrite omap_app, filter_app, fmap_app.
  rewrite filter_cons, filter_nil.
  cbn [omap list_omap]. 
  destruct (net.Contains (kubelink.ClusterAddress l) ip) eqn:E.
  - rewrite decide_True by reflexivity. rewrite last_snoc. reflexivity.
  - rewrite decide_False by discriminate. rewrite !app_nil_r. reflexivity.
Qed.

(** X15. GetMeshGatewaysFor returns the gateways of the stored links
    whose cluster address range contains the address, in the order
    visited and so the same up to order for every run. It returns no
    network exactly when it returns no gateway, which is when no stored
    link has such a range; the network it returns is CIDRNet of the
    cluster address of one of these links and, for an IPv4 network,
    contains the address. *)
Theorem X15_GetMeshGatewaysFor_collects
    (this : kubelink.Links) (order : list kubelink.Link) (ip : net.IP) :
  kubelink.visits this order →
  let r := kubelink.GetMeshGatewaysFor order ip in
  r.2 = kubelink.Gateway <$>
          filter (λ l, net.Contains (kubelink.ClusterAddress l) ip = true) order
  ∧ (r.1 = None ↔ r.2 = [])
  ∧ (r.1 = None ↔
     ∀ n l, kubelink.links this !! n = Some l →
            net.Contains (kubelink.ClusterAddress l) ip = false)
  ∧ (∀ c, r.1 = Some c →
       ∃ n l, kubelink.links this !! n = Some l
            ∧ net.Contains (kubelink.ClusterAddress l) ip = true
            ∧ c = tcp.CIDRNet (kubelink.ClusterAddress l)
            ∧ (more.IPv4net (kubelink.ClusterAddress l) → net.Contains c ip = true))
  ∧ (∀ order', kubelink.visits this order' →
       (kubelink.GetMeshGatewaysFor order' ip).2 ≡ₚ r.2).
Proof.
  intros Hv r. subst r. rewrite !GetMeshGatewaysFor_spec. cbn [fst snd].
  set (hit := λ l, if net.Contains (kubelink.ClusterAddress l) ip
                   then Some (tcp.CIDRNet (kubelink.ClusterAddress l)) else None).
  assert (∀ o, omap hit o = [] ↔
          ∀ l, l ∈ o → net.Contains (kubelink.ClusterAddress l) ip = false) as Hnil.
  { induction o as [|l o IH]; cbn [omap list_omap].
    - split; [intros _ l Hl; inversion Hl|reflexivity].
    - fold (omap hit o). unfold hit at 1. destruct (net.Contains (kubelink.ClusterAddress l) ip) eqn:E.
      + split; [discriminate|]. intros H. specialize (H l (list_elem_of_here _ _)).
        congruence.
      + rewrite IH. split.
        * intros H l' Hl'. apply elem_of_cons in Hl' as [->|Hl']; [exact E|auto].
        * intros H l' Hl'. apply H. apply list_elem_of_further. exact Hl'. }
  assert (∀ o, filter (λ l, net.Contains (kubelink.ClusterAddress l) ip = true) o = [] ↔
          ∀ l, l ∈ o → net.Contains (kubelink.ClusterAddress l) ip = false) as Hfil.
  { intros o. split.
    - intros H l Hl.
      destruct (net.Contains (kubelink.ClusterAddress l) ip) eqn:E; [|reflexivity].
      assert (l ∈ filter (λ l, net.Contains (kubelink.ClusterAddress l) ip = true) o)
        as Hin by (apply list_elem_of_filter; split; assumption).
      rewrite H in Hin. inversion Hin.
    - intros H. destruct (filter _ o) as [|x xs] eqn:E; [reflexivity|].
      assert (x ∈ filter (λ l, net.Contains (kubelink.ClusterAddress l) ip = true) o)
        as Hin by (rewrite E; apply list_elem_of_here).
      apply list_elem_of_filter in Hin as [Hc Hin]. rewrite (H _ Hin) in Hc.
      discriminate. }
  split; [reflexivity|]. split; [|split; [|split]].
  - rewrite last_None, Hnil, <- Hfil. split; [intros ->; reflexivity|apply fmap_nil_inv].
  - rewrite last_None, Hnil. split.
    + intros H n l Hn. apply H. apply (visits_elem this order l Hv). eauto.
    + intros H l Hl. apply (visits_elem this order l Hv) in Hl as [n Hn]. eauto.
  - intros c Hc. apply last_Some_elem_of in Hc.
    apply list_elem_of_omap in Hc as (l & Hin & Hhit). unfold hit in Hhit.
    destruct (net.Contains (kubelink.ClusterAddress l) ip) eqn:E; [|discriminate].
    simplify_eq. apply (visits_elem this order l Hv) in Hin as [n Hn].
    exists n, l. split; [exact Hn|]. split; [exact E|]. split; [reflexivity|].
    intros H4. rewrite (Contains_CIDRNet _ H4). exact E.
  - intros order' Hv'. unfold kubelink.visits in Hv, Hv'.
    rewrite GetMeshGatewaysFor_spec. cbn [snd].
    assert (order' ≡ₚ order) as Hp by (rewrite Hv, Hv'; reflexivity).
    rewrite Hp. reflexivity.
Qed.

Lemma X15_GetMeshGatewaysFor_collects_witness :
  let order := (map_to_list (kubelink.links sample.two_links)).*2 in
  let r := kubelink.GetMeshGatewaysFor order (net.IPv4 192 168 0 77) in
  r.1 = None ↔ r.2 = [].
Proof.
  intros order.
  refine (proj1 (proj2 (X15_GetMeshGatewaysFor_collects sample.two_links order
                          (net.IPv4 192 168 0 77) _))).
  unfold kubelink.visits. reflexivity.
Defined.

(** ** Fields of a link that [LinkFor] builds *)

Lemma LinkFor_ClusterAddress (ext : kubelink.Externals) (this : kubelink.Links)
    (k : kubelink.KubeLink) (l : kubelink.Link) :
  kubelink.LinkFor ext this k = inr l →
  ∃ ip ccidr,
    kubelink.ParseCIDR ext (kubelink.Spec_ClusterAddress k) = Some (ip, ccidr)
    ∧ kubelink.ClusterAddress l = net.mkIPNet ip (net.IPNet_Mask ccidr).
Proof.
  intros H. LinkFor_cases H.
  do 2 eexists. split; reflexivity.
Qed.

Lemma LinkFor_PublicKey (ext : kubelink.Externals) (this : kubelink.Links)
    (k : kubelink.KubeLink) (l : kubelink.Link) :
  kubelink.LinkFor ext this k = inr l →
  kubelink.PublicKey l
  = if kubelink.Empty ext (kubelink.Spec_PublicKey k) then None
    else kubelink.ParseKey ext (kubelink.Spec_PublicKey k).
Proof.
  intros H. LinkFor_cases H.
  destruct (kubelink.Empty ext (kubelink.Spec_PublicKey k)); cbn [negb] in *.
  - congruence.
  - destruct (kubelink.ParseKey ext (kubelink.Spec_PublicKey k)); congruence.
Qed.

Lemma LinkFor_Endpoint_none (ext : kubelink.Externals) (this : kubelink.Links)
    (k : kubelink.KubeLink) (l : kubelink.Link) :
  kubelink.LinkFor ext this k = inr l →
  (kubelink.Endpoint l =? "none")%string
  = (kubelink.Spec_Endpoint k =? "none")%string.
Proof.
  intros H. LinkFor_cases H.
  match goal with
  | Hs : _ = inr (?s, _) |- (?s =? _)%string = _ => rename Hs into Hep
  end.
  destruct (kubelink.Spec_Endpoint k =? "none")%string eqn:En.
  - rewrite andb_false_r in Hep. simplify_eq. exact En.
  - destruct (negb (String.length (kubelink.Spec_Endpoint k) =? 0)%nat);
      cbn [negb andb] in Hep; [|simplify_eq; exact En].
    destruct (length (kubelink.Split (kubelink.Spec_Endpoint k)) =? 1)%nat.
    + simplify_eq. apply String.eqb_neq. intros Hn.
      pose proof (has_colon_app (kubelink.Spec_Endpoint k)
                    (pretty (kubelink.defaultport this))) as Hc.
      change (String ":" (pretty (kubelink.defaultport this)))
        with (String.app ":" (pretty (kubelink.defaultport this))) in Hc.
      rewrite Hn in Hc. discriminate Hc.
    + destruct (kubelink.ParseInt ext _); simplify_eq. exact En.
Qed.

(** X16. A link that LinkFor builds is a WireGuard link exactly when the
    resource has a public key and its endpoint is not "none". *)
Theorem X16_IsWireguard_of_LinkFor
    (ext : kubelink.Externals) (this : kubelink.Links)
    (k : kubelink.KubeLink) (l : kubelink.Link) :
  kubelink.LinkFor ext this k = inr l →
  kubelink.IsWireguard l
  = negb (kubelink.Empty ext (kubelink.Spec_PublicKey k))
    && negb (kubelink.Spec_Endpoint k =? "none")%string.
Proof.
  intros H. unfold kubelink.IsWireguard.
  rewrite (LinkFor_Endpoint_none _ _ _ _ H), (LinkFor_PublicKey _ _ _ _ H).
  f_equal.
  pose proof H as H'. LinkFor_cases H'.
  destruct (kubelink.Empty ext (kubelink.Spec_PublicKey k)); cbn [negb] in *.
  - apply bool_decide_eq_false_2. intros Hn. exact (Hn eq_refl).
  - destruct (kubelink.ParseKey ext (kubelink.Spec_PublicKey k)); [|discriminate].
    apply bool_decide_eq_true_2. discriminate.
Qed.

Lemma X16_IsWireguard_of_LinkFor_witness :
  ∃ l, kubelink.LinkFor sample.ext (kubelink.NewLinks 80) sample.link_a = inr l
     ∧ kubelink.IsWireguard l = false.
Proof.
  eexists. split; [vm_compute; reflexivity|].
  refine (X16_IsWireguard_of_LinkFor sample.ext (kubelink.NewLinks 80)
            sample.link_a _ _).
  vm_compute. reflexivity.
Defined.

(** X17. HasWireguard answers true exactly when some stored link has a
    public key and an endpoint other than "none", in whatever order Go
    visits the map. *)
Theorem X17_HasWireguard_any_order
    (this : kubelink.Links) (order : list kubelink.Link) :
  kubelink.visits this order →
  (kubelink.HasWireguard order = true ↔
   ∃ n l, kubelink.links this !! n = Some l
        ∧ kubelink.PublicKey l ≠ None ∧ kubelink.Endpoint l ≠ "none")
  ∧ (∀ order', kubelink.visits this order' →
       kubelink.HasWireguard order' = kubelink.HasWireguard order).
Proof.
  intros Hv.
  assert (∀ o, kubelink.visits this o →
          kubelink.HasWireguard o = true ↔
          ∃ n l, kubelink.links this !! n = Some l
               ∧ kubelink.PublicKey l ≠ None ∧ kubelink.Endpoint l ≠ "none") as Hw.
  { intros o Ho. unfold kubelink.HasWireguard. rewrite existsb_exists. split.
    - intros (l & Hin & Hl). apply list_elem_of_In in Hin.
      apply (visits_elem this o l Ho) in Hin as [n Hn].
      unfold kubelink.IsWireguard in Hl. apply andb_true_iff in Hl as [Hk He].
      apply bool_decide_eq_true_1 in Hk. apply negb_true_iff, String.eqb_neq in He.
      eauto.
    - intros (n & l & Hn & Hk & He). exists l. split.
      + apply list_elem_of_In. apply (visits_elem this o l Ho). eauto.
      + unfold kubelink.IsWireguard. apply andb_true_iff. split.
        * apply bool_decide_eq_true_2. exact Hk.
        * apply negb_true_iff, String.eqb_neq. exact He. }
  split; [exact (Hw order Hv)|]. intros order' Hv'.
  apply eq_true_iff_eq. rewrite (Hw _ Hv), (Hw _ Hv'). reflexivity.
Qed.

Lemma X17_HasWireguard_any_order_witness :
  let order := (map_to_list (kubelink.links sample.two_links)).*2 in
  kubelink.HasWireguard (reverse order) = kubelink.HasWireguard order.
Proof.
  intros order.
  refine (proj2 (X17_HasWireguard_any_order sample.two_links order _) (reverse order) _).
  - unfold kubelink.visits. reflexivity.
  - unfold kubelink.visits. apply reverse_Permutation.
Defined.

(** ** Endpoints *)

(** The port loop in closed form, from any port chosen so far. *)
Lemma select_port_spec (ports : list string) :
  ∀ port,
    controllers.select_port port ports
    = match last (filter (λ p, p = "wireguard" ∨ p = "bridge") ports) with
      | Some p => Some p
      | None => match port with Some q => Some q | None => head ports end
      end.
Proof.
  induction ports as [|p ports IH]; intros port.
  - cbn. destruct port; reflexivity.
  - cbn [controllers.select_port]. rewrite IH. rewrite filter_cons.
    destruct (String.eqb_spec p "wireguard") as [Hw|Hw];
      [|destruct (String.eqb_spec p "bridge") as [Hb|Hb]].
    + rewrite orb_true_r. cbn [orb]. rewrite decide_True by (left; exact Hw).
      rewrite last_cons. destruct (last _); reflexivity.
    + rewrite orb_true_r. rewrite decide_True by (right; exact Hb).
      rewrite last_cons. destruct (last _); reflexivity.
    + rewrite !orb_false_r. rewrite decide_False by (intros [?|?]; contradiction).
      destruct port; cbn [head].
      * rewrite bool_decide_eq_false_2 by discriminate. reflexivity.
      * rewrite bool_decide_eq_true_2 by reflexivity. destruct (last _); reflexivity.
Qed.

(** X18. The port loop of GetEndpoints picks the last port named
    "wireguard" or "bridge", or the first port when no port has such a
    name. The choice does not bear on the result: GetEndpoints returns
    the addresses that parse, in their order, of the subsets that have a
    port at all. *)
Theorem X18_GetEndpoints_port_choice
    (ParseIP : string → option net.IP) (subsets : list controllers.EndpointSubset) :
  (∀ ports,
     controllers.select_port None ports
     = match last (filter (λ p, p = "wireguard" ∨ p = "bridge") ports) with
       | Some p => Some p
       | None => head ports
       end)
  ∧ controllers.GetEndpoints ParseIP subsets
    = omap ParseIP
        (subsets
           ≫= λ sub, if bool_decide (controllers.Ports sub = [])
                     then [] else controllers.Addresses sub)
  ∧ (∀ ip, ip ∈ controllers.GetEndpoints ParseIP subsets ↔
       ∃ sub a, sub ∈ subsets ∧ controllers.Ports sub ≠ []
              ∧ a ∈ controllers.Addresses sub ∧ ParseIP a = Some ip).
Proof.
  assert (controllers.GetEndpoints ParseIP subsets
          = omap ParseIP
              (subsets
                 ≫= λ sub, if bool_decide (controllers.Ports sub = [])
                           then [] else controllers.Addresses sub)) as Heq.
  { unfold controllers.GetEndpoints.
    induction subsets as [|sub subsets IH]; [reflexivity|].
    cbn [flat_map]. rewrite bind_cons, omap_app, IH. f_equal.
    rewrite select_port_spec.
    destruct (controllers.Ports sub) as [|p ps] eqn:Ep.
    - reflexivity.
    - rewrite bool_decide_eq_false_2 by discriminate.
      cbn [head]. destruct (last _); reflexivity. }
  split; [intros ports; apply select_port_spec|]. split; [exact Heq|].
  intros ip. rewrite Heq, list_elem_of_omap. split.
  - intros (a & Ha & Hp). apply list_elem_of_bind in Ha as (sub & Ha & Hs).
    destruct (bool_decide_reflect (controllers.Ports sub = [])) as [He|Hne];
      [inversion Ha|].
    exists sub, a. auto.
  - intros (sub & a & Hs & Hne & Ha & Hp). exists a. split; [|exact Hp].
    apply list_elem_of_bind. exists sub. split; [|exact Hs].
    rewrite bool_decide_eq_false_2 by exact Hne. exact Ha.
Qed.

(** ** Responsibility of a broker *)



(** ** Streams of frames *)

Section Streams.
Import broker frames.

Lemma encode_cons (f : Z * list Z) (fs : list (Z * list Z)) :
  encode (f :: fs) = frame f.1 f.2 ++ encode fs.
Proof. reflexivity. Qed.

Lemma WritePackets_open (fs : list (Z * list Z)) :
  ∀ c, closed c = false → Forall (λ f, Z.of_nat (length f.2) <= 65535) fs →
       more.WritePackets c fs = Val (with_wr c (wr c ++ encode fs), None).
Proof.
  induction fs as [|[ty p] fs IH]; intros c Hopen Hall.
  - cbn [more.WritePackets]. unfold encode. cbn [map concat].
    rewrite app_nil_r, with_wr_id. reflexivity.
  - inversion Hall as [|? ? Hf Hall']; subst. cbn [fst snd] in Hf.
    cbn [more.WritePackets fst snd].
    rewrite WritePacket_open by assumption. cbn [mbind exec_bind].
    rewrite IH by (try exact Hall'; exact Hopen).
    rewrite encode_cons. cbn [fst snd with_wr wr rd rd_chunk wr_chunk closed].
    rewrite <- app_assoc. reflexivity.
Qed.

Lemma ReadPackets_frames (fs : list (Z * list Z)) :
  ∀ c buffer rest,
    closed c = false → rd c = encode fs ++ rest → Forall fits fs →
    Z.of_nat (length buffer) = BufferSize →
    more.ReadPackets (length fs) c buffer = Val (with_rd c rest, fs, None).
Proof.
  induction fs as [|[ty p] fs IH]; intros c buffer rest Hopen Hrd Hfits Hbuf.
  - cbn [length more.ReadPackets]. cbn in Hrd. rewrite <- Hrd, with_rd_id.
    reflexivity.
  - inversion Hfits as [|? ? Hfit Hfits']; subst.
    unfold fits, BufferSize in Hfit, Hbuf. cbn [snd] in Hfit.
    rewrite encode_cons, <- app_assoc in Hrd. cbn [fst snd] in Hrd.
    cbn [length more.ReadPackets].
    rewrite (ReadPacket_frame c buffer ty p (encode fs ++ rest))
      by (try assumption; lia).
    cbn [mbind exec_bind].
    rewrite (IH (with_rd c (encode fs ++ rest)) (p ++ drop (length p) buffer) rest);
      try assumption; try reflexivity.
    + cbn [mbind exec_bind]. rewrite Nat2Z.id, take_app_length.
      destruct c; reflexivity.
    + unfold BufferSize. rewrite length_app, length_drop. lia.
Qed.

End Streams.



(** A stream that breaks off. *)

Section Tails.
Import broker frames.

Variable ParseHeader : list Z → option (net.IP * net.IP).
Variable Tun : Type.
Variable tun_Write : Tun → list Z → Tun * Z * option error.
Variable mux : Mux.

Local Abbreviation serve_loop := (broker.serve_loop ParseHeader Tun tun_Write mux).
Local Abbreviation serve := (broker.serve ParseHeader Tun tun_Write mux).
Local Abbreviation deliverable := (frames.deliverable ParseHeader mux).
Local Abbreviation write_all := (frames.write_all Tun tun_Write).
Local Abbreviation outcome := (frames.outcome Tun).

(** [ReadPacket] on a broken frame returns an error; when it also
    returns a length, the error is EOF. *)
Lemma ReadPacket_stops (c : Conn) (buffer : list Z) :
  closed c = false → more.stops (rd c) = true →
  Z.of_nat (length buffer) = BufferSize →
  ∃ c' buffer' n ty e,
    ReadPacket c buffer = Val (c', buffer', (n, ty, Some e))
    ∧ (0 < n → e = EOF).
Proof.
  intros Hopen Hstop Hbuf. unfold ReadPacket.
  rewrite read_open by exact Hopen.
  destruct (rd c) as [|b0 [|b1 [|ty rest]]] eqn:Hrd;
    try (cbn [length Nat.leb mbind exec_bind];
         eexists _, _, _, _, _; split; [reflexivity|lia]).
  cbn [length Nat.leb firstn skipn mbind exec_bind].
  rewrite ?drop_0, ?take_0. cbn [more.stops] in Hstop.
  change (tunnel.NtoHs [b0; b1]) with (tunnel.NtoHs [b0; b1; ty]) in Hstop.
  destruct (tunnel.NtoHs [b0; b1; ty]) as [n|] eqn:Hn; [|discriminate].
  change (take 2 [b0; b1; ty]) with [b0; b1].
  change (tunnel.NtoHs [b0; b1]) with (tunnel.NtoHs [b0; b1; ty]). rewrite Hn.
  destruct (Z.gtb_spec n (Z.of_nat (length buffer))) as [Hbig|Hfit].
  - eexists _, _, _, _, _. split; [reflexivity|lia].
  - apply orb_true_iff in Hstop as [Hshort|Hbig];
      [|apply Z.ltb_lt in Hbig; lia].
    apply Z.ltb_lt in Hshort.
    rewrite read_open by exact Hopen. cbn [rd with_rd].
    rewrite length_take.
    destruct (Nat.leb_spec (Z.to_nat n `min` length buffer) (length rest)) as [Hle|Hgt];
      [lia|].
    cbn [mbind exec_bind]. eexists _, _, _, _, _. split; [reflexivity|reflexivity].
Qed.

Lemma serve_loop_stops (fuel : nat) (c : Conn) (buffer : list Z) (tun : Tun) :
  (closed c = true ∨ more.stops (rd c) = true) →
  Z.of_nat (length buffer) = BufferSize →
  ∃ c', serve_loop (S fuel) c buffer tun = Val (c', tun, EOF).
Proof.
  intros Hc Hbuf. cbn [broker.serve_loop].
  destruct (closed c) eqn:Hopen.
  - unfold ReadPacket. rewrite read_closed by exact Hopen.
    cbn [length Nat.eqb mbind exec_bind].
    rewrite bool_decide_eq_true_2 by discriminate. cbn [Z.ltb Z.leb Z.compare orb].
    eexists. reflexivity.
  - destruct Hc as [Hc|Hstop]; [discriminate|].
    destruct (ReadPacket_stops c buffer Hopen Hstop Hbuf)
      as (c' & buffer' & n & ty & e & -> & He).
    cbn [mbind exec_bind].
    rewrite bool_decide_eq_true_2 by discriminate. rewrite orb_true_r.
    exists c'. destruct (Z.leb_spec n 0) as [Hn|Hn]; [reflexivity|].
    rewrite (He Hn). reflexivity.
Qed.

Lemma serve_loop_frames_then (fs : list (Z * list Z)) (tail : list Z) :
  ∀ (fuel : nat) (c : Conn) (buffer : list Z) (tun : Tun),
    closed c = false → rd c = encode fs ++ tail → Forall fits fs →
    more.stops tail = true →
    Z.of_nat (length buffer) = BufferSize → (length fs < fuel)%nat →
    outcome (serve_loop fuel c buffer tun)
    = write_all tun (map snd (List.filter deliverable fs)).
Proof.
  induction fs as [|[ty p] fs IH];
    intros fuel c buffer tun Hopen Hrd Hfits Hstop Hbuf Hfuel;
    (destruct fuel as [|fuel]; [simpl in Hfuel; lia|]).
  - cbn [encode map concat app] in Hrd.
    destruct (serve_loop_stops fuel c buffer tun) as [c' ->];
      [right; rewrite Hrd; exact Hstop|exact Hbuf|reflexivity].
  - inversion Hfits as [|? ? Hfit Hfits']; subst.
    rewrite encode_cons, <- app_assoc in Hrd. cbn [fst snd] in Hrd.
    rewrite (serve_loop_frame ParseHeader Tun tun_Write mux fuel c buffer tun ty p
               (encode fs ++ tail)) by assumption.
    assert (Z.of_nat (length (p ++ drop (length p) buffer)) = BufferSize) as Hbuf'.
    { unfold fits, BufferSize in *. cbn [snd] in Hfit.
      rewrite length_app, length_drop. lia. }
    cbn [List.filter]. simpl in Hfuel.
    destruct (deliverable (ty, p)).
    + cbn [map snd frames.write_all].
      destruct (tun_Write tun p) as [[tun' o] [e|]]; [reflexivity|].
      destruct (negb (Z.of_nat (length p) =? o)); [reflexivity|].
      apply IH; try assumption; try reflexivity. lia.
    + apply IH; try assumption; try reflexivity. lia.
Qed.

End Tails.

(** X21. On a stream of whole frames followed by a broken one (the stream
    ends inside its header or inside its payload, or its header declares
    more than the buffer holds), the read loop hands the payloads of the
    deliverable frames to the tun device in their order of arrival and
    then ends with EOF, as it does on the stream without the broken
    frame: nothing of the broken frame and nothing behind it reaches the
    tun device. *)
Theorem X21_serve_stops_at_broken_frame
    (ParseHeader : list Z → option (net.IP * net.IP))
    (Tun : Type) (tun_Write : Tun → list Z → Tun * Z * option error)
    (mux : broker.Mux) (c : broker.Conn) (tun : Tun)
    (fs : list (Z * list Z)) (tail : list Z) :
  broker.closed c = false → Forall frames.fits fs → more.stops tail = true →
  frames.outcome Tun
    (broker.serve ParseHeader Tun tun_Write mux
       (broker.with_rd c (frames.encode fs ++ tail)) tun)
  = frames.write_all Tun tun_Write tun
      (map snd (List.filter (frames.deliverable ParseHeader mux) fs)).
Proof.
  intros Hopen Hfits Hstop. unfold broker.serve.
  apply (serve_loop_frames_then ParseHeader Tun tun_Write mux fs tail).
  - exact Hopen.
  - reflexivity.
  - exact Hfits.
  - exact Hstop.
  - rewrite length_replicate. apply Z2Nat.id. unfold broker.BufferSize. lia.
  - cbn [broker.rd broker.with_rd]. rewrite length_app.
    pose proof (length_encode fs). lia.
Qed.

Lemma X21_serve_stops_at_broken_frame_witness :
  frames.outcome (list (list Z))
    (broker.serve sample.ParseHeader (list (list Z)) broker.log_Write
       (sample.mux (net.mkIPNet (net.IPv4 192 168 0 11) [255; 255; 255; 0]))
       (broker.with_rd (sample.conn [])
          (frames.encode [(0, [96; 1])] ++ [0; 5; 0; 96]))
       [])
  = Val ([[96; 1]], EOF).
Proof.
  refine (eq_trans
            (X21_serve_stops_at_broken_frame sample.ParseHeader (list (list Z))
               broker.log_Write
               (sample.mux (net.mkIPNet (net.IPv4 192 168 0 11) [255; 255; 255; 0]))
               (sample.conn []) [] [(0, [96; 1])] [0; 5; 0; 96] eq_refl _ eq_refl) _).
  - repeat constructor; unfold frames.fits, broker.BufferSize; simpl; lia.
  - vm_compute. reflexivity.
Defined.

(** X20. Serve on a closed connection, or on a stream on which the first
    ReadPacket fails, returns EOF with the tun device untouched and
    notifies nobody. When the tun device refuses the payload of the first
    frame with an error other than EOF, Serve returns this error and
    notifies the mux and then the handlers in the order they were
    registered. *)
Theorem X20_Serve_notifies
    (ParseHeader : list Z → option (net.IP * net.IP))
    (Tun : Type) (tun_Write : Tun → list Z → Tun * Z * option error)
    (mux : broker.Mux) (Handler : Type)
    (c : broker.Conn) (tun : Tun) (registered handlers : list Handler) :
  ((broker.closed c = true ∨ more.stops (broker.rd c) = true) →
   ∃ c', broker.Serve ParseHeader Tun tun_Write mux Handler c tun
           (broker.RegisterStateHandler registered handlers)
         = Val (c', tun, EOF, []))
  ∧ (∀ ty p rest tun' o e,
       broker.closed c = false → broker.rd c = broker.frame ty p ++ rest →
       frames.fits (ty, p) →
       frames.deliverable ParseHeader mux (ty, p) = true →
       tun_Write tun p = (tun', o, Some e) → e ≠ EOF →
       broker.Serve ParseHeader Tun tun_Write mux Handler c tun
         (broker.RegisterStateHandler registered handlers)
       = Val (broker.with_rd c rest, tun', e,
              broker.NotifiedMux e
                :: map (λ h, broker.NotifiedHandler h e) registered
                ++ map (λ h, broker.NotifiedHandler h e) handlers)).
Proof.
  assert (Z.of_nat (length (replicate (Z.to_nat broker.BufferSize) 0))
          = broker.BufferSize) as Hbuf
    by (rewrite length_replicate; apply Z2Nat.id; unfold broker.BufferSize; lia).
  split.
  - intros Hc. unfold broker.Serve, broker.serve.
    destruct (serve_loop_stops ParseHeader Tun tun_Write mux
                (length (broker.rd c)) c _ tun Hc Hbuf) as [c' ->].
    exists c'. reflexivity.
  - intros ty p rest tun' o e Hopen Hrd Hfit Hdel Hw He.
    unfold broker.Serve, broker.serve.
    rewrite (serve_loop_frame ParseHeader Tun tun_Write mux _ c _ tun ty p rest)
      by assumption.
    rewrite Hdel, Hw. cbn [mbind exec_bind].
    unfold broker.notify, broker.RegisterStateHandler. rewrite map_app.
    destruct e; try reflexivity. contradiction.
Qed.

Lemma X20_Serve_notifies_witness :
  (∃ c', broker.Serve sample.ParseHeader (list (list Z)) broker.log_Write
           (sample.mux (net.mkIPNet (net.IPv4 192 168 0 11) [255; 255; 255; 0]))
           string (sample.conn [78; 32; 0; 69; 0]) []
           (broker.RegisterStateHandler ["first"] ["second"])
         = Val (c', [], EOF, []))
  ∧ broker.Serve sample.ParseHeader unit (λ tun _, (tun, 0, Some ErrClosed))
      (sample.mux (net.mkIPNet (net.IPv4 192 168 0 11) [255; 255; 255; 0]))
      string (sample.conn (broker.frame 0 [96; 1])) tt
      (broker.RegisterStateHandler ["first"] ["second"])
    = Val (sample.conn [], tt, ErrClosed,
           [broker.NotifiedMux ErrClosed;
            broker.NotifiedHandler "first" ErrClosed;
            broker.NotifiedHandler "second" ErrClosed]).
Proof.
  split.
  - refine (proj1 (X20_Serve_notifies sample.ParseHeader (list (list Z))
                     broker.log_Write _ string (sample.conn [78; 32; 0; 69; 0]) []
                     ["first"] ["second"]) (or_intror eq_refl)).
  - refine (proj2 (X20_Serve_notifies sample.ParseHeader unit
                     (λ tun _, (tun, 0, Some ErrClosed)) _ string
                     (sample.conn (broker.frame 0 [96; 1])) tt ["first"] ["second"])
              0 [96; 1] [] tt 0 ErrClosed eq_refl eq_refl _ eq_refl eq_refl _).
    + unfold frames.fits, broker.BufferSize; simpl; lia.
    + discriminate.
Defined.

(** ** The first frame of a handshake *)

Section Hello.
Import broker frames.

Variable codec : HelloCodec.
Variable mux : Mux.

Lemma readHello_frame (c : Conn) (ty : Z) (d rest : list Z) :
  closed c = false → rd c = frame ty d ++ rest → fits (ty, d) →
  readHello codec mux c
  = Val (with_rd c rest,
         if ty =? PACKET_TYPE_HELLO then parseHelloPacket codec mux d
         else inl (ErrUnexpectedPacket ty)).
Proof.
  intros Hopen Hrd Hfit. unfold fits, BufferSize in Hfit. cbn [snd] in Hfit.
  unfold readHello.
  rewrite (ReadPacket_frame c _ ty d rest)
    by (try assumption; rewrite ?length_replicate; unfold BufferSize; lia).
  cbn [mbind exec_bind]. rewrite Nat2Z.id, take_app_length.
  destruct (ty =? PACKET_TYPE_HELLO); reflexivity.
Qed.

Lemma handshake_frame (c : Conn) (ty : Z) (d rest : list Z) :
  closed c = false → rd c = frame ty d ++ rest → fits (ty, d) →
  Z.of_nat (length (Data codec (createHello codec mux))) <= 65535 →
  handshake codec mux c
  = Val (with_rd (with_wr c (wr c ++ frame PACKET_TYPE_HELLO
                                      (Data codec (createHello codec mux)))) rest,
         if ty =? PACKET_TYPE_HELLO
         then match parseHelloPacket codec mux d with
              | inl e => inl (ErrHandshake e)
              | inr h => inr h
              end
         else inl (ErrHandshake (ErrUnexpectedPacket ty))).
Proof.
  intros Hopen Hrd Hfit Hlen. unfold handshake, writeHello.
  rewrite WritePacket_open by assumption. cbn [mbind exec_bind].
  rewrite (readHello_frame _ ty d rest) by assumption.
  cbn [mbind exec_bind].
  destruct (ty =? PACKET_TYPE_HELLO); [|reflexivity].
  destruct (parseHelloPacket codec mux d); reflexivity.
Qed.

End Hello.



(** ** Equal networks *)

Lemma Equal_sym (a b : net.IP) : net.Equal a b = net.Equal b a.
Proof.
  apply eq_true_iff_eq. rewrite !Equal_IP_String. split; congruence.
Qed.

Lemma Equal_trans (a b c : net.IP) :
  net.Equal a b = true → net.Equal b c = true → net.Equal a c = true.
Proof. rewrite !Equal_IP_String. congruence. Qed.

Lemma Equal_To4_v4 (a b : net.IP) :
  length (net.To4 a) = 4%nat → net.Equal a b = true → net.To4 a = net.To4 b.
Proof.
  intros Ha He. apply Equal_IP_String in He. unfold net.IP_String in He.
  rewrite Ha in He. cbn [Nat.eqb net.IPv4len] in He.
  destruct (Nat.eqb_spec (length (net.To4 b)) net.IPv4len) as [Hb|Hb]; [exact He|].
  subst b. unfold net.IPv4len in Hb. 
  destruct (To4_cases (net.To4 a)) as [[_ H]|[(H & _)|(H & _)]]; congruence || lia.
Qed.

(** X6. EqualCIDR is an equivalence relation on networks, [nil]
    included, and two IPv4 networks it holds for contain the same
    addresses. *)
Theorem X6_EqualCIDR_equivalence (a b c : option net.IPNet) :
  tcp.EqualCIDR a a = true
  ∧ tcp.EqualCIDR a b = tcp.EqualCIDR b a
  ∧ (tcp.EqualCIDR a b = true → tcp.EqualCIDR b c = true → tcp.EqualCIDR a c = true)
  ∧ (∀ x y, a = Some x → b = Some y → more.IPv4net x → more.IPv4net y →
       tcp.EqualCIDR a b = true →
       ∀ ip, net.Contains x ip = net.Contains y ip).
Proof.
  split; [|split; [|split]].
  - destruct a as [x|]; [|reflexivity]. cbn [tcp.EqualCIDR].
    rewrite !Equal_refl. reflexivity.
  - destruct a as [x|], b as [y|]; try reflexivity. cbn [tcp.EqualCIDR].
    rewrite (Equal_sym (net.IPNet_IP x)), (Equal_sym (net.IPNet_Mask x)). reflexivity.
  - destruct a as [x|], b as [y|], c as [z|]; cbn [tcp.EqualCIDR]; try done.
    rewrite !andb_true_iff. intros [H1 H2] [H3 H4].
    split; eapply Equal_trans; eassumption.
  - intros x y -> -> [Hmx H4x] [Hmy H4y]. cbn [tcp.EqualCIDR].
    rewrite andb_true_iff. intros [Hip Hm] ip.
    assert (net.IPNet_Mask x = net.IPNet_Mask y) as Hmask.
    { unfold net.Equal in Hm. rewrite Hmx, Hmy in Hm. cbn [Nat.eqb] in Hm.
      apply bytes_eqb_eq. exact Hm. }
    pose proof (Equal_To4_v4 _ _ H4x Hip) as Hto4.
    unfold net.Contains.
    rewrite (networkNumberAndMask_v4 x) by (split; assumption).
    rewrite (networkNumberAndMask_v4 y) by (split; assumption).
    rewrite Hmask, Hto4. reflexivity.
Qed.

Lemma X6_EqualCIDR_equivalence_witness :
  let x := net.mkIPNet (net.IPv4 192 168 0 11) [255; 255; 255; 0] in
  let y := net.mkIPNet [192; 168; 0; 11] [255; 255; 255; 0] in
  tcp.EqualCIDR (Some x) (Some y) = true
  ∧ net.Contains x (net.IPv4 192 168 0 77) = net.Contains y (net.IPv4 192 168 0 77).
Proof.
  intros x y. split; [reflexivity|].
  exact (proj2 (proj2 (proj2 (X6_EqualCIDR_equivalence (Some x) (Some y) None)))
           x y eq_refl eq_refl (conj eq_refl eq_refl) (conj eq_refl eq_refl) eq_refl
           (net.IPv4 192 168 0 77)).
Defined.

(** ** Ingress and egress of a link *)

(** The ingress decision of a link in terms of the entries its range was
    parsed from. *)
Lemma AllowIngress_of_entries (ext : kubelink.Externals) (entries : list string)
    (l : kubelink.Link) (ip : net.IP) :
  kubelink.ParseIPRange ext entries = inr (kubelink.Ingress l) →
  let allowed := omap (more.parsed ext false) entries in
  let denied := omap (more.parsed ext true) entries in
  kubelink.AllowIngress l ip
  = if bool_decide (entries = []) then (true, false)
    else (negb ((bool_decide (allowed = [])
                 || existsb (λ c, net.Contains c ip) allowed)
                && existsb (λ c, net.Contains c ip) denied),
          true).
Proof.
  intros Hin allowed denied. unfold kubelink.AllowIngress.
  destruct entries as [|c0 cs] eqn:Hs.
  - cbn in Hin. injection Hin as <-. reflexivity.
  - rewrite bool_decide_eq_false_2 by discriminate.
    assert (Forall (fun c => is_Some (kubelink.ParseNet ext (more.entry c).2))
                   (c0 :: cs)) as Hall.
    { unfold kubelink.ParseIPRange in Hin.
      destruct (kubelink.ParseIPRange_loop ext _ (c0 :: cs)) eqn:Hl; [discriminate|].
      exact (ParseIPRange_loop_inr ext _ _ _ Hl). }
    destruct (ParseIPRange_ok ext (c0 :: cs) ltac:(discriminate) Hall)
      as (r & Hr & Ha & Hd & Sa & Sd & Hset).
    rewrite Hr in Hin. injection Hin as <-.
    rewrite Hset. cbn [negb]. f_equal.
    rewrite IPRange_Contains_eq. unfold tcp.Contains. rewrite Sa, Ha, Hd.
    rewrite negb_involutive. reflexivity.
Qed.

Lemma LinkFor_Ingress (ext : kubelink.Externals) (this : kubelink.Links)
    (k : kubelink.KubeLink) (l : kubelink.Link) :
  kubelink.LinkFor ext this k = inr l →
  kubelink.ParseIPRange ext (kubelink.Spec_Ingress k) = inr (kubelink.Ingress l).
Proof. intros H. LinkFor_cases H. reflexivity. Qed.

(** X24. The ingress decision of a link that LinkFor builds, in terms of
    the ingress entries of the resource: without entries every address is
    granted and the policy is reported as not set; with entries an
    address is refused exactly when a "!" entry contains it and, if there
    are plain entries, one of them contains it as well. *)
Theorem X24_ingress_of_LinkFor
    (ext : kubelink.Externals) (this : kubelink.Links)
    (k : kubelink.KubeLink) (l : kubelink.Link) (ip : net.IP) :
  kubelink.LinkFor ext this k = inr l →
  let allowed := omap (more.parsed ext false) (kubelink.Spec_Ingress k) in
  let denied := omap (more.parsed ext true) (kubelink.Spec_Ingress k) in
  kubelink.AllowIngress l ip
  = if bool_decide (kubelink.Spec_Ingress k = []) then (true, false)
    else (negb ((bool_decide (allowed = [])
                 || existsb (λ c, net.Contains c ip) allowed)
                && existsb (λ c, net.Contains c ip) denied),
          true).
Proof.
  intros H. exact (AllowIngress_of_entries ext _ l ip (LinkFor_Ingress _ _ _ _ H)).
Qed.

Lemma X24_ingress_of_LinkFor_witness :
  ∃ l, kubelink.LinkFor sample.ext (kubelink.NewLinks 80) sample.link_a = inr l
     ∧ kubelink.AllowIngress l [100; 64; 16; 5] = (false, true)
     ∧ kubelink.AllowIngress l [100; 64; 16; 77] = (true, true).
Proof.
  eexists. split; [vm_compute; reflexivity|]. split.
  - refine (eq_trans (X24_ingress_of_LinkFor sample.ext (kubelink.NewLinks 80)
                        sample.link_a _ [100; 64; 16; 5] _) _);
      vm_compute; reflexivity.
  - refine (eq_trans (X24_ingress_of_LinkFor sample.ext (kubelink.NewLinks 80)
                        sample.link_a _ [100; 64; 16; 77] _) _);
      vm_compute; reflexivity.
Defined.

(** The egress loop of [LinkFor] in closed form. *)
Lemma egress_loop_spec (ext : kubelink.Externals) (l : list string) :
  ∀ egress,
    kubelink.egress_loop ext egress l
    = match mapM (kubelink.ParseNet ext) l with
      | Some es => Some (tcp.Add egress es)
      | None => None
      end.
Proof.
  induction l as [|c l IH]; intros egress.
  - cbn. destruct egress as [e|]; cbn; [rewrite app_nil_r|]; reflexivity.
  - cbn [kubelink.egress_loop mapM]. 
    destruct (kubelink.ParseNet ext c) as [cidr|]; cbn; [|reflexivity].
    rewrite IH. destruct (mapM (kubelink.ParseNet ext) l) as [es|]; cbn; [|reflexivity].
    f_equal. destruct egress as [e|]; cbn; [rewrite <- app_assoc|]; reflexivity.
Qed.

(** X25. The egress list of a link that LinkFor builds holds the service
    CIDR, when the resource has one, followed by the networks of the
    egress entries in their order. When an egress entry does not parse,
    LinkFor fails with the routing-CIDR error that quotes the CIDR field
    of the resource, not the entry. *)
Theorem X25_egress_of_LinkFor
    (ext : kubelink.Externals) (this : kubelink.Links) (k : kubelink.KubeLink) :
  (∀ l, kubelink.LinkFor ext this k = inr l →
     ∃ es, mapM (kubelink.ParseNet ext) (kubelink.Spec_Egress k) = Some es
         ∧ kubelink.ServiceCIDR l
           = (if kubelink.Empty ext (kubelink.Spec_CIDR k) then None
              else snd <$> kubelink.ParseCIDR ext (kubelink.Spec_CIDR k))
         ∧ tcp.elems (kubelink.Egress l)
           = match kubelink.ServiceCIDR l with Some c => [c] | None => [] end ++ es
         ∧ ∀ ip, tcp.Contains (kubelink.Egress l) ip
                 = existsb (λ c, net.Contains c ip)
                     (match kubelink.ServiceCIDR l with Some c => [c] | None => [] end
                      ++ es))
  ∧ ((kubelink.Empty ext (kubelink.Spec_CIDR k) = true
      ∨ is_Some (kubelink.ParseCIDR ext (kubelink.Spec_CIDR k))) →
     mapM (kubelink.ParseNet ext) (kubelink.Spec_Egress k) = None →
     kubelink.LinkFor ext this k
     = inl (ErrInvalidRoutingCIDR (kubelink.Spec_CIDR k))).
Proof.
  split.
  - intros l H. LinkFor_cases H.
    match goal with
    | He : kubelink.egress_loop ext _ _ = Some _ |- _ =>
        rewrite egress_loop_spec in He;
        destruct (mapM (kubelink.ParseNet ext) (kubelink.Spec_Egress k)) as [es|];
        [|discriminate He]; injection He as <-
    end.
    exists es. split; [reflexivity|].
    destruct (kubelink.Empty ext (kubelink.Spec_CIDR k)); cbn [negb] in *.
    + simplify_eq. split; [reflexivity|]. unfold tcp.Contains.
      destruct es; split; reflexivity.
    + destruct (kubelink.ParseCIDR ext (kubelink.Spec_CIDR k)) as [[? cidr]|];
        [|discriminate].
      simplify_eq. split; [reflexivity|]. split; reflexivity.
  - intros Hc He. unfold kubelink.LinkFor.
    destruct (kubelink.Empty ext (kubelink.Spec_CIDR k)); cbn [negb].
    + rewrite egress_loop_spec, He. reflexivity.
    + destruct Hc as [Hc|[[? cidr] Hc]]; [discriminate|]. rewrite Hc.
      rewrite egress_loop_spec, He. reflexivity.
Qed.

Lemma X25_egress_of_LinkFor_witness :
  let k := kubelink.mkKubeLink "a" "100.64.16.0/20" "192.168.0.12/24" "b.example"
             [] ["100.64.16.0/28"; "10.0.0.0/33"] "" "10.250.0.1" in
  kubelink.LinkFor sample.ext (kubelink.NewLinks 80) k
  = inl (ErrInvalidRoutingCIDR "100.64.16.0/20").
Proof.
  intros k.
  refine (proj2 (X25_egress_of_LinkFor sample.ext (kubelink.NewLinks 80) k)
            (or_intror _) eq_refl).
  vm_compute. eauto.
Defined.

(** ** The packet filter of the read loop *)

(** X26. The filter of the read loop, for a mux whose registry has just
    taken a link by UpdateLink. A packet that is not IPv4 passes
    unchecked, and an IPv4 packet whose header does not parse is dropped.
    An IPv4 packet from outside the local range passes exactly when it is
    addressed to the own cluster address. An IPv4 packet from the cluster
    address of the link passes, when the resource has no ingress entries,
    exactly when the local list is nil or contains the destination, and
    otherwise exactly when the ingress entries grant the destination: it
    is dropped when a "!" entry contains the destination and, if there
    are plain entries, one of them contains it as well. *)
Theorem X26_serve_filter
    (ParseHeader : list Z → option (net.IP * net.IP)) (mux : broker.Mux)
    (ext : kubelink.Externals) (this : kubelink.Links) (k : kubelink.KubeLink)
    (l : kubelink.Link) (packet : list Z) :
  kubelink.UpdateLink ext this k = (broker.links mux, inr l) →
  let vers := Z.shiftr (packet !!! 0%nat) 4 in
  let allowed := omap (more.parsed ext false) (kubelink.Spec_Ingress k) in
  let denied := omap (more.parsed ext true) (kubelink.Spec_Ingress k) in
  (vers ≠ 4 → broker.accepts ParseHeader mux packet = true)
  ∧ (vers = 4 → ParseHeader packet = None →
     broker.accepts ParseHeader mux packet = false)
  ∧ (∀ Src Dst,
       vers = 4 → ParseHeader packet = Some (Src, Dst) →
       (net.Contains (broker.clusterAddr mux) Src = false →
        broker.accepts ParseHeader mux packet
        = net.Equal Dst (net.IPNet_IP (broker.clusterAddr mux)))
       ∧ (net.Contains (broker.clusterAddr mux) Src = true →
          net.Equal Src (net.IPNet_IP (kubelink.ClusterAddress l)) = true →
          broker.accepts ParseHeader mux packet
          = if bool_decide (kubelink.Spec_Ingress k = [])
            then negb (tcp.IsSet (broker.local mux))
                 || tcp.Contains (broker.local mux) Dst
            else negb ((bool_decide (allowed = [])
                        || existsb (λ c, net.Contains c Dst) allowed)
                       && existsb (λ c, net.Contains c Dst) denied))).
Proof.
  intros Hu vers allowed denied. unfold broker.accepts. fold vers.
  unfold broker.ipv4_Version.
  split; [|split].
  - intros Hv. destruct (Z.eqb_spec vers 4) as [?|_]; [contradiction|reflexivity].
  - intros -> ->. reflexivity.
  - intros Src Dst -> ->. cbn [Z.eqb Pos.eqb]. split.
    + intros ->. destruct (net.Equal Dst _); reflexivity.
    + intros -> He.
      pose proof (updateLink_result ext this k) as Hr.
      unfold kubelink.UpdateLink in Hu.
      destruct (kubelink.LinkFor ext this k) as [e|l0] eqn:Hp;
        [rewrite Hr in Hu; discriminate|].
      destruct Hr as (this1 & l1 & Hu1 & Hl1 & _ & _ & Hc).
      rewrite Hu1 in Hu. injection Hu as -> ->.
      assert (kubelink.GetLinkForClusterAddress (broker.links mux) Src = Some l) as ->.
      { unfold kubelink.GetLinkForClusterAddress.
        apply Equal_IP_String in He. rewrite He, Hl1.
        cbn [kubelink.ClusterAddress kubelink.with_ForeignData]. rewrite <- Hl1.
        exact Hc. }
      assert (kubelink.ParseIPRange ext (kubelink.Spec_Ingress k)
              = inr (kubelink.Ingress l)) as Hin.
      { rewrite Hl1. cbn [kubelink.Ingress kubelink.with_ForeignData].
        exact (LinkFor_Ingress _ _ _ _ Hp). }
      rewrite (AllowIngress_of_entries ext _ l Dst Hin). fold allowed denied.
      destruct (bool_decide (kubelink.Spec_Ingress k = [])).
      * cbn [negb andb]. destruct (tcp.IsSet (broker.local mux)); cbn [negb orb andb];
          [destruct (tcp.Contains (broker.local mux) Dst)|]; reflexivity.
      * cbn [negb andb].
        match goal with
        | |- (if negb ?g then _ else _) = _ => destruct g; reflexivity
        end.
Qed.

Lemma X26_serve_filter_witness :
  let mux := broker.mkMux (net.mkIPNet (net.IPv4 192 168 0 11) [255; 255; 255; 0])
               8088 None sample.one_link in
  let packet := [69; 0; 0; 20; 0; 0; 0; 0; 64; 6; 0; 0;
                 192; 168; 0; 12; 100; 64; 16; 5] in
  broker.accepts sample.ParseHeader mux packet = false
  ∧ broker.accepts sample.ParseHeader mux [96; 0] = true.
Proof.
  intros mux packet. split.
  - refine (eq_trans
              (proj2 (proj2 (proj2 (X26_serve_filter sample.ParseHeader mux sample.ext
                                      (kubelink.NewLinks 80) sample.link_a _ packet _))
                        (net.IPv4 192 168 0 12) (net.IPv4 100 64 16 5)
                        eq_refl eq_refl) eq_refl _) _).
    + vm_compute. reflexivity.
    + vm_compute. reflexivity.
    + vm_compute. reflexivity.
  - refine (proj1 (X26_serve_filter sample.ParseHeader mux sample.ext
                     (kubelink.NewLinks 80) sample.link_a _ [96; 0] _) _).
    + vm_compute. reflexivity.
    + vm_compute. discriminate.
Defined.

(** ** When [LinkFor] builds a link *)

(** The endpoint has one part exactly when it has no colon. *)
Lemma Split_length_one (s : string) :
  (length (kubelink.Split s) =? 1)%nat = negb (more.has_colon s).
Proof.
  induction s as [|c s IH]; [reflexivity|]. cbn [kubelink.Split more.has_colon].
  destruct (Ascii.eqb c ":").
  - cbn [orb negb length]. pose proof (Split_nonempty s).
    destruct (kubelink.Split s); [contradiction|reflexivity].
  - cbn [orb]. rewrite <- IH. pose proof (Split_nonempty s).
    destruct (kubelink.Split s); [contradiction|reflexivity].
Qed.

Lemma egress_loop_is_Some (ext : kubelink.Externals) (l : list string) :
  ∀ e, is_Some (kubelink.egress_loop ext e l)
       ↔ Forall (λ c, is_Some (kubelink.ParseNet ext c)) l.
Proof.
  induction l as [|c l IH]; intros e; cbn [kubelink.egress_loop].
  - split; [constructor|eauto].
  - destruct (kubelink.ParseNet ext c) as [cidr|] eqn:Hc.
    + rewrite IH. split; [intros H; constructor; [rewrite Hc; eauto|exact H]|].
      intros H. inversion H; assumption.
    + split; [intros [? ?]; discriminate|].
      intros H. inversion H as [|? ? [? Hx] _]. congruence.
Qed.

Lemma ParseIPRange_inr_iff (ext : kubelink.Externals) (list : list string) :
  (∃ r, kubelink.ParseIPRange ext list = inr r)
  ↔ Forall (λ c, is_Some (kubelink.ParseNet ext (more.entry c).2)) list.
Proof.
  split.
  - intros [r Hr]. destruct list as [|c list]; [constructor|].
    unfold kubelink.ParseIPRange in Hr.
    destruct (kubelink.ParseIPRange_loop ext _ (c :: list)) eqn:Hl; [discriminate|].
    exact (ParseIPRange_loop_inr ext _ _ _ Hl).
  - intros Hall. destruct list as [|c list]; [exists None; reflexivity|].
    destruct (ParseIPRange_ok ext (c :: list) ltac:(discriminate) Hall) as (r & Hr & _).
    eauto.
Qed.

(** X27. LinkFor reads nothing of the registry but the default port, and
    it returns a link exactly when the CIDR field is empty or parses,
    every egress entry and every ingress entry (without its "!") parses,
    the cluster address parses, endpoint and gateway are not empty, the
    gateway parses, the text between the first and the second colon of
    an endpoint other than "none" parses as a port, and the public key
    is empty or parses. *)
Theorem X27_LinkFor_succeeds_iff
    (ext : kubelink.Externals) (this this' : kubelink.Links) (k : kubelink.KubeLink) :
  (kubelink.defaultport this = kubelink.defaultport this' →
   kubelink.LinkFor ext this k = kubelink.LinkFor ext this' k)
  ∧ ((∃ l, kubelink.LinkFor ext this k = inr l) ↔
     (kubelink.Empty ext (kubelink.Spec_CIDR k) = true
      ∨ is_Some (kubelink.ParseCIDR ext (kubelink.Spec_CIDR k)))
     ∧ Forall (λ c, is_Some (kubelink.ParseNet ext c)) (kubelink.Spec_Egress k)
     ∧ Forall (λ c, is_Some (kubelink.ParseNet ext (more.entry c).2))
              (kubelink.Spec_Ingress k)
     ∧ is_Some (kubelink.ParseCIDR ext (kubelink.Spec_ClusterAddress k))
     ∧ kubelink.Spec_Endpoint k ≠ ""
     ∧ kubelink.Status_Gateway k ≠ ""
     ∧ is_Some (kubelink.ParseIP ext (kubelink.Status_Gateway k))
     ∧ (kubelink.Spec_Endpoint k ≠ "none" →
        more.has_colon (kubelink.Spec_Endpoint k) = true →
        is_Some (kubelink.ParseInt ext
                   (kubelink.Split (kubelink.Spec_Endpoint k) !!! 1%nat)))
     ∧ (kubelink.Empty ext (kubelink.Spec_PublicKey k) = true
        ∨ is_Some (kubelink.ParseKey ext (kubelink.Spec_PublicKey k)))).
Proof.
  split.
  - intros Hd. unfold kubelink.LinkFor. rewrite Hd. reflexivity.
  - set (P1 := kubelink.Empty ext (kubelink.Spec_CIDR k) = true
               ∨ is_Some (kubelink.ParseCIDR ext (kubelink.Spec_CIDR k))).
    set (P9 := kubelink.Empty ext (kubelink.Spec_PublicKey k) = true
               ∨ is_Some (kubelink.ParseKey ext (kubelink.Spec_PublicKey k))).
    rewrite <- (ParseIPRange_inr_iff ext (kubelink.Spec_Ingress k)).
    unfold kubelink.LinkFor. rewrite Split_length_one.
    (* the routing CIDR *)
    assert (∃ sc eg,
              (if negb (kubelink.Empty ext (kubelink.Spec_CIDR k)) then
                 match kubelink.ParseCIDR ext (kubelink.Spec_CIDR k) with
                 | None => inl (ErrInvalidRoutingCIDR (kubelink.Spec_CIDR k))
                 | Some (_, cidr) => inr (Some cidr, tcp.Add None [cidr])
                 end
               else inr (None, None))
              = (if bool_decide P1 then inr (sc, eg)
                 else inl (ErrInvalidRoutingCIDR (kubelink.Spec_CIDR k)))) as (sc & eg & ->).
    { subst P1. destruct (kubelink.Empty ext (kubelink.Spec_CIDR k)); cbn [negb].
      - eexists _, _. rewrite bool_decide_eq_true_2 by (left; reflexivity). reflexivity.
      - destruct (kubelink.ParseCIDR ext (kubelink.Spec_CIDR k)) as [[? cidr]|].
        + eexists _, _. rewrite bool_decide_eq_true_2 by (right; eauto). reflexivity.
        + exists None, None. rewrite bool_decide_eq_false_2; [reflexivity|].
          intros [?|[? ?]]; discriminate. }
    destruct (bool_decide_reflect P1) as [H1|H1];
      [|split; [intros [? ?]; discriminate|intros (? & _); contradiction]].
    pose proof (egress_loop_is_Some ext (kubelink.Spec_Egress k) eg) as H2.
    destruct (kubelink.egress_loop ext eg (kubelink.Spec_Egress k)) as [eg'|];
      [|split; [intros [? ?]; discriminate|
               intros (_ & He & _); apply H2 in He as [? ?]; discriminate]].
    destruct (kubelink.ParseIPRange ext (kubelink.Spec_Ingress k)) as [e|ing] eqn:H3;
      [split; [intros [? ?]; discriminate|
               intros (_ & _ & [? ?] & _); discriminate]|].
    destruct (kubelink.ParseCIDR ext (kubelink.Spec_ClusterAddress k)) as [[ip cc]|];
      [|split; [intros [? ?]; discriminate|
               intros (_ & _ & _ & [? ?] & _); discriminate]].
    destruct (String.eqb_spec (kubelink.Spec_Endpoint k) "") as [H5|H5];
      [split; [intros [? ?]; discriminate|
               intros (_ & _ & _ & _ & ? & _); contradiction]|].
    destruct (String.eqb_spec (kubelink.Status_Gateway k) "") as [H6|H6];
      [split; [intros [? ?]; discriminate|
               intros (_ & _ & _ & _ & _ & ? & _); contradiction]|].
    destruct (kubelink.ParseIP ext (kubelink.Status_Gateway k)) as [gw|];
      [|split; [intros [? ?]; discriminate|
               intros (_ & _ & _ & _ & _ & _ & [? ?] & _); discriminate]].
    assert ((String.length (kubelink.Spec_Endpoint k) =? 0)%nat = false) as ->
      by (destruct (kubelink.Spec_Endpoint k); [contradiction|reflexivity]).
    cbn [negb andb].
    assert (Forall (λ c, is_Some (kubelink.ParseNet ext c)) (kubelink.Spec_Egress k))
      as H2' by (apply H2; eauto).
    (* the port *)
    destruct (String.eqb_spec (kubelink.Spec_Endpoint k) "none") as [Hn|Hn];
      cbn [negb];
      [|destruct (more.has_colon (kubelink.Spec_Endpoint k)) eqn:Hcol; cbn [negb];
        [destruct (kubelink.ParseInt ext
                     (kubelink.Split (kubelink.Spec_Endpoint k) !!! 1%nat)) as [i|];
         [|split; [intros [? ?]; discriminate|
                   intros (_ & _ & _ & _ & _ & _ & _ & Hport & _);
                   destruct (Hport Hn eq_refl) as [? ?]; discriminate]]|]].
    all: subst P9.
    all: destruct (kubelink.Empty ext (kubelink.Spec_PublicKey k)); cbn [negb];
      [|destruct (kubelink.ParseKey ext (kubelink.Spec_PublicKey k)) as [key|];
        [|split; [intros [? ?]; discriminate|
                  intros (_ & _ & _ & _ & _ & _ & _ & _ & [?|[? ?]]); discriminate]]].
    all: split; [intros _|intros _; eexists; reflexivity].
    all: repeat (split; [first [eassumption | eauto; fail | congruence]|]).
    all: eauto.
Qed.

Lemma X27_LinkFor_succeeds_iff_witness :
  (∃ l, kubelink.LinkFor sample.ext (kubelink.NewLinks 80) sample.link_a = inr l)
  ∧ kubelink.LinkFor sample.ext (kubelink.NewLinks 80) sample.link_a
    = kubelink.LinkFor sample.ext sample.two_links sample.link_a.
Proof.
  split.
  - refine (proj2 (proj2 (X27_LinkFor_succeeds_iff sample.ext (kubelink.NewLinks 80)
                            (kubelink.NewLinks 80) sample.link_a)) _).
    split; [left; reflexivity|]. split; [constructor|].
    split; [repeat constructor; vm_compute; eauto|].
    split; [vm_compute; eauto|]. split; [discriminate|]. split; [discriminate|].
    split; [vm_compute; eauto|]. split; [intros _ _; vm_compute; eauto|].
    left. reflexivity.
  - exact (proj1 (X27_LinkFor_succeeds_iff sample.ext (kubelink.NewLinks 80)
                    sample.two_links sample.link_a) eq_refl).
Defined.
